(** * The Simit front end: type checking of the HIR

    A shallow embedding of [src/frontend/type_checker.cpp].  The C++
    namespaces [simit::ir], [simit::internal] and [simit::hir] become the
    modules [ir], [internal] and [hir].  The visitor's out-slots
    ([retType], [retIRType], ...) become return values, the program context
    and the error list are threaded as an explicit state, and the three ways
    a visit can end (normal return, C++ exception, internal assertion) are
    the three constructors of [Outcome]. *)

From Stdlib Require Import ZArith QArith.QArith_base Lia.
From stdpp Require Import base option list strings gmap.

Local Open Scope string_scope.
Local Open Scope Z_scope.
Local Open Scope list_scope.

(** Induction principles for types nested in [list] and [option]. *)
Scheme All for list.
Scheme All for option.

(** Element-wise comparison of two vectors, as [std::vector]'s [operator==]. *)
Definition list_eqb {A : Type} (eqb : A -> A -> bool) : list A -> list A -> bool :=
  fix go (l r : list A) : bool :=
    match l, r with
    | [], [] => true
    | x :: l', y :: r' => eqb x y && go l' r'
    | _, _ => false
    end.

(** ** The IR type system *)

Module ir.

Inductive ScalarType : Set := Int | Float | Boolean.

Definition ScalarType_eqb (l r : ScalarType) : bool :=
  match l, r with
  | Int, Int | Float, Float | Boolean, Boolean => true
  | _, _ => false
  end.

(** Modelled from the spec: [types.h] and [ir.h] are not part of the
    sources.  Section 3 of the specification gives the variants: a tensor
    has a component type, a list of index domains (each a list of index sets,
    outermost first) and the column-vector flag; scalars are the tensors of
    order 0; an index set is a range, a set variable or dynamic; an element
    type is a named record of fields; a set type has an element type and the
    endpoint set variables; a tuple type has an element type and a length.
    [Undefined] is the default-constructed [ir::Type].  An [ir::Expr] is only
    ever a reference to a variable in the checker, so it is modelled as the
    variable's name together with its type. *)
Inductive Type_ : Set :=
| Undefined
| TensorType (componentType : ScalarType)
             (dimensions : list (list IndexSet)) (isColumnVector : bool)
| ElementType (name : string) (fields : list Field)
| SetType (elementType : Type_) (endpointSets : list Expr)
| TupleType (elementType : Type_) (size : Z)
with IndexSet : Set :=
| Range (rangeSize : Z)
| Set_ (set : Expr)
| Dynamic
with Field : Set :=
| mkField (name : string) (type : Type_)
with Expr : Set :=
| VarExpr (name : string) (type : Type_).

Definition IndexDomain : Set := list IndexSet.

(** Modelled from the spec: structural equality ([operator==]) of types.
    The undefined type compares unequal to everything, itself included, and
    the column-vector flag is not part of [TensorType]'s [operator==]
    ([compareTypes] of the checker compares it separately). *)
Fixpoint Type_eqb (l r : Type_) {struct l} : bool :=
  match l, r with
  | TensorType lc ld _, TensorType rc rd _ =>
      ScalarType_eqb lc rc && list_eqb (list_eqb IndexSet_eqb) ld rd
  | ElementType ln lf, ElementType rn rf =>
      String.eqb ln rn && list_eqb Field_eqb lf rf
  | SetType le ls, SetType re rs =>
      Type_eqb le re && list_eqb Expr_eqb ls rs
  | TupleType le ln, TupleType re rn =>
      Type_eqb le re && Z.eqb ln rn
  | _, _ => false
  end
with IndexSet_eqb (l r : IndexSet) {struct l} : bool :=
  match l, r with
  | Range ln, Range rn => Z.eqb ln rn
  | Set_ ls, Set_ rs => Expr_eqb ls rs
  | Dynamic, Dynamic => true
  | _, _ => false
  end
with Field_eqb (l r : Field) {struct l} : bool :=
  match l, r with
  | mkField ln lt, mkField rn rt => String.eqb ln rn && Type_eqb lt rt
  end
with Expr_eqb (l r : Expr) {struct l} : bool :=
  match l, r with
  | VarExpr ln lt, VarExpr rn rt => String.eqb ln rn && Type_eqb lt rt
  end.

Definition IndexDomain_eqb : IndexDomain -> IndexDomain -> bool :=
  list_eqb IndexSet_eqb.

Definition defined (t : Type_) : bool :=
  match t with Undefined => false | _ => true end.

Definition isTensor (t : Type_) : bool :=
  match t with TensorType _ _ _ => true | _ => false end.

Definition isElement (t : Type_) : bool :=
  match t with ElementType _ _ => true | _ => false end.

Definition isSet (t : Type_) : bool :=
  match t with SetType _ _ => true | _ => false end.

Definition isTuple (t : Type_) : bool :=
  match t with TupleType _ _ => true | _ => false end.

(** The scalar types [ir::Int], [ir::Float] and [ir::Boolean]. *)
Definition scalar (c : ScalarType) : Type_ := TensorType c [] false.

(** Modelled from the spec: the helpers [isScalar], [isInt] and [isBoolean]
    of [types.h]; a scalar is a tensor of order 0. *)
Definition isScalar (t : Type_) : bool :=
  match t with TensorType _ [] _ => true | _ => false end.

Definition isInt (t : Type_) : bool :=
  match t with TensorType Int [] _ => true | _ => false end.

Definition isBoolean (t : Type_) : bool :=
  match t with TensorType Boolean [] _ => true | _ => false end.

(** Modelled from the spec: [TensorType::getOuterDimensions]; the first
    index set of a domain is the outer dimension. *)
Definition getOuterDimensions (dimensions : list IndexDomain) : list IndexSet :=
  omap head dimensions.

(** Modelled from the spec: [TensorType::getBlockType]; the index sets after
    the first of each domain describe the block nesting, and a tensor whose
    domains hold one index set each has scalar blocks. *)
Definition getBlockType (c : ScalarType) (dimensions : list IndexDomain)
    (isColumnVector : bool) : Type_ :=
  match dimensions with
  | [] => scalar c
  | d :: _ =>
      if (length d <=? 1)%nat then scalar c
      else TensorType c (tail <$> dimensions) isColumnVector
  end.

Record Var : Set := mkVar { getName : string; getType : Type_ }.

Inductive FuncKind : Set := Internal | External | Intrinsic.

Record Func : Set := mkFunc {
  funcName : string;
  getArguments : list Var;
  getResults : list Var;
  getKind : FuncKind
}.

End ir.

(** ** Symbols and the program context *)

Module internal.

(** Modelled from the spec: [symbol.h] and [program_context.h] are not part
    of the sources.  A symbol is a variable with its access flags; the symbol
    table is a stack of maps, innermost scope first; lookup walks the stack
    from the innermost scope outwards; the context also owns the registries
    of element types and of functions. *)
Inductive Access : Set := Read | Write | ReadWrite.

Record Symbol : Set := mkSymbol { getVar : ir.Var; getAccess : Access }.

Definition isReadable (s : Symbol) : bool :=
  match getAccess s with Read | ReadWrite => true | Write => false end.

Definition isWritable (s : Symbol) : bool :=
  match getAccess s with Write | ReadWrite => true | Read => false end.

(** [Symbol::getExpr]: the variable as an IR expression. *)
Definition getExpr (s : Symbol) : ir.Expr :=
  ir.VarExpr (ir.getName (getVar s)) (ir.getType (getVar s)).

Record ProgramContext : Type := mkProgramContext {
  symtable : list (gmap string Symbol);
  elementTypes : gmap string ir.Type_;
  functions : gmap string ir.Func
}.

Definition scope (ctx : ProgramContext) : ProgramContext :=
  mkProgramContext (∅ :: symtable ctx) (elementTypes ctx) (functions ctx).

Definition unscope (ctx : ProgramContext) : ProgramContext :=
  mkProgramContext (tail (symtable ctx)) (elementTypes ctx) (functions ctx).

Fixpoint lookupSymbol (scopes : list (gmap string Symbol)) (name : string)
    : option Symbol :=
  match scopes with
  | [] => None
  | s :: outer =>
      match s !! name with
      | Some sym => Some sym
      | None => lookupSymbol outer name
      end
  end.

Definition getSymbol (ctx : ProgramContext) (name : string) : option Symbol :=
  lookupSymbol (symtable ctx) name.

(** [hasSymbol(name, local)]: with [local] set only the innermost scope is
    searched. *)
Definition hasSymbol (ctx : ProgramContext) (name : string) (local : bool)
    : bool :=
  if local then
    match symtable ctx with
    | [] => false
    | s :: _ => bool_decide (is_Some (s !! name))
    end
  else bool_decide (is_Some (getSymbol ctx name)).

(** [addSymbol(name, var, access)] binds the name in the innermost scope;
    without any scope there is nothing to bind in. *)
Definition addSymbol (ctx : ProgramContext) (name : string) (var : ir.Var)
    (access : Access) : ProgramContext :=
  match symtable ctx with
  | [] => ctx
  | s :: outer =>
      mkProgramContext (<[name := mkSymbol var access]> s :: outer)
                       (elementTypes ctx) (functions ctx)
  end.

Definition containsElementType (ctx : ProgramContext) (name : string) : bool :=
  bool_decide (is_Some (elementTypes ctx !! name)).

Definition getElementType (ctx : ProgramContext) (name : string)
    : option ir.Type_ :=
  elementTypes ctx !! name.

Definition addElementType (ctx : ProgramContext) (name : string)
    (t : ir.Type_) : ProgramContext :=
  mkProgramContext (symtable ctx) (<[name := t]> (elementTypes ctx))
                   (functions ctx).

Definition containsFunction (ctx : ProgramContext) (name : string) : bool :=
  bool_decide (is_Some (functions ctx !! name)).

Definition getFunction (ctx : ProgramContext) (name : string)
    : option ir.Func :=
  functions ctx !! name.

Definition addFunction (ctx : ProgramContext) (f : ir.Func) : ProgramContext :=
  mkProgramContext (symtable ctx) (elementTypes ctx)
                   (<[ir.funcName f := f]> (functions ctx)).

(** The context a compilation starts from: the global scope only. *)
Definition emptyContext : ProgramContext := mkProgramContext [∅] ∅ ∅.

Definition depth (ctx : ProgramContext) : nat := length (symtable ctx).

End internal.

(** ** The HIR and the type checker *)

Module hir.

(** *** Syntax *)

(** Modelled from the spec: [hir.h] is not part of the sources.  The node
    kinds are those of section 4.5 of the specification, with the fields the
    checker reads; [ExpExpr] and [TupleReadExpr] are the two further kinds
    the checker has a visit method for. *)
Inductive IndexSet : Set :=
| RangeIndexSet (range : Z)
| SetIndexSet (setName : string)
| DynamicIndexSet.

Inductive ScalarKind : Set := INT | FLOAT | BOOL.

Inductive TensorType : Set :=
| ScalarType (type : ScalarKind)
| NDTensorType (indexSets : list IndexSet) (blockType : TensorType)
               (columnVector : bool).

Inductive Type_ : Set :=
| ElementType (ident : string)
| SetType (element : string) (endpoints : list string)
| TupleType (element : string) (length : Z)
| Tensor (type : TensorType).

Record IdentDecl : Set := mkIdentDecl { name : string; type : Type_ }.

Record Argument : Set := mkArgument { arg : IdentDecl; inout : bool }.

Inductive DenseTensorLiteral : Set :=
| IntVectorLiteral (vals : list Z) (transposed : bool)
| FloatVectorLiteral (vals : list Q) (transposed : bool)
| NDTensorLiteral (elems : list DenseTensorLiteral) (transposed : bool).

Inductive Expr : Set :=
| MapExpr (func : string) (partialActuals : list Expr) (target : string)
| OrExpr (lhs rhs : Expr)
| AndExpr (lhs rhs : Expr)
| XorExpr (lhs rhs : Expr)
| EqExpr (operands : list Expr)
| NotExpr (operand : Expr)
| AddExpr (lhs rhs : Expr)
| SubExpr (lhs rhs : Expr)
| MulExpr (lhs rhs : Expr)
| DivExpr (lhs rhs : Expr)
| ElwiseMulExpr (lhs rhs : Expr)
| ElwiseDivExpr (lhs rhs : Expr)
| NegExpr (operand : Expr)
| ExpExpr (lhs rhs : Expr)
| TransposeExpr (operand : Expr)
| CallExpr (func : string) (arguments : list (option Expr))
| TensorReadExpr (tensor : Expr) (indices : list ReadParam)
| TupleReadExpr (tuple index : Expr)
| FieldReadExpr (setOrElem : Expr) (field : string)
| VarExpr (ident : string)
| IntLiteral (val : Z)
| FloatLiteral (val : Q)
| BoolLiteral (val : bool)
| TensorLiteral (lit : DenseTensorLiteral)
with ReadParam : Set :=
| Slice
| ExprParam (expr : Expr).

Scheme Expr_mutind := Induction for Expr Sort Prop
  with ReadParam_mutind := Induction for ReadParam Sort Prop.

Inductive Stmt : Set :=
| VarDecl (var : IdentDecl) (initVal : option Expr)
| ConstDecl (var : IdentDecl) (initVal : option Expr)
| WhileStmt (cond : Expr) (body : list Stmt)
| IfStmt (cond : Expr) (ifBody : list Stmt) (elseBody : option (list Stmt))
| ForStmt (loopVar : string) (lower upper : Expr) (body : list Stmt)
| PrintStmt (expr : Expr)
| AssignStmt (lhs : list Expr) (expr : Expr).

Inductive Decl : Set :=
| ElementTypeDecl (name : string) (fields : list IdentDecl)
| ExternDecl (var : IdentDecl)
| FuncDecl (name : string) (args : list Argument) (results : list IdentDecl)
           (body : list Stmt).

Definition Program : Set := list Decl.

(** The node an error is reported at; [reportError] reads the source span
    off it. *)
Inductive HIRNode : Set :=
| AtIndexSet (n : IndexSet)
| AtType (n : Type_)
| AtEndpoint (setName : string)
| AtTupleLength (val : Z)
| AtIdentifier (ident : string)
| AtExpr (n : Expr)
| AtReadParam (n : ReadParam)
| AtStmt (n : Stmt)
| AtDecl (n : Decl).

(** *** Diagnostics *)

(** [Expr::Type] is the list of the types of the values of an expression;
    a null [Ptr<Expr::Type>] is [None]. *)
Definition ExprType : Set := list ir.Type_.

(** The exceptions, and the pieces streamed into an error message, in
    order: text, the output of [typeString] on a type or on an expression
    type, a number, a scalar type, and the [what()] of a caught exception. *)
Inductive Exn : Set :=
| TypeError    (* thrown by the methods of DenseTensorType *)
| DimError     (* thrown by DenseTensorType::merge *)
| OutOfRange.  (* std::out_of_range, thrown by std::vector::at *)

Inductive Piece : Set :=
| Str (s : string)
| Ty (t : ir.Type_)
| Tys (ts : ExprType)
| Num (n : Z)
| Comp (c : ir.ScalarType)
| What (e : Exn).

Record ParseError : Set := mkParseError { loc : HIRNode; msg : list Piece }.

(** *** Outcomes and the checker monad *)

Inductive AbortReason : Set :=
| AssertionFailed     (* iassert *)
| Unreachable         (* unreachable *)
| NotSupportedYet     (* not_supported_yet *)
| UndefinedBehaviour. (* null dereference, access past the end *)

Inductive Outcome (A : Type) : Type :=
| Done (a : A)
| Throw (e : Exn)
| Abort (r : AbortReason).
Arguments Done {A} a.
Arguments Throw {A} e.
Arguments Abort {A} r.

Record State : Type := mkState {
  ctx : internal.ProgramContext;
  errors : list ParseError
}.

(** A visit maps the state it starts in to the way it ends and the state it
    ends in; errors reported before an exception or an abort stay reported. *)
Definition M (A : Type) : Type := State -> Outcome A * State.

Definition ret {A} (a : A) : M A := fun st => (Done a, st).

Definition bind {A B} (m : M A) (k : A -> M B) : M B :=
  fun st =>
    match m st with
    | (Done a, st') => k a st'
    | (Throw e, st') => (Throw e, st')
    | (Abort r, st') => (Abort r, st')
    end.

Notation "'let*' x ':=' m 'in' k" := (bind m (fun x => k))
  (at level 10, x name, m at level 100, k at level 200).
Notation "'let*' ' p ':=' m 'in' k" :=
  (bind m (fun x => match x with p => k end))
  (at level 10, p strict pattern, m at level 100, k at level 200).

Definition abort {A} (r : AbortReason) : M A := fun st => (Abort r, st).

Definition throw {A} (e : Exn) : M A := fun st => (Throw e, st).

(** A computation without state (the methods of [DenseTensorType]) run
    inside a visit. *)
Definition lift {A} (o : Outcome A) : M A := fun st => (o, st).

Definition iassert (c : bool) : M unit :=
  if c then ret tt else abort AssertionFailed.

Definition getCtx : M internal.ProgramContext := fun st => (Done (ctx st), st).

Definition modifyCtx (f : internal.ProgramContext -> internal.ProgramContext)
    : M unit :=
  fun st => (Done tt, mkState (f (ctx st)) (errors st)).

Definition when (c : bool) (m : M unit) : M unit := if c then m else ret tt.

(** [try { body } catch (std::exception &err) { handler }]. *)
Definition tryCatch {A} (body : M A) (handler : Exn -> M A) : M A :=
  fun st =>
    match body st with
    | (Throw e, st') => handler e st'
    | r => r
    end.

(** [reportError]: [errors->push_back(err)]. *)
Definition reportError (m : list Piece) (l : HIRNode) : M unit :=
  fun st => (Done tt, mkState (ctx st) (errors st ++ [mkParseError l m])).

Definition reportUndeclared (type ident : string) (l : HIRNode) : M unit :=
  reportError [Str "undeclared "; Str type; Str " '"; Str ident; Str "'"] l.

Definition reportMultipleDefs (type ident : string) (l : HIRNode) : M unit :=
  reportError
    [Str "multiple definitions of "; Str type; Str " '"; Str ident; Str "'"] l.

(** [compareTypes]: both types must be defined. *)
Definition compareTypes (l r : ir.Type_) : M bool :=
  let* _ := iassert (ir.defined l && ir.defined r) in
  match l, r with
  | ir.TensorType _ _ lcol, ir.TensorType _ _ rcol =>
      ret (ir.Type_eqb l r && Bool.eqb lcol rcol)
  | _, _ => ret (ir.Type_eqb l r)
  end.

(** [Type::toTensor], [Type::toSet]: the kind of the type is asserted. *)
Definition toTensor (t : ir.Type_)
    : M (ir.ScalarType * list ir.IndexDomain * bool) :=
  match t with
  | ir.TensorType c dims col => ret (c, dims, col)
  | _ => abort AssertionFailed
  end.

Definition toSet (t : ir.Type_) : M (ir.Type_ * list ir.Expr) :=
  match t with
  | ir.SetType elem ends => ret (elem, ends)
  | _ => abort AssertionFailed
  end.

Definition exprType (e : ir.Expr) : ir.Type_ :=
  match e with ir.VarExpr _ t => t end.

(** *** Lowering type syntax *)

(** [visit(RangeIndexSet)], [visit(SetIndexSet)], [visit(DynamicIndexSet)];
    the result is [retIndexSet]. *)
Definition visitIndexSet (set : IndexSet) : M (option ir.IndexSet) :=
  match set with
  | RangeIndexSet range => ret (Some (ir.Range range))
  | SetIndexSet setName =>
      let* c := getCtx in
      match internal.getSymbol c setName with
      | None =>
          let* _ := reportUndeclared "set" setName (AtIndexSet set) in
          ret None
      | Some sym =>
          let setExpr := internal.getExpr sym in
          if negb (ir.isSet (exprType setExpr)) then
            let* _ := reportError
              [Str "index set must be a set, a range, or dynamic (*)"]
              (AtIndexSet set) in
            ret None
          else ret (Some (ir.Set_ setExpr))
      end
  | DynamicIndexSet => ret (Some ir.Dynamic)
  end.

(** [visit(ElementType)]; the result is [retIRType], undefined when unset. *)
Definition visitElementType (ident : string) : M ir.Type_ :=
  let* c := getCtx in
  match internal.getElementType c ident with
  | None =>
      let* _ := reportUndeclared "element type" ident
                  (AtType (ElementType ident)) in
      ret ir.Undefined
  | Some t => ret t
  end.

(** [visit(Endpoint)]; the result is [retExpr]. *)
Definition visitEndpoint (setName : string) : M (option ir.Expr) :=
  let* c := getCtx in
  match internal.getSymbol c setName with
  | None =>
      let* _ := reportUndeclared "set" setName (AtEndpoint setName) in
      ret None
  | Some sym => ret (Some (internal.getExpr sym))
  end.

(** The loop over the endpoints in [visit(SetType)]; it returns what it
    leaves in [typeChecked] and in [endpoints]. *)
Fixpoint visitEndpoints (ends : list string) (typeChecked : bool)
    (endpoints : list ir.Expr) : M (bool * list ir.Expr) :=
  match ends with
  | [] => ret (typeChecked, endpoints)
  | e :: rest =>
      let* endpoint := visitEndpoint e in
      match endpoint with
      | None => visitEndpoints rest false endpoints
      | Some ep =>
          if negb (ir.isSet (exprType ep)) then
            let* _ := reportError
              [Str "expected endpoint to be of set type but got an endpoint of ";
               Str "type "; Ty (exprType ep)] (AtEndpoint e) in
            visitEndpoints rest false endpoints
          else visitEndpoints rest typeChecked (endpoints ++ [ep])
      end
  end.

Definition visitSetType (element : string) (ends : list string) : M ir.Type_ :=
  let* elementType := visitElementType element in
  let* '(typeChecked, endpoints) :=
    visitEndpoints ends (ir.defined elementType) [] in
  if negb typeChecked then ret ir.Undefined
  else ret (ir.SetType elementType endpoints).

Definition visitTupleType (element : string) (len : Z) : M ir.Type_ :=
  let* elementType := visitElementType element in
  if (len <? 1)%Z then
    let* _ := reportError
      [Str "tuple must have length greater than or equal to one"]
      (AtTupleLength len) in
    ret ir.Undefined
  else if negb (ir.defined elementType) then ret ir.Undefined
  else ret (ir.TupleType elementType len).

Definition visitScalarType (k : ScalarKind) : ir.Type_ :=
  match k with
  | INT => ir.scalar ir.Int
  | FLOAT => ir.scalar ir.Float
  | BOOL => ir.scalar ir.Boolean
  end.

(** The loop over the index sets in [visit(NDTensorType)]. *)
Fixpoint visitIndexSets (iss : list IndexSet) (typeChecked : bool)
    (indexSets : list ir.IndexSet) : M (bool * list ir.IndexSet) :=
  match iss with
  | [] => ret (typeChecked, indexSets)
  | s :: rest =>
      let* indexSet := visitIndexSet s in
      match indexSet with
      | None => visitIndexSets rest false indexSets
      | Some i => visitIndexSets rest typeChecked (indexSets ++ [i])
      end
  end.

(** The dimensions of a blocked tensor: [indexSets[i]] followed by the index
    sets of [blockDimensions[i]]. *)
Definition blockedDimensions (indexSets : list ir.IndexSet)
    (blockDimensions : list ir.IndexDomain) : list ir.IndexDomain :=
  zip_with cons indexSets blockDimensions.

(** [visit(ScalarType)] and [visit(NDTensorType)]. *)
Fixpoint visitTensorType (t : TensorType) : M ir.Type_ :=
  match t with
  | ScalarType k => ret (visitScalarType k)
  | NDTensorType iss block columnVector =>
      let* blockType := visitTensorType block in
      let* '(typeChecked, indexSets) :=
        visitIndexSets iss (ir.defined blockType) [] in
      if negb typeChecked then ret ir.Undefined else
      let* ndTensorType :=
        match indexSets with
        | [] => ret blockType
        | _ :: _ =>
            let* '(componentType, blockDimensions, _) := toTensor blockType in
            if (length blockDimensions =? 0)%nat then
              ret (ir.TensorType componentType
                     ((fun i => [i]) <$> indexSets) false)
            else if (length blockDimensions =? length indexSets)%nat then
              ret (ir.TensorType componentType
                     (blockedDimensions indexSets blockDimensions) false)
            else
              let* _ := reportError
                [Str "blocked tensor type must contain same number ";
                 Str "of dimensions as its blocks"] (AtType (Tensor t)) in
              ret ir.Undefined
        end in
      if negb (ir.defined ndTensorType) then ret ir.Undefined else
      if columnVector then
        let* '(componentType, dimensions, _) := toTensor ndTensorType in
        if negb (length dimensions =? 1)%nat then
          let* _ := reportError
            [Str "tensor type declared with "; Num (Z.of_nat (length dimensions));
             Str " dimensions but column vector type must strictly contain one"]
            (AtType (Tensor t)) in
          ret ir.Undefined
        else ret (ir.TensorType componentType dimensions true)
      else ret ndTensorType
  end.

(** [getIRType]: dispatch on the kind of the type node. *)
Definition getIRType (t : Type_) : M ir.Type_ :=
  match t with
  | ElementType ident => visitElementType ident
  | SetType element ends => visitSetType element ends
  | TupleType element len => visitTupleType element len
  | Tensor ten => visitTensorType ten
  end.

(** [visit(IdentDecl)], read back by [getVar]. *)
Definition getVar (decl : IdentDecl) : M ir.Var :=
  let* t := getIRType (type decl) in
  ret (ir.mkVar (name decl) t).

(** [visit(Field)], read back by [getField]. *)
Definition getField (f : IdentDecl) : M ir.Field :=
  let* t := getIRType (type f) in
  ret (ir.mkField (name f) t).

(** *** Dense tensor literals *)

(** Modelled from the spec: the declaration of [TypeChecker::DenseTensorType]
    is in [type_checker.h], which is not part of the sources.  [dimSizes]
    holds the lengths innermost axis first and starts as the one-element
    vector [[0]]; [addDimension] appends the count 1 of the row just read.
    The methods [addIntValues], [addFloatValues] and [merge] are translated
    from [type_checker.cpp].  The sizes are [unsigned]: arithmetic on them
    wraps at [2^32]. *)
Module DenseTensorType.

Inductive Type_ : Set := UNKNOWN | INT | FLOAT.

Definition Type_eqb (l r : Type_) : bool :=
  match l, r with
  | UNKNOWN, UNKNOWN | INT, INT | FLOAT, FLOAT => true
  | _, _ => false
  end.

Record t : Set := mk { dimSizes : list Z; type : Type_ }.

Definition unsigned (z : Z) : Z := z mod 2 ^ 32.

Definition init : t := mk [0] UNKNOWN.

Definition addDimension (d : t) : t := mk (dimSizes d ++ [1]) (type d).

(** [dimSizes[dimSizes.size() - 1] += len]. *)
Definition addToLast (len : Z) (dimSizes : list Z) : list Z :=
  alter (fun n => unsigned (n + len)) (length dimSizes - 1)%nat dimSizes.

Definition addIntValues (len : Z) (d : t) : Outcome t :=
  match type d with
  | FLOAT => Throw TypeError
  | _ => Done (mk (addToLast len (dimSizes d)) INT)
  end.

Definition addFloatValues (len : Z) (d : t) : Outcome t :=
  match type d with
  | INT => Throw TypeError
  | _ => Done (mk (addToLast len (dimSizes d)) FLOAT)
  end.

Definition merge (d other : t) : Outcome t :=
  if negb (Type_eqb (type d) (type other)) then Throw TypeError
  else if negb (length (dimSizes d) - 1 =? length (dimSizes other))%nat
  then Throw DimError
  else if negb (list_eqb Z.eqb
                  (take (length (dimSizes d) - 1) (dimSizes d))
                  (dimSizes other))
  then Throw DimError
  else Done (mk (addToLast 1 (dimSizes d)) (type d)).

End DenseTensorType.

Definition transposedOf (lit : DenseTensorLiteral) : bool :=
  match lit with
  | IntVectorLiteral _ b | FloatVectorLiteral _ b | NDTensorLiteral _ b => b
  end.

(** The loop of [getDenseTensorType] over the rows after the first, over
    the function [get] that infers the type of a row. *)
Definition mergeRows (get : DenseTensorLiteral -> Outcome DenseTensorType.t)
    : list DenseTensorLiteral -> DenseTensorType.t
      -> Outcome DenseTensorType.t :=
  fix merge (rows : list DenseTensorLiteral) (tensorType : DenseTensorType.t)
      {struct rows} : Outcome DenseTensorType.t :=
    match rows with
    | [] => Done tensorType
    | row :: rows' =>
        match get row with
        | Done other =>
            match DenseTensorType.merge tensorType other with
            | Done merged => merge rows' merged
            | failure => failure
            end
        | failure => failure
        end
    end.

(** [getDenseTensorType].  [elems[0]] of a literal without rows is an
    access past the end. *)
Fixpoint getDenseTensorType (lit : DenseTensorLiteral)
    : Outcome DenseTensorType.t :=
  match lit with
  | IntVectorLiteral vals _ =>
      DenseTensorType.addIntValues
        (DenseTensorType.unsigned (Z.of_nat (length vals)))
        DenseTensorType.init
  | FloatVectorLiteral vals _ =>
      DenseTensorType.addFloatValues
        (DenseTensorType.unsigned (Z.of_nat (length vals)))
        DenseTensorType.init
  | NDTensorLiteral elems transposed =>
      if transposed then Abort AssertionFailed else
      match elems with
      | [] => Abort UndefinedBehaviour
      | first :: rest =>
          match getDenseTensorType first with
          | Done tensorType =>
              mergeRows getDenseTensorType rest
                (DenseTensorType.addDimension tensorType)
          | failure => failure
          end
      end
  end.

(** [typeCheckDenseTensorLiteral]; the result is [retType]. *)
Definition typeCheckDenseTensorLiteral (lit : DenseTensorLiteral)
    : M (option ExprType) :=
  tryCatch
    (let* tensorType := lift (getDenseTensorType lit) in
     let idoms := (fun n => [ir.Range n])
                    <$> reverse (DenseTensorType.dimSizes tensorType) in
     let elemType :=
       match DenseTensorType.type tensorType with
       | DenseTensorType.INT => ir.Int
       | _ => ir.Float
       end in
     let* _ := iassert ((length idoms =? 1)%nat || negb (transposedOf lit)) in
     ret (Some [ir.TensorType elemType idoms (transposedOf lit)]))
    (fun err =>
       let* _ := reportError [What err] (AtExpr (TensorLiteral lit)) in
       ret None).

(** *** Expressions: the checks made once the operands are inferred *)

(** The single tensor type of an operand, if it is one whose components
    are not boolean: the operand passes the test
    [size() != 1 || !at(0).isTensor() || getComponentType().isBoolean()]. *)
Definition numericTensor (t : ExprType)
    : option (ir.ScalarType * list ir.IndexDomain * bool) :=
  match t with
  | [ir.TensorType ir.Boolean _ _] => None
  | [ir.TensorType c dims col] => Some (c, dims, col)
  | _ => None
  end.

(** The operand check shared by [*], [/] and the element-wise operations:
    an operand whose type was inferred and is not a numeric tensor is
    reported. *)
Definition checkNumericOperand (what : list Piece) (opndType : option ExprType)
    (opnd : Expr) : M unit :=
  match opndType with
  | Some t =>
      match numericTensor t with
      | None => reportError (what ++ [Tys t]) (AtExpr opnd)
      | Some _ => ret tt
      end
  | None => ret tt
  end.

(** The rest of [visit(MulExpr)], for two numeric tensors. *)
Definition mulTensors (expr : Expr) (lhsType rhsType : ExprType)
    (lc : ir.ScalarType) (ldimensions : list ir.IndexDomain) (lcol : bool)
    (rc : ir.ScalarType) (rdimensions : list ir.IndexDomain) (rcol : bool)
    : M (option ExprType) :=
  if negb (ir.ScalarType_eqb lc rc) then
    let* _ := reportError
      [Str "cannot multiply tensors containing elements of type '"; Comp lc;
       Str "' and type '"; Comp rc; Str "'"] (AtExpr expr) in
    ret None
  else
    match ldimensions, rdimensions with
    | [], _ => ret (Some rhsType)
    | _ :: _, [] => ret (Some lhsType)
    | [l0], [r0] =>
        if lcol && rcol then
          let* _ := reportError [Str "cannot multiply two column vectors"]
                      (AtExpr expr) in
          ret None
        else if negb lcol && negb rcol then
          let* _ := reportError [Str "cannot multiply two row vectors"]
                      (AtExpr expr) in
          ret None
        else if negb (ir.IndexDomain_eqb l0 r0) then
          let* _ := reportError
            [Str "cannot multiply vectors of type "; Tys lhsType;
             Str " and type "; Tys rhsType] (AtExpr expr) in
          ret None
        else
          let dom := if lcol then [l0; r0] else [] in
          ret (Some [ir.TensorType lc dom false])
    | [l0; l1], [r0] =>
        if negb (ir.IndexDomain_eqb l1 r0) then
          let* _ := reportError
            [Str "cannot multiply a matrix of type "; Tys lhsType;
             Str " by a vector of type "; Tys rhsType] (AtExpr expr) in
          ret None
        else
          let* _ := when (negb rcol)
            (reportError [Str "Cannot multiply a matrix by a row vector"]
               (AtExpr expr)) in
          ret (Some [ir.TensorType lc [l0] true])
    | [l0], [r0; r1] =>
        if negb (ir.IndexDomain_eqb l0 r0) || negb (ir.ScalarType_eqb lc rc)
        then
          let* _ := reportError
            [Str "cannot multiply a vector of type "; Tys lhsType;
             Str " by a matrix of type "; Tys rhsType] (AtExpr expr) in
          ret None
        else
          let* _ := when lcol
            (reportError [Str "Cannot multiply a column vector by a matrix"]
               (AtExpr expr)) in
          ret (Some [ir.TensorType lc [r1] false])
    | [l0; l1], [r0; r1] =>
        if negb (ir.IndexDomain_eqb l1 r0) then
          let* _ := reportError
            [Str "cannot multiply matrices of type "; Tys lhsType;
             Str " and type "; Tys rhsType] (AtExpr expr) in
          ret None
        else ret (Some [ir.TensorType lc [l0; r1] false])
    | _, _ =>
        let* _ := reportError
          [Str "cannot multiply tensors of order 3 or greater using *"]
          (AtExpr expr) in
        ret None
    end.

(** [visit(MulExpr)] after the two calls of [inferType]. *)
Definition checkMul (expr lhs rhs : Expr) (lhsType rhsType : option ExprType)
    : M (option ExprType) :=
  let* _ := checkNumericOperand
    [Str "expected left operand of multiplication operation to be a ";
     Str "numeric tensor but got an operand of type "] lhsType lhs in
  let* _ := checkNumericOperand
    [Str "expected right operand of multiplication operation to be a ";
     Str "numeric tensor but got an operand of type "] rhsType rhs in
  match lhsType, rhsType with
  | Some lt, Some rt =>
      match numericTensor lt, numericTensor rt with
      | Some (lc, ld, lcol), Some (rc, rd, rcol) =>
          mulTensors expr lt rt lc ld lcol rc rd rcol
      | _, _ => ret None
      end
  | _, _ => ret None
  end.

(** [visit(DivExpr)] after the two calls of [inferType]. *)
Definition checkDiv (expr lhs rhs : Expr) (lhsType rhsType : option ExprType)
    : M (option ExprType) :=
  let* _ := checkNumericOperand
    [Str "expected left operand of division operation to be a numeric ";
     Str "tensor but got an operand of type "] lhsType lhs in
  let* _ := checkNumericOperand
    [Str "expected right operand of division operation to be a numeric ";
     Str "tensor but got an operand of type "] rhsType rhs in
  match lhsType, rhsType with
  | Some lt, Some rt =>
      match numericTensor lt, numericTensor rt with
      | Some (lc, ld, _), Some (rc, rd, _) =>
          if negb (ir.ScalarType_eqb lc rc) then
            let* _ := reportError
              [Str "cannot divide tensors containing elements of type '";
               Comp lc; Str "' and type '"; Comp rc; Str "'"] (AtExpr expr) in
            ret None
          else if (0 <? length ld)%nat && (0 <? length rd)%nat then
            let* _ := reportError
              [Str "division of a non-scalar tensor of type "; Tys lt;
               Str " by a non-scalar tensor of type "; Tys rt;
               Str " is not supported"] (AtExpr expr) in
            ret None
          else ret (if (0 <? length ld)%nat then lhsType else rhsType)
      | _, _ => ret None
      end
  | _, _ => ret None
  end.

(** [typeCheckBinaryElwise] after the two calls of [inferType]. *)
Definition checkBinaryElwise (expr lhs rhs : Expr)
    (lhsType rhsType : option ExprType) : M (option ExprType) :=
  let* _ := checkNumericOperand
    [Str "expected left operand of element-wise operation to be a ";
     Str "numeric tensor but got an operand of type "] lhsType lhs in
  let* _ := checkNumericOperand
    [Str "expected right operand of element-wise operation to be a ";
     Str "numeric tensor but got an operand of type "] rhsType rhs in
  match lhsType, rhsType with
  | Some lt, Some rt =>
      match numericTensor lt, numericTensor rt with
      | Some (lc, ld, lcol), Some (rc, rd, rcol) =>
          let hasScalarOperand :=
            (length ld =? 0)%nat || (length rd =? 0)%nat in
          let* incompatible :=
            if hasScalarOperand then ret (negb (ir.ScalarType_eqb lc rc))
            else
              let* same := compareTypes (ir.TensorType lc ld lcol)
                                        (ir.TensorType rc rd rcol) in
              ret (negb same) in
          if incompatible then
            let* _ := reportError
              [Str "cannot perform element-wise operation on tensors of type ";
               Tys lt; Str " and type "; Tys rt] (AtExpr expr) in
            ret None
          else ret (if (0 <? length ld)%nat then lhsType else rhsType)
      | _, _ => ret None
      end
  | _, _ => ret None
  end.

(** The operand test of the boolean operations:
    [size() != 1 || !isBoolean(at(0))]. *)
Definition singleBoolean (t : ExprType) : bool :=
  match t with [b] => ir.isBoolean b | _ => false end.

Definition boolType : option ExprType := Some [ir.scalar ir.Boolean].

(** [typeCheckBinaryBoolean] after the two calls of [inferType]. *)
Definition checkBinaryBoolean (lhs rhs : Expr)
    (lhsType rhsType : option ExprType) : M (option ExprType) :=
  let* _ :=
    match lhsType with
    | Some t =>
        when (negb (singleBoolean t))
          (reportError
             [Str "expected left operand of boolean operation to be a boolean ";
              Str "but got an operand of type "; Tys t] (AtExpr lhs))
    | None => ret tt
    end in
  let* _ :=
    match rhsType with
    | Some t =>
        when (negb (singleBoolean t))
          (reportError
             [Str "expected right operand of boolean operation to be a boolean ";
              Str "but got an operand of type "; Tys t] (AtExpr rhs))
    | None => ret tt
    end in
  ret boolType.

(** [visit(NotExpr)] after the call of [inferType]. *)
Definition checkNot (operand : Expr) (opndType : option ExprType)
    : M (option ExprType) :=
  let* _ :=
    match opndType with
    | Some t =>
        when (negb (singleBoolean t))
          (reportError
             [Str "expected a boolean operand but got an operand of type ";
              Tys t] (AtExpr operand))
    | None => ret tt
    end in
  ret boolType.

(** The body of the loop of [visit(EqExpr)] for one operand, after its type
    is inferred; it returns the new [repType].  [repType] is only ever
    assigned an operand type that passed the test [size() == 1], so it is
    kept as that one type, [repType->at(0)]. *)
Definition checkEqOperand (operand : Expr) (opndType : option ExprType)
    (repType : option ir.Type_) : M (option ir.Type_) :=
  match opndType with
  | None => ret repType
  | Some t =>
      match t with
      | [ty] =>
          if negb (ir.isScalar ty) then
            let* _ := reportError
              [Str "comparison operations can only be performed on scalar ";
               Str "values, not values of type "; Tys t] (AtExpr operand) in
            ret repType
          else
            match repType with
            | None => ret (Some ty)
            | Some rep =>
                let* same := compareTypes rep ty in
                let* _ := when (negb same)
                  (reportError
                     [Str "value of type "; Tys t; Str " cannot be ";
                      Str "compared to value of type "; Tys [rep]]
                     (AtExpr operand)) in
                ret repType
            end
      | _ =>
          let* _ := reportError
            [Str "comparison operations can only be performed on scalar ";
             Str "values, not values of type "; Tys t] (AtExpr operand) in
          ret repType
      end
  end.

(** [visit(NegExpr)] after the call of [inferType]. *)
Definition checkNeg (operand : Expr) (opndType : option ExprType)
    : M (option ExprType) :=
  match opndType with
  | None => ret None
  | Some t =>
      match numericTensor t with
      | None =>
          let* _ := reportError
            [Str "expected operand of tensor negation to be a numeric tensor but ";
             Str "got an operand of type "; Tys t] (AtExpr operand) in
          ret None
      | Some _ => ret opndType
      end
  end.

(** [visit(TransposeExpr)] after the call of [inferType]. *)
Definition checkTranspose (operand : Expr) (opndType : option ExprType)
    : M (option ExprType) :=
  match opndType with
  | None => ret None
  | Some t =>
      let reject :=
        let* _ := reportError
          [Str "operand of tensor transpose must be a tensor of order 2 or ";
           Str "less, but got an operand of type "; Tys t] (AtExpr operand) in
        ret None in
      match t with
      | [ir.TensorType componentType dimensions isColumnVector] =>
          match dimensions with
          | [] => ret opndType
          | [_] =>
              ret (Some [ir.TensorType componentType dimensions
                           (negb isColumnVector)])
          | [d0; d1] => ret (Some [ir.TensorType componentType [d1; d0] false])
          | _ => reject
          end
      | _ => reject
      end
  end.

(** [visit(VarExpr)].  [checkWritable] tells whether this node is the one
    [markCheckWritable] recorded, [skipCheckDeclared] is the member flag. *)
Definition visitVarExpr (checkWritable skipCheckDeclared : bool) (expr : Expr)
    (ident : string) : M (option ExprType) :=
  let* c := getCtx in
  match internal.getSymbol c ident with
  | None =>
      let* _ := when (negb skipCheckDeclared)
        (reportUndeclared "variable or constant" ident (AtExpr expr)) in
      ret None
  | Some varSym =>
      let* _ :=
        if checkWritable && negb (internal.isWritable varSym) then
          reportError [Str "'"; Str ident; Str "' is not writable"] (AtExpr expr)
        else if negb checkWritable && negb (internal.isReadable varSym) then
          reportError [Str "'"; Str ident; Str "' is not readable"] (AtExpr expr)
        else ret tt in
      let varType := exprType (internal.getExpr varSym) in
      if negb (ir.defined varType) then ret None
      else ret (Some [varType])
  end.

(** The body of the loop over the partial actuals of [visit(MapExpr)] for
    one argument, after its type is inferred; it returns [actualsType[i]]. *)
Definition checkPartialActual (param : Expr) (paramType : option ExprType)
    : M ir.Type_ :=
  match paramType with
  | None => ret ir.Undefined
  | Some [] =>
      let* _ := reportError [Str "must pass a non-void value as argument"]
                  (AtExpr param) in
      ret ir.Undefined
  | Some [t] => ret t
  | Some ts =>
      let* _ := reportError
        [Str "cannot pass multiple values of types "; Tys ts;
         Str " as a single argument"] (AtExpr param) in
      ret ir.Undefined
  end.

(** Lines 511 to 524 of [visit(MapExpr)]: the argument types the assembly
    function is required to have. *)
Definition inferActuals (elementType : ir.Type_) (endpointSets : list ir.Expr)
    (funcArgs : list ir.Var) (actualsType : list ir.Type_)
    : M (list ir.Type_) :=
  let actualsType := actualsType ++ [elementType] in
  match endpointSets with
  | neighborSet :: _ =>
      if negb (length actualsType =? length funcArgs)%nat then
        let* '(neighborElementType, _) := toSet (exprType neighborSet) in
        let neighborsType :=
          ir.TupleType neighborElementType (Z.of_nat (length endpointSets)) in
        ret (actualsType ++ [neighborsType])
      else ret actualsType
  | [] => ret actualsType
  end.

(** The last loop of [visit(MapExpr)]; [partialActuals] holds the nodes of
    the partial actuals from position [i] on. *)
Fixpoint checkMapActuals (funcName target : string)
    (partialActuals : list Expr) (actualsType : list ir.Type_)
    (funcArgs : list ir.Var) : M unit :=
  match actualsType, funcArgs with
  | actual :: actuals', funcArg :: funcArgs' =>
      let* _ :=
        if negb (ir.defined actual) || negb (ir.defined (ir.getType funcArg))
        then ret tt
        else
          let* same := compareTypes actual (ir.getType funcArg) in
          when (negb same)
            (reportError
               [Str "map operation passes argument of type "; Ty actual;
                Str " to assembly function but "; Str "function '";
                Str funcName; Str "' expects argument of "; Str "type ";
                Ty (ir.getType funcArg)]
               match partialActuals with
               | p :: _ => AtExpr p
               | [] => AtIdentifier target
               end) in
      checkMapActuals funcName target (tail partialActuals) actuals' funcArgs'
  | _, _ => ret tt
  end.

(** [visit(MapExpr)] after the loop over the partial actuals. *)
Definition checkMap (expr : Expr) (funcName targetName : string)
    (partialActuals : list Expr) (actualsType : list ir.Type_)
    : M (option ExprType) :=
  let* c := getCtx in
  let* func :=
    match internal.getFunction c funcName with
    | None =>
        let* _ := reportUndeclared "function" funcName
                    (AtIdentifier funcName) in
        ret None
    | Some f => ret (Some f)
    end in
  let retType := (fun f => ir.getType <$> ir.getResults f) <$> func in
  let* target :=
    match internal.getSymbol c targetName with
    | None =>
        let* _ := reportUndeclared "set" targetName
                    (AtIdentifier targetName) in
        ret None
    | Some sym =>
        if negb (ir.isSet (exprType (internal.getExpr sym))) then
          let* _ := reportError
            [Str "map operation can only be applied to sets"]
            (AtIdentifier targetName) in
          ret None
        else ret (Some (internal.getExpr sym))
    end in
  match func, target with
  | Some f, Some tgt =>
      let* '(elementType, endpointSets) := toSet (exprType tgt) in
      let funcArgs := ir.getArguments f in
      let* actualsType :=
        inferActuals elementType endpointSets funcArgs actualsType in
      if negb (length actualsType =? length funcArgs)%nat then
        let* _ := reportError
          [Str "map operation passes "; Num (Z.of_nat (length actualsType));
           Str " arguments "; Str "to assembly function but function '";
           Str (ir.funcName f); Str "' expects ";
           Num (Z.of_nat (length funcArgs)); Str " arguments"] (AtExpr expr) in
        ret retType
      else
        let* _ := checkMapActuals (ir.funcName f) targetName partialActuals
                    actualsType funcArgs in
        ret retType
  | _, _ => ret retType
  end.

(** The second loop of [visit(CallExpr)]; an argument whose type was
    inferred comes with its node. *)
Fixpoint checkCallArguments (argTypes : list (option (Expr * ExprType)))
    (funcArgs : list ir.Var) : M unit :=
  match argTypes, funcArgs with
  | argType :: argTypes', funcArg :: funcArgs' =>
      let* _ :=
        match argType with
        | None => ret tt
        | Some (argument, []) =>
            reportError [Str "must pass a non-void value as argument"]
              (AtExpr argument)
        | Some (argument, [t]) =>
            let* same := compareTypes t (ir.getType funcArg) in
            when (negb same)
              (reportError
                 [Str "expected argument of type "; Ty (ir.getType funcArg);
                  Str " but got an argument "; Str "of type "; Tys [t]]
                 (AtExpr argument))
        | Some (argument, ts) =>
            reportError
              [Str "cannot pass multiple values of types "; Tys ts;
               Str " as a single argument"] (AtExpr argument)
        end in
      checkCallArguments argTypes' funcArgs'
  | _, _ => ret tt
  end.

(** [visit(CallExpr)] after the types of the arguments are inferred. *)
Definition checkCall (expr : Expr) (func : ir.Func)
    (argTypes : list (option (Expr * ExprType))) : M (option ExprType) :=
  let funcArgs := ir.getArguments func in
  let* _ :=
    if negb (length argTypes =? length funcArgs)%nat then
      match ir.getKind func, funcArgs with
      | ir.Intrinsic, [] => ret tt
      | _, _ =>
          reportError
            [Str "passed in "; Num (Z.of_nat (length argTypes));
             Str " arguments "; Str "but function '"; Str (ir.funcName func);
             Str "' expects "; Num (Z.of_nat (length funcArgs))] (AtExpr expr)
      end
    else checkCallArguments argTypes funcArgs in
  ret (Some (ir.getType <$> ir.getResults func)).

(** [ElementType::hasField] and [ElementType::field]. *)
Fixpoint lookupField (fields : list ir.Field) (fieldName : string)
    : option ir.Type_ :=
  match fields with
  | [] => None
  | ir.mkField n t :: rest =>
      if String.eqb n fieldName then Some t else lookupField rest fieldName
  end.

(** Modelled from the spec: [ir::getFieldType] is not part of the sources.
    The field of a set is a column vector over the set whose blocks have
    the declared type of the field. *)
Definition getFieldType (setExpr : ir.Expr) (fieldName : string) : M ir.Type_ :=
  let* '(elementType, _) := toSet (exprType setExpr) in
  match elementType with
  | ir.ElementType _ fields =>
      match lookupField fields fieldName with
      | Some fieldType =>
          let* '(componentType, dimensions, _) := toTensor fieldType in
          ret (ir.TensorType componentType
                 match dimensions with
                 | [] => [[ir.Set_ setExpr]]
                 | _ => cons (ir.Set_ setExpr) <$> dimensions
                 end true)
      | None => abort AssertionFailed
      end
  | _ => abort AssertionFailed
  end.

(** [visit(FieldReadExpr)] after the call of [inferType]. *)
Definition checkFieldRead (expr setOrElem : Expr) (fieldName : string)
    (lhsType : option ExprType) : M (option ExprType) :=
  match lhsType with
  | None => ret None
  | Some [type] =>
      let* elemType :=
        match type with
        | ir.ElementType _ fields => ret (Some fields)
        | ir.SetType (ir.ElementType _ fields) _ => ret (Some fields)
        | ir.SetType _ _ => abort AssertionFailed
        | _ => ret None
        end in
      match elemType with
      | None =>
          let* _ := reportError
            [Str "field accesses are only valid for sets and elements"]
            (AtExpr setOrElem) in
          ret None
      | Some fields =>
          match lookupField fields fieldName with
          | None =>
              let* _ := reportError
                [Str "undefined field '"; Str fieldName; Str "'"]
                (AtIdentifier fieldName) in
              ret None
          | Some elemFieldType =>
              if ir.isElement type then ret (Some [elemFieldType])
              else
                match setOrElem with
                | VarExpr varName =>
                    let* c := getCtx in
                    match internal.getSymbol c varName with
                    | None => abort UndefinedBehaviour
                    | Some sym =>
                        let* fieldType :=
                          getFieldType (internal.getExpr sym) fieldName in
                        let* '(_, dimensions, _) := toTensor fieldType in
                        if (1 <? length dimensions)%nat then
                          let* _ := reportError
                            [Str "cannot read from non-scalar and non-vector set fields"]
                            (AtExpr expr) in
                          ret None
                        else ret (Some [fieldType])
                    end
                | _ => abort AssertionFailed
                end
          end
      end
  | Some _ =>
      let* _ := reportError
        [Str "can only access fields of a single set or element"]
        (AtExpr setOrElem) in
      ret None
  end.

(** The test of one index of a tensor read, after its type is inferred:
    lines 993 to 1039 of [visit(TensorReadExpr)]. *)
Definition checkIndex (index : ReadParam) (indexType : option ExprType)
    (outerDim : option ir.IndexSet) : M unit :=
  match indexType with
  | None => ret tt
  | Some [] =>
      reportError [Str "must pass a non-void value as index"]
        (AtReadParam index)
  | Some [t] =>
      match outerDim with
      | None => abort UndefinedBehaviour
      | Some (ir.Range _) =>
          when (negb (ir.isInt t))
            (reportError
               [Str "expected an integral index but got an index of type ";
                Tys [t]] (AtReadParam index))
      | Some (ir.Set_ set) =>
          let* '(elementType, _) := toSet (exprType set) in
          if ir.isInt t then ret tt
          else
            let* same := compareTypes elementType t in
            when (negb same)
              (reportError
                 [Str "expected an integral index or an index of type ";
                  Ty elementType; Str " but got an ";
                  Str "index of type "; Tys [t]] (AtReadParam index))
      | Some ir.Dynamic => ret tt
      end
  | Some ts =>
      reportError
        [Str "cannot pass multiple values of types "; Tys ts;
         Str " as a single index"] (AtReadParam index)
  end.

Definition isSlice (p : ReadParam) : bool :=
  match p with Slice => true | ExprParam _ => false end.

(** Lines 1042 to 1051 of [visit(TensorReadExpr)]: the type of the read,
    given the dimensions [dims] collected from the sliced axes. *)
Definition tensorReadType (componentType : ir.ScalarType)
    (dimensions : list ir.IndexDomain) (isColumnVector : bool)
    (indices : list ReadParam) (dims : list ir.IndexDomain) : ExprType :=
  match dims with
  | [] => [ir.getBlockType componentType dimensions isColumnVector]
  | _ =>
      let isColumnVector :=
        (length dims =? 1)%nat &&
        negb (from_option isSlice false (last indices)) in
      [ir.TensorType componentType dims isColumnVector]
  end.

(** The test of the index of a tuple read, after its type is inferred; a
    null [indexType] is dereferenced. *)
Definition checkTupleIndex (index : ReadParam) (indexType : option ExprType)
    : M unit :=
  match indexType with
  | None => abort UndefinedBehaviour
  | Some [t] =>
      when (negb (ir.isInt t))
        (reportError
           [Str "tuple access expects an integral index but got an index ";
            Str "of type "; Tys [t]] (AtReadParam index))
  | Some ts =>
      reportError
        [Str "tuple access expects an integral index but got an index ";
         Str "of type "; Tys ts] (AtReadParam index)
  end.

(** *** Expressions: [inferType]

    The four loops of the expression visits that call [inferType] on the
    children, over the function [infer] that infers the type of a child. *)

(** The first loop of [visit(MapExpr)]; it returns [actualsType]. *)
Definition inferPartialActuals (infer : Expr -> M (option ExprType))
    : list Expr -> M (list ir.Type_) :=
  fix actuals (params : list Expr) {struct params} : M (list ir.Type_) :=
    match params with
    | [] => ret []
    | param :: rest =>
        let* paramType := infer param in
        let* actual := checkPartialActual param paramType in
        let* others := actuals rest in
        ret (actual :: others)
    end.

(** The loop of [visit(EqExpr)]. *)
Definition compareOperands (infer : Expr -> M (option ExprType))
    : list Expr -> option ir.Type_ -> M unit :=
  fix compare (opnds : list Expr) (repType : option ir.Type_)
      {struct opnds} : M unit :=
    match opnds with
    | [] => ret tt
    | operand :: rest =>
        let* opndType := infer operand in
        let* repType' := checkEqOperand operand opndType repType in
        compare rest repType'
    end.

(** The first loop of [visit(CallExpr)]; a null argument has no type. *)
Definition inferArguments (infer : Expr -> M (option ExprType))
    : list (option Expr) -> M (list (option (Expr * ExprType))) :=
  fix args (arguments : list (option Expr)) {struct arguments}
      : M (list (option (Expr * ExprType))) :=
    match arguments with
    | [] => ret []
    | argument :: rest =>
        let* argType :=
          match argument with
          | None => ret None
          | Some a =>
              let* t := infer a in
              ret (pair a <$> t)
          end in
        let* others := args rest in
        ret (argType :: others)
    end.

(** The loop over the indices of [visit(TensorReadExpr)], from index [i]
    on; it returns [dims]. *)
Definition readIndices (infer : Expr -> M (option ExprType))
    (dimensions : list ir.IndexDomain) (outerDims : list ir.IndexSet)
    : list ReadParam -> nat -> list ir.IndexDomain -> M (list ir.IndexDomain) :=
  fix read (params : list ReadParam) (i : nat) (dims : list ir.IndexDomain)
      {struct params} : M (list ir.IndexDomain) :=
    match params with
    | [] => ret dims
    | index :: rest =>
        match index with
        | Slice =>
            match dimensions !! i with
            | Some d => read rest (S i) (dims ++ [d])
            | None => abort UndefinedBehaviour
            end
        | ExprParam indexExpr =>
            let* indexType := infer indexExpr in
            let* _ := checkIndex index indexType (outerDims !! i) in
            read rest (S i) dims
        end
    end.

(** The index of a tuple read: lines 1054 to 1071. *)
Definition readTupleIndex (infer : Expr -> M (option ExprType)) (expr : Expr)
    (indices : list ReadParam) : M unit :=
  match indices with
  | [index] =>
      match index with
      | Slice =>
          reportError [Str "tuple access expects an integral index"]
            (AtReadParam index)
      | ExprParam indexExpr =>
          let* indexType := infer indexExpr in
          checkTupleIndex index indexType
      end
  | _ =>
      reportError
        [Str "tuple access expects exactly one index but got ";
         Num (Z.of_nat (length indices))] (AtExpr expr)
  end.

(** [inferType checkWritable skipCheckDeclared e] visits [e] with a cleared
    [retType] and returns what the visit leaves there.  [checkWritable]
    holds the one node that [markCheckWritable] reached from the target of
    an assignment, through the tensors of tensor reads and the operands of
    field reads; the flag follows that chain and is off for every other
    operand. *)
Fixpoint inferType (checkWritable skipCheckDeclared : bool) (e : Expr)
    {struct e} : M (option ExprType) :=
  let infer := inferType false skipCheckDeclared in
  match e with
  | MapExpr func partialActuals target =>
      let* actualsType := inferPartialActuals infer partialActuals in
      checkMap e func target partialActuals actualsType
  | OrExpr lhs rhs | AndExpr lhs rhs | XorExpr lhs rhs =>
      let* lhsType := infer lhs in
      let* rhsType := infer rhs in
      checkBinaryBoolean lhs rhs lhsType rhsType
  | EqExpr operands =>
      let* _ := compareOperands infer operands None in
      ret boolType
  | NotExpr operand =>
      let* opndType := infer operand in
      checkNot operand opndType
  | AddExpr lhs rhs | SubExpr lhs rhs
  | ElwiseMulExpr lhs rhs | ElwiseDivExpr lhs rhs =>
      let* lhsType := infer lhs in
      let* rhsType := infer rhs in
      checkBinaryElwise e lhs rhs lhsType rhsType
  | MulExpr lhs rhs =>
      let* lhsType := infer lhs in
      let* rhsType := infer rhs in
      checkMul e lhs rhs lhsType rhsType
  | DivExpr lhs rhs =>
      let* lhsType := infer lhs in
      let* rhsType := infer rhs in
      checkDiv e lhs rhs lhsType rhsType
  | NegExpr operand =>
      let* opndType := infer operand in
      checkNeg operand opndType
  | ExpExpr _ _ => abort NotSupportedYet
  | TransposeExpr operand =>
      let* opndType := infer operand in
      checkTranspose operand opndType
  | CallExpr func arguments =>
      let* c := getCtx in
      match internal.getFunction c func with
      | None => abort AssertionFailed
      | Some f =>
          let* argTypes := inferArguments infer arguments in
          checkCall e f argTypes
      end
  | TensorReadExpr tensor indices =>
      let* lhsType := inferType checkWritable skipCheckDeclared tensor in
      match lhsType with
      | None => ret None
      | Some [ir.TensorType componentType dimensions isColumnVector] =>
          if negb (length dimensions =? length indices)%nat then
            let* _ := reportError
              [Str "tensor access expected ";
               Num (Z.of_nat (length dimensions)); Str " indices but got ";
               Num (Z.of_nat (length indices))] (AtExpr e) in
            ret None
          else
            let outerDims := ir.getOuterDimensions dimensions in
            let* dims :=
              readIndices infer dimensions outerDims indices 0%nat [] in
            ret (Some (tensorReadType componentType dimensions isColumnVector
                         indices dims))
      | Some [ir.TupleType elementType _] =>
          let* _ := readTupleIndex infer e indices in
          ret (Some [elementType])
      | Some [t] =>
          let* _ := reportError
            [Str "cannot access elements from objects of type "; Tys [t]]
            (AtExpr tensor) in
          ret None
      | Some _ =>
          let* _ := reportError
            [Str "can only access elements of a single tensor or tuple"]
            (AtExpr tensor) in
          ret None
      end
  | TupleReadExpr _ _ => abort Unreachable
  | FieldReadExpr setOrElem field =>
      let* lhsType := inferType checkWritable skipCheckDeclared setOrElem in
      checkFieldRead e setOrElem field lhsType
  | VarExpr ident => visitVarExpr checkWritable skipCheckDeclared e ident
  | IntLiteral _ => ret (Some [ir.scalar ir.Int])
  | FloatLiteral _ => ret (Some [ir.scalar ir.Float])
  | BoolLiteral _ => ret (Some [ir.scalar ir.Boolean])
  | TensorLiteral lit => typeCheckDenseTensorLiteral lit
  end.

(** *** Statements *)

(** The condition test shared by [visit(WhileStmt)] and [visit(IfStmt)]. *)
Definition checkCondition (cond : Expr) (condType : option ExprType) : M unit :=
  match condType with
  | Some t =>
      when (negb (singleBoolean t))
        (reportError
           [Str "expected a boolean conditional expression but got an ";
            Str "expression of type "; Tys t] (AtExpr cond))
  | None => ret tt
  end.

Definition singleInt (t : ExprType) : bool :=
  match t with [i] => ir.isInt i | _ => false end.

(** [visit(RangeDomain)]. *)
Definition visitRangeDomain (lower upper : Expr) : M unit :=
  let* lowerType := inferType false false lower in
  let* upperType := inferType false false upper in
  let* _ :=
    match lowerType with
    | Some t =>
        when (negb (singleInt t))
          (reportError
             [Str "expected lower bound of for-loop range to be integral but got ";
              Str "an expression of type "; Tys t] (AtExpr lower))
    | None => ret tt
    end in
  match upperType with
  | Some t =>
      when (negb (singleInt t))
        (reportError
           [Str "expected upper bound of for-loop range to be integral but got ";
            Str "an expression of type "; Tys t] (AtExpr upper))
  | None => ret tt
  end.

(** [visit(PrintStmt)]. *)
Definition visitPrintStmt (expr : Expr) : M unit :=
  let* exprType := inferType false false expr in
  match exprType with
  | Some [t] =>
      when (negb (ir.isTensor t))
        (reportError [Str "cannot print an expression of type "; Tys [t]]
           (AtExpr expr))
  | Some ts =>
      reportError [Str "cannot print an expression of type "; Tys ts]
        (AtExpr expr)
  | None => ret tt
  end.

Definition isVarExpr (e : Expr) : bool :=
  match e with VarExpr _ => true | _ => false end.

(** [markCheckWritable]: the variable at the root of the target of an
    assignment, reached through the tensors of tensor reads and the
    operands of field reads; it is the node [checkWritable] is set to. *)
Fixpoint markCheckWritable (node : Expr) : option string :=
  match node with
  | VarExpr ident => Some ident
  | TensorReadExpr tensor _ => markCheckWritable tensor
  | FieldReadExpr setOrElem _ => markCheckWritable setOrElem
  | _ => None
  end.

(** The first loop of [visit(AssignStmt)]: the types of the targets. *)
Fixpoint inferTargets (lhs : list Expr) : M (list ir.Type_) :=
  match lhs with
  | [] => ret []
  | target :: rest =>
      let* ltype := inferType true (isVarExpr target) target in
      let lhsType :=
        match ltype with
        | Some [t] => t
        | _ => ir.Undefined
        end in
      let* others := inferTargets rest in
      ret (lhsType :: others)
  end.

(** The exception that lets a tensor be initialized with a scalar; the test
    of lines 429 to 431 is its negation. *)
Definition scalarInitializesTensor (lhsType rhsType : ir.Type_) : bool :=
  match lhsType, rhsType with
  | ir.TensorType lc _ _, ir.TensorType rc [] _ => ir.ScalarType_eqb lc rc
  | _, _ => false
  end.

(** The loop of lines 424 to 440; it returns [typeChecked]. *)
Fixpoint checkTargets (lhs : list Expr) (lhsType exprType : list ir.Type_)
    (typeChecked : bool) : M bool :=
  match lhs, lhsType, exprType with
  | target :: lhs', ltype :: lhsType', rtype :: exprType' =>
      let* mismatch :=
        if ir.defined ltype then
          let* same := compareTypes ltype rtype in
          ret (negb same)
        else ret false in
      if mismatch && negb (scalarInitializesTensor ltype rtype) then
        let* _ := reportError
          [Str "cannot assign a value of type "; Ty rtype;
           Str " to a target of type "; Ty ltype] (AtExpr target) in
        checkTargets lhs' lhsType' exprType' false
      else checkTargets lhs' lhsType' exprType' typeChecked
  | _, _, _ => ret typeChecked
  end.

(** The last loop of [visit(AssignStmt)]: targets that are undeclared
    variables are declared; [exprType] holds the types from position [i]
    on, so that [exprType->at(i)] is its head, and is [None] when
    [typeChecked] is false. *)
Fixpoint declareTargets (lhs : list Expr) (exprType : option (list ir.Type_))
    : M unit :=
  match lhs with
  | [] => ret tt
  | target :: rest =>
      let* _ :=
        match target with
        | VarExpr varName =>
            let* c := getCtx in
            if negb (internal.hasSymbol c varName false) then
              let* varType :=
                match exprType with
                | Some (t :: _) => ret t
                | Some [] => throw OutOfRange
                | None => ret ir.Undefined
                end in
              modifyCtx (fun c =>
                internal.addSymbol c varName (ir.mkVar varName varType)
                  internal.ReadWrite)
            else ret tt
        | _ => ret tt
        end in
      declareTargets rest (tail <$> exprType)
  end.

(** [visit(AssignStmt)]. *)
Definition visitAssignStmt (stmt : Stmt) (lhs : list Expr) (expr : Expr)
    : M unit :=
  let* exprType := inferType false false expr in
  let* lhsType := inferTargets lhs in
  let* typeChecked :=
    match exprType with
    | Some ts =>
        if negb (length lhs =? length ts)%nat then
          let* _ := reportError
            [Str "cannot assign an expression returning ";
             Num (Z.of_nat (length ts)); Str " values to ";
             Num (Z.of_nat (length lhs)); Str " targets"] (AtStmt stmt) in
          ret false
        else checkTargets lhs lhsType ts true
    | None => ret false
    end in
  declareTargets lhs (if typeChecked then exprType else None).

(** The skip over the leading dimensions equal to [ir::IndexSet(1)]. *)
Fixpoint skipUnitDimensions (dims : list ir.IndexSet) : list ir.IndexSet :=
  match dims with
  | d :: rest =>
      if ir.IndexSet_eqb d (ir.Range 1) then skipUnitDimensions rest else dims
  | [] => []
  end.

(** [std::equal(first1, last1, first2)]: the second range is read for as
    long as the first one lasts, without a test for its end. *)
Fixpoint stdEqual (range1 range2 : list ir.IndexSet) : M bool :=
  match range1 with
  | [] => ret true
  | x :: range1' =>
      match range2 with
      | [] => abort UndefinedBehaviour
      | y :: range2' =>
          if ir.IndexSet_eqb x y then stdEqual range1' range2' else ret false
      end
  end.

(** Lines 1277 to 1330 of [typeCheckVarOrConstDecl]: the initial value
    against the declared type, which is defined. *)
Definition checkInitialValue (decl : Stmt) (isConst : bool) (varType : ir.Type_)
    (initType : option ExprType) : M unit :=
  match initType with
  | None => ret tt
  | Some init =>
      let* same :=
        match init with
        | [t] => compareTypes varType t
        | _ => ret false
        end in
      if same then ret tt else
      let errMsg :=
        [Str "cannot initialize a variable or constant of type "; Ty varType;
         Str " with an expression of type "; Tys init] in
      let* _ := iassert (ir.isTensor varType) in
      match init with
      | [initIRType] =>
          if negb (ir.isTensor initIRType) then reportError errMsg (AtStmt decl)
          else
            let* '(varComponent, varDimensions, varColumn) :=
              toTensor varType in
            let* '(initComponent, initDimensions, initColumn) :=
              toTensor initIRType in
            if ir.isScalar initIRType
               && ir.ScalarType_eqb varComponent initComponent
            then ret tt
            else
              let varBlockType :=
                ir.getBlockType varComponent varDimensions varColumn in
              let initBlockType :=
                ir.getBlockType initComponent initDimensions initColumn in
              let* equivalent :=
                if isConst then
                  let* sameBlock := compareTypes varBlockType initBlockType in
                  if sameBlock then
                    let varDims := ir.getOuterDimensions varDimensions in
                    let initDims := ir.getOuterDimensions initDimensions in
                    stdEqual (skipUnitDimensions varDims)
                             (skipUnitDimensions initDims)
                  else ret false
                else ret false in
              if equivalent then ret tt else reportError errMsg (AtStmt decl)
      | _ => reportError errMsg (AtStmt decl)
      end
  end.

(** The test of lines 1262 and 1263: the name is bound in the current scope
    to a symbol whose type is defined. *)
Definition declaredInScope (c : internal.ProgramContext) (name : string)
    : bool :=
  internal.hasSymbol c name true
  && from_option (fun sym => ir.defined (exprType (internal.getExpr sym)))
       false (internal.getSymbol c name).

(** [typeCheckVarOrConstDecl]. *)
Definition typeCheckVarOrConstDecl (decl : Stmt) (var : IdentDecl)
    (initVal : option Expr) (isConst : bool) : M unit :=
  let* var := getVar var in
  let varType := ir.getType var in
  let* initType :=
    match initVal with
    | Some e => inferType false false e
    | None => ret None
    end in
  let* c := getCtx in
  if declaredInScope c (ir.getName var)
  then reportMultipleDefs "variable or constant" (ir.getName var) (AtStmt decl)
  else
    let access := if isConst then internal.Read else internal.ReadWrite in
    let* _ := modifyCtx (fun c =>
      internal.addSymbol c (ir.getName var) var access) in
    if negb (ir.defined varType) then ret tt
    else checkInitialValue decl isConst varType initType.

Definition scope : M unit := modifyCtx internal.scope.
Definition unscope : M unit := modifyCtx internal.unscope.

(** Modelled from the spec: the traversal of a statement block by the
    visitor framework ([hir_visitor.cpp] is not part of the sources) visits
    the statements in order. *)
Definition visitStmts (visit : Stmt -> M unit) : list Stmt -> M unit :=
  fix block (stmts : list Stmt) {struct stmts} : M unit :=
    match stmts with
    | [] => ret tt
    | stmt :: rest =>
        let* _ := visit stmt in
        block rest
    end.

(** The visit of a statement. *)
Fixpoint visitStmt (s : Stmt) {struct s} : M unit :=
  let visitBlock := visitStmts visitStmt in
  match s with
  | VarDecl var initVal => typeCheckVarOrConstDecl s var initVal false
  | ConstDecl var initVal => typeCheckVarOrConstDecl s var initVal true
  | WhileStmt cond body =>
      let* condType := inferType false false cond in
      let* _ := scope in
      let* _ := visitBlock body in
      let* _ := unscope in
      checkCondition cond condType
  | IfStmt cond ifBody elseBody =>
      let* condType := inferType false false cond in
      let* _ := scope in
      let* _ := visitBlock ifBody in
      let* _ := unscope in
      let* _ :=
        match elseBody with
        | Some body =>
            let* _ := scope in
            let* _ := visitBlock body in
            unscope
        | None => ret tt
        end in
      checkCondition cond condType
  | ForStmt loopVar lower upper body =>
      let* _ := scope in
      let* _ := visitRangeDomain lower upper in
      let* _ := modifyCtx (fun c =>
        internal.addSymbol c loopVar (ir.mkVar loopVar (ir.scalar ir.Int))
          internal.Read) in
      let* _ := visitBlock body in
      unscope
  | PrintStmt expr => visitPrintStmt expr
  | AssignStmt lhs expr => visitAssignStmt s lhs expr
  end.

Definition visitStmtBlock : list Stmt -> M unit := visitStmts visitStmt.

(** *** Declarations *)

(** The loop over the fields in [visit(ElementTypeDecl)]. *)
Fixpoint visitFields (fs : list IdentDecl) : M (list ir.Field) :=
  match fs with
  | [] => ret []
  | f :: rest =>
      let* field := getField f in
      let* others := visitFields rest in
      match field with
      | ir.mkField _ t =>
          if negb (ir.defined t) then ret others else ret (field :: others)
      end
  end.

(** The loop over the arguments in [visit(FuncDecl)]; it returns what it
    leaves in [typeChecked] and in [arguments]. *)
Fixpoint visitArguments (args : list Argument) (typeChecked : bool)
    : M (bool * list ir.Var) :=
  match args with
  | [] => ret (typeChecked, [])
  | a :: rest =>
      let* argVar := getVar (arg a) in
      if negb (ir.defined (ir.getType argVar)) then
        visitArguments rest false
      else
        let access :=
          if inout a then internal.ReadWrite else internal.Read in
        let* _ := modifyCtx (fun c =>
          internal.addSymbol c (ir.getName argVar) argVar access) in
        let* '(typeChecked', arguments) := visitArguments rest typeChecked in
        ret (typeChecked', argVar :: arguments)
  end.

(** The loop over the results in [visit(FuncDecl)]. *)
Fixpoint visitResults (results : list IdentDecl) (typeChecked : bool)
    : M (bool * list ir.Var) :=
  match results with
  | [] => ret (typeChecked, [])
  | res :: rest =>
      let* result := getVar res in
      if negb (ir.defined (ir.getType result)) then
        visitResults rest false
      else
        let* _ := modifyCtx (fun c =>
          internal.addSymbol c (ir.getName result) result
            internal.ReadWrite) in
        let* '(typeChecked', others) := visitResults rest typeChecked in
        ret (typeChecked', result :: others)
  end.

(** [visit(ElementTypeDecl)], [visit(ExternDecl)] and [visit(FuncDecl)]. *)
Definition visitDecl (decl : Decl) : M unit :=
  match decl with
  | ElementTypeDecl name fields =>
      let* fields := visitFields fields in
      let* c := getCtx in
      if internal.containsElementType c name then
        reportMultipleDefs "element type" name (AtDecl decl)
      else
        modifyCtx (fun c =>
          internal.addElementType c name (ir.ElementType name fields))
  | ExternDecl var =>
      let* externVar := getVar var in
      let* c := getCtx in
      if internal.hasSymbol c (ir.getName externVar) false then
        reportMultipleDefs "variable or constant" (ir.getName externVar)
          (AtDecl decl)
      else
        modifyCtx (fun c =>
          internal.addSymbol c (ir.getName externVar) externVar
            internal.ReadWrite)
  | FuncDecl name args results body =>
      let* _ := scope in
      let* '(typeChecked, arguments) := visitArguments args true in
      let* '(typeChecked, results) := visitResults results typeChecked in
      let* _ := visitStmtBlock body in
      let* _ := unscope in
      if negb typeChecked then ret tt
      else
        let* c := getCtx in
        if internal.containsFunction c name then
          reportMultipleDefs "function or procedure" name (AtDecl decl)
        else
          modifyCtx (fun c =>
            internal.addFunction c
              (ir.mkFunc name arguments results ir.Internal))
  end.

(** Modelled from the spec: the traversal of the program by the visitor
    framework visits the declarations in order. *)
Fixpoint visitProgram (program : Program) : M unit :=
  match program with
  | [] => ret tt
  | decl :: rest =>
      let* _ := visitDecl decl in
      visitProgram rest
  end.

(** The type checker run on a program from a given context: how the check
    ends, the context it leaves and the diagnostics it collected. *)
Definition typeCheck (program : Program) (c : internal.ProgramContext)
    : Outcome unit * State :=
  visitProgram program (mkState c []).

End hir.

Import hir.

(** * Properties of the checker *)

(** ** Vocabulary of the properties *)

(** [good R m]: the visit [m] lets no exception escape, and the state it ends
    in, however it ends, is related by [R] to the state it started in. *)
Definition good {A} (R : State -> State -> Prop) (m : M A) : Prop :=
  forall st, (forall e, (m st).1 <> Throw e) /\ R st (m st).2.

(** What the induction on an expression knows of the indices of a read. *)
Definition goodParam (R : State -> State -> Prop)
    (infer : Expr -> M (option ExprType)) (p : ReadParam) : Prop :=
  match p with
  | Slice => True
  | ExprParam e => good R (infer e)
  end.

(** The diagnostics are only ever appended to. *)
Definition accumulates (st st' : State) : Prop :=
  errors st `prefix_of` errors st'.

(** Inferring types and lowering type syntax leave the context alone. *)
Definition sameCtx (st st' : State) : Prop := ctx st' = ctx st.

(** [depthFn f m]: when the visit [m] returns, the depth of the symbol
    stack is [f] of what it was. *)
Definition depthFn {A} (f : nat -> nat) (m : M A) : Prop :=
  forall st a st', m st = (Done a, st') ->
    internal.depth (ctx st') = f (internal.depth (ctx st)).

(** [keeps m]: when the visit [m] returns, the symbol stack is as deep as it
    was. *)
Definition keeps {A} (m : M A) : Prop := depthFn (fun n => n) m.

(** [accepts m st a]: the visit returns [a] and reports nothing.
    [rejects m st]: it reports one error and publishes no type.
    [diagnoses m st]: it reports one error. *)
Definition accepts {A} (m : M A) (st : State) (a : A) : Prop :=
  m st = (Done a, st).

Definition rejects (m : M (option ExprType)) (st : State) : Prop :=
  exists d, m st = (Done None, mkState (ctx st) (errors st ++ [d])).

Definition diagnoses (m : M (option ExprType)) (st : State) : Prop :=
  exists r d, m st = (Done r, mkState (ctx st) (errors st ++ [d])).

(** The same three for the visit of a whole expression, which starts in
    [st] and whose operands leave the state [st']:
    [acceptsAfter m st st' a]: it returns [a] and adds nothing to [st'];
    [rejectsAfter m st st']: it adds one error to [st'] and publishes no
    type; [diagnosesAfter m st st']: it adds one error to [st']. *)
Definition acceptsAfter {A} (m : M A) (st st' : State) (a : A) : Prop :=
  m st = (Done a, st').

Definition rejectsAfter (m : M (option ExprType)) (st st' : State) : Prop :=
  exists d, m st = (Done None, mkState (ctx st') (errors st' ++ [d])).

Definition diagnosesAfter (m : M (option ExprType)) (st st' : State) : Prop :=
  exists r d, m st = (Done r, mkState (ctx st') (errors st' ++ [d])).

(** The two products whose operands have matching dimensions and the wrong
    orientation: a matrix times a row vector and a column vector times a
    matrix. *)
Definition wrongOrientation (lhsType rhsType : option ExprType) : Prop :=
  match lhsType, rhsType with
  | Some [ir.TensorType _ [_; l1] _], Some [ir.TensorType _ [r0] false] =>
      ir.IndexDomain_eqb l1 r0 = true
  | Some [ir.TensorType _ [l0] true], Some [ir.TensorType _ [r0; _] _] =>
      ir.IndexDomain_eqb l0 r0 = true
  | _, _ => False
  end.

(** [silentOrEmpty m st]: if the visit reports an error, it publishes no
    type. *)
Definition silentOrEmpty (m : M (option ExprType)) (st : State) : Prop :=
  errors (m st).2 <> errors st -> (m st).1 = Done None.

(** The axes of a tensor that a read indexes by a slice, in order. *)
Fixpoint slicedAxes (dimensions : list ir.IndexDomain)
    (indices : list ReadParam) : list ir.IndexDomain :=
  match dimensions, indices with
  | d :: dimensions', index :: indices' =>
      if isSlice index then d :: slicedAxes dimensions' indices'
      else slicedAxes dimensions' indices'
  | _, _ => []
  end.

Definition lastIsSlice (indices : list ReadParam) : bool :=
  match last indices with
  | Some Slice => true
  | _ => false
  end.

(** The type C5 gives to a read: the sliced axes, a column vector when one
    axis is left and the last index is not a slice, and the block type of
    the tensor when no axis is left. *)
Definition readType (c : ir.ScalarType) (dimensions : list ir.IndexDomain)
    (col : bool) (indices : list ReadParam) : ir.Type_ :=
  match slicedAxes dimensions indices with
  | [] => ir.getBlockType c dimensions col
  | dims =>
      ir.TensorType c dims
        ((length dims =? 1)%nat && negb (lastIsSlice indices))
  end.

(** The dimensions of a tensor type built by the checker: no domain is
    empty, and an outer dimension that is a set is a variable of set
    type. *)
Definition wellFormedDimensions (dimensions : list ir.IndexDomain) : Prop :=
  Forall (fun d =>
            match d with
            | ir.Set_ set :: _ => ir.isSet (exprType set) = true
            | _ :: _ => True
            | [] => False
            end) dimensions.

(** An index that is a slice or an expression of type [int] whose
    inference reports nothing in the state [st]. *)
Definition integerIndex (s : bool) (st : State) (p : ReadParam) : Prop :=
  match p with
  | Slice => True
  | ExprParam e =>
      exists col,
        inferType false s e st
        = (Done (Some [ir.TensorType ir.Int [] col]), st)
  end.

(** The shape a [DenseTensorType] stands for, outermost axis first. *)
Definition shapeOf (d : DenseTensorType.t) : list Z :=
  reverse (DenseTensorType.dimSizes d).

(** The dimensions left when the leading and the trailing dimensions equal
    to 1 are discarded, as C7 reads the slack. *)
Definition discardUnitDimensions (dims : list ir.IndexSet) : list ir.IndexSet :=
  reverse (skipUnitDimensions (reverse (skipUnitDimensions dims))).

(** [changes T m]: when the visit [m] returns, the context it leaves is
    related by [T] to the context it started in. *)
Definition changes {A}
    (T : internal.ProgramContext -> internal.ProgramContext -> Prop)
    (m : M A) : Prop :=
  forall st a st', m st = (Done a, st') -> T (ctx st) (ctx st').

(** One change of the context after another. *)
Definition andThen
    (T1 T2 : internal.ProgramContext -> internal.ProgramContext -> Prop)
    (c c' : internal.ProgramContext) : Prop :=
  exists c1, T1 c c1 /\ T2 c1 c'.

Definition unchanged (c c' : internal.ProgramContext) : Prop := c' = c.

Definition scoped (c c' : internal.ProgramContext) : Prop :=
  c' = internal.scope c.

Definition unscoped (c c' : internal.ProgramContext) : Prop :=
  c' = internal.unscope c.

(** Only the innermost scope differs: the symbol stack is as deep as it
    was, the scopes around the innermost one are the same, and so are the
    element types and the functions. *)
Definition innermostOnly (c c' : internal.ProgramContext) : Prop :=
  length (internal.symtable c') = length (internal.symtable c)
  /\ tail (internal.symtable c') = tail (internal.symtable c)
  /\ internal.elementTypes c' = internal.elementTypes c
  /\ internal.functions c' = internal.functions c.

Definition local {A} (m : M A) : Prop := changes innermostOnly m.

(** The statements with a body. *)
Definition isBlock (s : Stmt) : bool :=
  match s with
  | WhileStmt _ _ | IfStmt _ _ _ | ForStmt _ _ _ _ => true
  | _ => false
  end.

(** What the declaration of a function [name] leaves of the context: the
    symbols and the element types as they were, and the functions as they
    were or with the one new entry [name]. *)
Definition registersFunction (name : string)
    (c c' : internal.ProgramContext) : Prop :=
  internal.symtable c' = internal.symtable c
  /\ internal.elementTypes c' = internal.elementTypes c
  /\ (internal.functions c' = internal.functions c
      \/ internal.functions c !! name = None
         /\ exists f, ir.funcName f = name
                      /\ internal.functions c'
                         = <[name := f]> (internal.functions c)).

(** Every symbol, element type and function known in [c] is known in [c']
    with the same definition. *)
Definition extends (c c' : internal.ProgramContext) : Prop :=
  (forall name sym, internal.getSymbol c name = Some sym ->
                    internal.getSymbol c' name = Some sym)
  /\ (forall name t, internal.elementTypes c !! name = Some t ->
                     internal.elementTypes c' !! name = Some t)
  /\ (forall name f, internal.functions c !! name = Some f ->
                     internal.functions c' !! name = Some f).

(** [redeclares c decl]: the name that [decl] declares is taken in [c], by
    an element type, by a visible symbol or by a function. *)
Definition redeclares (c : internal.ProgramContext) (decl : Decl) : Prop :=
  match decl with
  | ElementTypeDecl ident _ => internal.containsElementType c ident = true
  | ExternDecl var => internal.hasSymbol c (name var) false = true
  | FuncDecl ident _ _ _ => internal.containsFunction c ident = true
  end.

(** The diagnostic of [reportMultipleDefs] for the declaration [decl]. *)
Definition multipleDefinitions (decl : Decl) : ParseError :=
  let '(kind, ident) :=
    match decl with
    | ElementTypeDecl ident _ => ("element type", ident)
    | ExternDecl var => ("variable or constant", name var)
    | FuncDecl ident _ _ _ => ("function or procedure", ident)
    end in
  mkParseError (AtDecl decl)
    [Str "multiple definitions of "; Str kind; Str " '"; Str ident; Str "'"].

(** [signatureLowers decl st]: the two loops of [visit(FuncDecl)] leave
    [typeChecked] set, that is, every argument and every result of the
    function [decl] has a type that lowers to a defined type.  It holds of
    the other declarations. *)
Definition signatureLowers (decl : Decl) (st : State) : Prop :=
  match decl with
  | FuncDecl _ args results _ =>
      exists arguments st1 vars st2,
        visitArguments args true
          (mkState (internal.scope (ctx st)) (errors st))
        = (Done (true, arguments), st1)
        /\ visitResults results true st1 = (Done (true, vars), st2)
  | _ => True
  end.

(** [grew st st']: at least one diagnostic was appended between [st] and
    [st']. *)
Definition grew (st st' : State) : Prop :=
  exists d ds, errors st' = errors st ++ d :: ds.

(** Every registered element type is a defined type. *)
Definition registryDefined (c : internal.ProgramContext) : Prop :=
  forall name t, internal.elementTypes c !! name = Some t ->
                 ir.defined t = true.

(** An index set that is a set names a variable of set type. *)
Definition declaredSet (i : ir.IndexSet) : Prop :=
  match i with
  | ir.Set_ set => ir.isSet (exprType set) = true
  | _ => True
  end.

(** The invariants of a tensor type: no dimension is empty and the index
    sets that are sets are variables of set type, all dimensions are nested
    to the same depth, and only a tensor of order 1 is a column vector. *)
Definition wellFormedTensor (t : ir.Type_) : Prop :=
  match t with
  | ir.TensorType _ dimensions isColumnVector =>
      Forall (fun d => d <> [] /\ Forall declaredSet d) dimensions
      /\ (exists depth, Forall (fun d => length d = depth) dimensions)
      /\ (isColumnVector = true -> length dimensions = 1%nat)
  | _ => False
  end.

(** Every visible symbol has a defined type. *)
Definition symbolsDefined (c : internal.ProgramContext) : Prop :=
  forall name sym, internal.getSymbol c name = Some sym ->
                   ir.defined (exprType (internal.getExpr sym)) = true.

(** [loud m]: where every visible symbol has a defined type, the visit [m]
    publishes no type only after it reported an error. *)
Definition loud (m : M (option ExprType)) : Prop :=
  forall st st', symbolsDefined (ctx st) ->
                 m st = (Done None, st') -> grew st st'.

(** [publishes m]: when the visit [m] returns, it publishes a type. *)
Definition publishes (m : M (option ExprType)) : Prop :=
  forall st r st', m st = (Done r, st') -> r <> None.

(** The depth to which the brackets of a literal are nested, along its
    first rows. *)
Fixpoint nesting (lit : DenseTensorLiteral) : nat :=
  match lit with
  | IntVectorLiteral _ _ | FloatVectorLiteral _ _ => 1
  | NDTensorLiteral elems _ =>
      S match elems with
        | first :: _ => nesting first
        | [] => 0
        end
  end.

Definition fieldDefined (f : ir.Field) : Prop :=
  match f with ir.mkField _ t => ir.defined t = true end.

Definition varDefined (v : ir.Var) : Prop := ir.defined (ir.getType v) = true.

(** Every registered element type is an element type of the name it is
    registered under, and the types of its fields are defined. *)
Definition elementsWellFormed (c : internal.ProgramContext) : Prop :=
  forall name t, internal.elementTypes c !! name = Some t ->
    exists fields, t = ir.ElementType name fields /\ Forall fieldDefined fields.

(** Every registered function carries the name it is registered under, and
    the types of its arguments and of its results are defined. *)
Definition functionsWellFormed (c : internal.ProgramContext) : Prop :=
  forall name f, internal.functions c !! name = Some f ->
    ir.funcName f = name
    /\ Forall varDefined (ir.getArguments f)
    /\ Forall varDefined (ir.getResults f).

(** [keepsInvariant P]: a context for which [P] holds is changed to one for
    which [P] holds. *)
Definition keepsInvariant (P : internal.ProgramContext -> Prop)
    (c c' : internal.ProgramContext) : Prop :=
  P c -> P c'.

(** The end of a visit, with the diagnostics [pre] put before the ones it
    ends with. *)
Definition after {A} (pre : list ParseError) (r : Outcome A * State)
    : Outcome A * State :=
  (r.1, mkState (ctx r.2) (pre ++ errors r.2)).

(** [framed m]: the visit [m] does not look at the diagnostics reported
    before it: started with [pre] before the diagnostics [es], it ends as it
    does from [es], with [pre] before the diagnostics it ends with. *)
Definition framed {A} (m : M A) : Prop :=
  forall c es pre,
    m (mkState c (pre ++ es)) = after pre (m (mkState c es)).

Definition framedParam (infer : Expr -> M (option ExprType)) (p : ReadParam)
    : Prop :=
  match p with
  | Slice => True
  | ExprParam e => framed (infer e)
  end.


(** The diagnostic of [visit(VarExpr)] for a write to [ident]. *)
Definition notWritable (ident : string) : ParseError :=
  mkParseError (AtExpr (VarExpr ident))
    [Str "'"; Str ident; Str "' is not writable"].

(** ** Example programs and expressions *)

(** Two programs: [proc main  x = f();  end] with no function [f], and
    [element Point a : float; end  proc main  var p : Point = 1.0;  end]. *)
Definition callsUndeclared : Program :=
  [FuncDecl "main" [] [] [AssignStmt [VarExpr "x"] (CallExpr "f" [])]].

Definition initializesElement : Program :=
  [ElementTypeDecl "Point"
     [mkIdentDecl "a" (Tensor (ScalarType FLOAT))];
   FuncDecl "main" [] []
     [VarDecl (mkIdentDecl "p" (ElementType "Point"))
        (Some (FloatLiteral (1 # 1)))]].

(** A procedure whose loops and branches all report errors:
    [proc main  while 1  x = u;  end
                if true  print y;  else  for i in 0:1.0  end  end  end]. *)
Definition nestedErrors : Program :=
  [FuncDecl "main" [] []
     [WhileStmt (IntLiteral 1) [AssignStmt [VarExpr "x"] (VarExpr "u")];
      IfStmt (BoolLiteral true) [PrintStmt (VarExpr "y")]
        (Some [ForStmt "i" (IntLiteral 0) (FloatLiteral (1 # 1)) []])]].

(** The literals [[1.0, 2.0], [3.0, 4.0], [5.0, 6.0]], a 3 by 2 matrix, and
    [[1.0, 2.0]'], a column vector. *)
Definition matrixLiteral : Expr :=
  TensorLiteral
    (NDTensorLiteral
       [FloatVectorLiteral [1 # 1; 2 # 1]%Q false;
        FloatVectorLiteral [3 # 1; 4 # 1]%Q false;
        FloatVectorLiteral [5 # 1; 6 # 1]%Q false] false).

Definition columnLiteral : Expr :=
  TensorLiteral (FloatVectorLiteral [1 # 1; 2 # 1]%Q true).

(** Three expressions whose check reports an error:
    [1 and true], [1 == 2.0] and [[[1.0, 2.0], [3.0, 4.0]] * [1.0, 2.0]],
    a matrix times a row vector. *)
Definition andOfInt : Expr := AndExpr (IntLiteral 1) (BoolLiteral true).

Definition eqOfIntAndFloat : Expr :=
  EqExpr [IntLiteral 1; FloatLiteral (2 # 1)].

Definition matrixTimesRow : Expr :=
  MulExpr
    (TensorLiteral
       (NDTensorLiteral
          [FloatVectorLiteral [1 # 1; 2 # 1]%Q false;
           FloatVectorLiteral [3 # 1; 4 # 1]%Q false] false))
    (TensorLiteral (FloatVectorLiteral [1 # 1; 2 # 1]%Q false)).

(** The springs of the assembly example, and an assembly function that
    takes the spring alone:
    [element Point b : float; end   element Spring a : float; end
     extern points : set{Point};   extern springs : set{Spring}(points,points);
     func g(s : Spring) -> (A : tensor[points,points](float)) end
     proc main  A = map g to springs reduce +;  end]. *)
Definition pointType : ir.Type_ :=
  ir.ElementType "Point" [ir.mkField "b" (ir.scalar ir.Float)].

Definition springType : ir.Type_ :=
  ir.ElementType "Spring" [ir.mkField "a" (ir.scalar ir.Float)].

Definition pointsSet : ir.Expr :=
  ir.VarExpr "points" (ir.SetType pointType []).

Definition mapOverSprings : Program :=
  [ElementTypeDecl "Point" [mkIdentDecl "b" (Tensor (ScalarType FLOAT))];
   ElementTypeDecl "Spring" [mkIdentDecl "a" (Tensor (ScalarType FLOAT))];
   ExternDecl (mkIdentDecl "points" (SetType "Point" []));
   ExternDecl (mkIdentDecl "springs" (SetType "Spring" ["points"; "points"]));
   FuncDecl "g" [mkArgument (mkIdentDecl "s" (ElementType "Spring")) false]
     [mkIdentDecl "A"
        (Tensor (NDTensorType [SetIndexSet "points"; SetIndexSet "points"]
                   (ScalarType FLOAT) false))] [];
   FuncDecl "main" [] []
     [AssignStmt [VarExpr "A"] (MapExpr "g" [] "springs")]].

(** A context in which [A] is a 3 by 4 matrix of floats, and the read
    [A(:, 0)]. *)
Definition matrixContext : State :=
  mkState
    (internal.addSymbol internal.emptyContext "A"
       (ir.mkVar "A"
          (ir.TensorType ir.Float [[ir.Range 3]; [ir.Range 4]] false))
       internal.ReadWrite) [].

Definition readColumn : Expr :=
  TensorReadExpr (VarExpr "A") [Slice; ExprParam (IntLiteral 0)].



(** [proc main  const v : tensor[3,1](float) = [[1.0, 2.0, 3.0]];  end]. *)
Definition columnType : TensorType :=
  NDTensorType [RangeIndexSet 3; RangeIndexSet 1] (ScalarType FLOAT) false.

Definition rowLiteral : Expr :=
  TensorLiteral
    (NDTensorLiteral [FloatVectorLiteral [1 # 1; 2 # 1; 3 # 1]%Q false] false).

Definition constWithTrailingUnit : Program :=
  [FuncDecl "main" [] []
     [ConstDecl (mkIdentDecl "v" (Tensor columnType)) (Some rowLiteral)]].

(** [proc main  const v : tensor[3](float) = [[1.0, 2.0, 3.0]];  end]. *)
Definition vectorType : TensorType :=
  NDTensorType [RangeIndexSet 3] (ScalarType FLOAT) false.

Definition constWithLeadingUnit : Program :=
  [FuncDecl "main" [] []
     [ConstDecl (mkIdentDecl "v" (Tensor vectorType)) (Some rowLiteral)]].

(** The statement [x = 1;], a state in which two scopes are open, and the
    loop [while true  t = 1.0;  end]. *)
Definition assignsX : Stmt := AssignStmt [VarExpr "x"] (IntLiteral 1).

Definition twoScopes : State :=
  mkState (internal.scope internal.emptyContext) [].

Definition loopWithLocal : Stmt :=
  WhileStmt (BoolLiteral true)
    [AssignStmt [VarExpr "t"] (FloatLiteral (1 # 1))].

(** [func f(a : float) -> (r : float)  r = a;  end], a context in which a
    function [f] is registered, and the program [proc f end] that declares
    [f] again. *)
Definition copyFunction : Decl :=
  FuncDecl "f"
    [mkArgument (mkIdentDecl "a" (Tensor (ScalarType FLOAT))) false]
    [mkIdentDecl "r" (Tensor (ScalarType FLOAT))]
    [AssignStmt [VarExpr "r"] (VarExpr "a")].

Definition registeredF : ir.Func :=
  ir.mkFunc "f" [ir.mkVar "a" (ir.scalar ir.Float)]
    [ir.mkVar "r" (ir.scalar ir.Float)] ir.Internal.

Definition contextWithF : internal.ProgramContext :=
  internal.addFunction internal.emptyContext registeredF.

Definition declaresFAgain : Program := [FuncDecl "f" [] [] []].

(** [element Point  a : float;  b : Missing;  end], where no element type
    [Missing] is declared. *)
Definition pointWithBadField : Program :=
  [ElementTypeDecl "Point"
     [mkIdentDecl "a" (Tensor (ScalarType FLOAT));
      mkIdentDecl "b" (ElementType "Missing")]].

(** The types [tensor[3,V](float)], where no set [V] is declared, and
    [tensor[2,2](tensor[3,3](float))]. *)
Definition undeclaredDimension : Type_ :=
  Tensor (NDTensorType [RangeIndexSet 3; SetIndexSet "V"] (ScalarType FLOAT)
            false).

Definition blockedMatrix : TensorType :=
  NDTensorType [RangeIndexSet 2; RangeIndexSet 2]
    (NDTensorType [RangeIndexSet 3; RangeIndexSet 3] (ScalarType FLOAT) false)
    false.

(** The expressions [u + 1], where no [u] is declared, and [f()]. *)
Definition sumWithUndeclared : Expr := AddExpr (VarExpr "u") (IntLiteral 1).

Definition callWithoutArguments : Expr := CallExpr "f" [].

(** A state in which [i] is a read-only integer, as a loop variable is, and
    one in which [A] is a read-only vector, with the target [A(0)]. *)
Definition loopContext : State :=
  mkState
    (internal.addSymbol internal.emptyContext "i"
       (ir.mkVar "i" (ir.scalar ir.Int)) internal.Read) [].

Definition readOnlyVector : State :=
  mkState
    (internal.addSymbol internal.emptyContext "A"
       (ir.mkVar "A" (ir.TensorType ir.Float [[ir.Range 3]] true))
       internal.Read) [].

Definition elementOfA : Expr :=
  TensorReadExpr (VarExpr "A") [ExprParam (IntLiteral 0)].

(** The literal [[[1, 2, 3], [4, 5, 6]]]. *)
Definition twoByThree : DenseTensorLiteral :=
  NDTensorLiteral
    [IntVectorLiteral [1; 2; 3] false; IntVectorLiteral [4; 5; 6] false] false.

(** A state in which [p] is a tuple of two points, and the read [p(5)]. *)
Definition tupleContext : State :=
  mkState
    (internal.addSymbol internal.emptyContext "p"
       (ir.mkVar "p" (ir.TupleType pointType 2)) internal.Read) [].

Definition readPastTheTuple : Expr :=
  TensorReadExpr (VarExpr "p") [ExprParam (IntLiteral 5)].

(** ** Reasoning about visits *)

Section Good.

Variable R : State -> State -> Prop.

Hypothesis R_refl : forall st, R st st.

Hypothesis R_trans : forall a b c, R a b -> R b c -> R a c.

Hypothesis R_report :
  forall st d, R st (mkState (ctx st) (errors st ++ [d])).

Lemma good_ret {A} (a : A) : good R (ret a).
Proof. intros st; split; [discriminate | apply R_refl]. Qed.

Lemma good_abort {A} r : good R (@abort A r).
Proof. intros st; split; [discriminate | apply R_refl]. Qed.

Lemma good_getCtx : good R getCtx.
Proof. intros st; split; [discriminate | apply R_refl]. Qed.

Lemma good_reportError m l : good R (reportError m l).
Proof. intros st; split; [discriminate | apply R_report]. Qed.

Lemma good_bind {A B} (m : M A) (k : A -> M B) :
  good R m -> (forall a, good R (k a)) -> good R (bind m k).
Proof.
  intros Hm Hk st. unfold bind.
  destruct (Hm st) as [Hthrow HR].
  destruct (m st) as [[a | e | r] st1]; simpl in *.
  - destruct (Hk a st1) as [Hthrow' HR']. split; [exact Hthrow' |].
    eapply R_trans; eassumption.
  - exfalso. exact (Hthrow e eq_refl).
  - split; [discriminate | exact HR].
Qed.

Lemma good_when c (m : M unit) : good R m -> good R (when c m).
Proof. intros Hm. destruct c; simpl; [exact Hm | apply good_ret]. Qed.

Lemma good_iassert c : good R (iassert c).
Proof. destruct c; [apply good_ret | apply good_abort]. Qed.

Lemma good_tryCatch {A} (body : M A) (handler : Exn -> M A) :
  (forall st, R st (body st).2) -> (forall e, good R (handler e)) ->
  good R (tryCatch body handler).
Proof.
  intros Hb Hh st. unfold tryCatch. specialize (Hb st).
  destruct (body st) as [[a | e | r] st1]; simpl in *.
  - split; [discriminate | exact Hb].
  - destruct (Hh e st1) as [Hthrow HR]. split; [exact Hthrow |].
    eapply R_trans; eassumption.
  - split; [discriminate | exact Hb].
Qed.

Create HintDb good_db discriminated.

Hint Resolve good_ret good_abort good_getCtx good_reportError good_iassert
  : good_db.

(** One step of a proof of [good]: a known visit, a bind, or a case
    distinction on what the visit branches on. *)
Ltac good_step :=
  first
    [ solve [ auto 2 with good_db nocore ]
    | apply good_when
    | apply good_bind; [ | intros ? ]
    | match goal with
      | |- good _ (match ?x with _ => _ end) => destruct x
      | |- good _ (if ?b then _ else _) => destruct b
      end ].

Ltac good_auto := repeat good_step.

Lemma good_reportUndeclared type ident l :
  good R (reportUndeclared type ident l).
Proof. apply good_reportError. Qed.

Lemma good_reportMultipleDefs type ident l :
  good R (reportMultipleDefs type ident l).
Proof. apply good_reportError. Qed.

Lemma good_compareTypes l r : good R (compareTypes l r).
Proof. unfold compareTypes. good_auto. Qed.

Lemma good_toTensor t : good R (toTensor t).
Proof. unfold toTensor. good_auto. Qed.

Lemma good_toSet t : good R (toSet t).
Proof. unfold toSet. good_auto. Qed.

Hint Resolve good_reportUndeclared good_reportMultipleDefs good_compareTypes
  good_toTensor good_toSet : good_db.

(** *** Type syntax *)

Lemma good_visitIndexSet set : good R (visitIndexSet set).
Proof. unfold visitIndexSet. good_auto. Qed.

Lemma good_visitElementType ident : good R (visitElementType ident).
Proof. unfold visitElementType. good_auto. Qed.

Lemma good_visitEndpoint setName : good R (visitEndpoint setName).
Proof. unfold visitEndpoint. good_auto. Qed.

Hint Resolve good_visitIndexSet good_visitElementType good_visitEndpoint
  : good_db.

Lemma good_visitEndpoints ends : forall typeChecked endpoints,
  good R (visitEndpoints ends typeChecked endpoints).
Proof. induction ends as [| e rest IH]; intros; simpl; good_auto. Qed.

Lemma good_visitIndexSets iss : forall typeChecked indexSets,
  good R (visitIndexSets iss typeChecked indexSets).
Proof. induction iss as [| s rest IH]; intros; simpl; good_auto. Qed.

Hint Resolve good_visitEndpoints good_visitIndexSets : good_db.

Lemma good_visitTensorType t : good R (visitTensorType t).
Proof. induction t as [k | iss block IH col]; simpl; good_auto. Qed.

Hint Resolve good_visitTensorType : good_db.

Lemma good_getIRType t : good R (getIRType t).
Proof.
  destruct t; simpl; unfold visitSetType, visitTupleType; good_auto.
Qed.

Hint Resolve good_getIRType : good_db.

Lemma good_getVar decl : good R (getVar decl).
Proof. unfold getVar. good_auto. Qed.

Lemma good_getField f : good R (getField f).
Proof. unfold getField. good_auto. Qed.

Hint Resolve good_getVar good_getField : good_db.

(** *** Expressions *)

Lemma good_typeCheckDenseTensorLiteral lit :
  good R (typeCheckDenseTensorLiteral lit).
Proof.
  unfold typeCheckDenseTensorLiteral. apply good_tryCatch.
  - intros st. unfold bind, lift.
    destruct (getDenseTensorType lit) as [t | e | r]; simpl; try apply R_refl.
    destruct (_ || _); simpl; apply R_refl.
  - intros e. good_auto.
Qed.

Lemma good_checkNumericOperand what opndType opnd :
  good R (checkNumericOperand what opndType opnd).
Proof. unfold checkNumericOperand. good_auto. Qed.

Hint Resolve good_typeCheckDenseTensorLiteral good_checkNumericOperand
  : good_db.

Lemma good_mulTensors expr lt rt lc ld lcol rc rd rcol :
  good R (mulTensors expr lt rt lc ld lcol rc rd rcol).
Proof. unfold mulTensors. good_auto. Qed.

Hint Resolve good_mulTensors : good_db.

Lemma good_checkMul expr lhs rhs lhsType rhsType :
  good R (checkMul expr lhs rhs lhsType rhsType).
Proof. unfold checkMul. good_auto. Qed.

Lemma good_checkDiv expr lhs rhs lhsType rhsType :
  good R (checkDiv expr lhs rhs lhsType rhsType).
Proof. unfold checkDiv. good_auto. Qed.

Lemma good_checkBinaryElwise expr lhs rhs lhsType rhsType :
  good R (checkBinaryElwise expr lhs rhs lhsType rhsType).
Proof. unfold checkBinaryElwise. good_auto. Qed.

Lemma good_checkBinaryBoolean lhs rhs lhsType rhsType :
  good R (checkBinaryBoolean lhs rhs lhsType rhsType).
Proof. unfold checkBinaryBoolean. good_auto. Qed.

Lemma good_checkNot operand opndType : good R (checkNot operand opndType).
Proof. unfold checkNot. good_auto. Qed.

Lemma good_checkEqOperand operand opndType repType :
  good R (checkEqOperand operand opndType repType).
Proof. unfold checkEqOperand. good_auto. Qed.

Lemma good_checkNeg operand opndType : good R (checkNeg operand opndType).
Proof. unfold checkNeg. good_auto. Qed.

Lemma good_checkTranspose operand opndType :
  good R (checkTranspose operand opndType).
Proof. unfold checkTranspose. good_auto. Qed.

Lemma good_visitVarExpr w s expr ident : good R (visitVarExpr w s expr ident).
Proof. unfold visitVarExpr. good_auto. Qed.

Lemma good_checkPartialActual param paramType :
  good R (checkPartialActual param paramType).
Proof. unfold checkPartialActual. good_auto. Qed.

Lemma good_inferActuals elementType endpointSets funcArgs actualsType :
  good R (inferActuals elementType endpointSets funcArgs actualsType).
Proof. unfold inferActuals. good_auto. Qed.

Lemma good_checkMapActuals funcName target actualsType :
  forall partialActuals funcArgs,
  good R (checkMapActuals funcName target partialActuals actualsType funcArgs).
Proof.
  induction actualsType as [| a rest IH]; intros; simpl; good_auto.
Qed.

Hint Resolve good_checkMul good_checkDiv good_checkBinaryElwise
  good_checkBinaryBoolean good_checkNot good_checkEqOperand good_checkNeg
  good_checkTranspose good_visitVarExpr good_checkPartialActual
  good_inferActuals good_checkMapActuals : good_db.

Lemma good_checkMap expr funcName targetName partialActuals actualsType :
  good R (checkMap expr funcName targetName partialActuals actualsType).
Proof. unfold checkMap. good_auto. Qed.

Lemma good_checkCallArguments argTypes : forall funcArgs,
  good R (checkCallArguments argTypes funcArgs).
Proof.
  induction argTypes as [| a rest IH]; intros; simpl; good_auto.
Qed.

Hint Resolve good_checkMap good_checkCallArguments : good_db.

Lemma good_checkCall expr func argTypes : good R (checkCall expr func argTypes).
Proof. unfold checkCall. good_auto. Qed.

Lemma good_getFieldType setExpr fieldName :
  good R (getFieldType setExpr fieldName).
Proof. unfold getFieldType. good_auto. Qed.

Hint Resolve good_checkCall good_getFieldType : good_db.

Lemma good_checkFieldRead expr setOrElem fieldName lhsType :
  good R (checkFieldRead expr setOrElem fieldName lhsType).
Proof. unfold checkFieldRead. good_auto. Qed.

Lemma good_checkIndex index indexType outerDim :
  good R (checkIndex index indexType outerDim).
Proof. unfold checkIndex. good_auto. Qed.

Lemma good_checkTupleIndex index indexType :
  good R (checkTupleIndex index indexType).
Proof. unfold checkTupleIndex. good_auto. Qed.

Hint Resolve good_checkFieldRead good_checkIndex good_checkTupleIndex
  : good_db.

Lemma good_inferPartialActuals infer params :
  Forall (fun p => good R (infer p)) params ->
  good R (inferPartialActuals infer params).
Proof. induction 1; simpl; good_auto. Qed.

Lemma good_compareOperands infer opnds :
  Forall (fun p => good R (infer p)) opnds ->
  forall repType, good R (compareOperands infer opnds repType).
Proof. induction 1; intros; simpl; good_auto. Qed.

Lemma good_inferArguments infer arguments :
  Forall (fun a => match a with
                   | Some e => good R (infer e)
                   | None => True
                   end) arguments ->
  good R (inferArguments infer arguments).
Proof.
  induction 1 as [| a rest Ha _ IH]; simpl; [good_auto |].
  destruct a; good_auto.
Qed.

Lemma good_readIndices infer dimensions outerDims params :
  Forall (goodParam R infer) params ->
  forall i dims, good R (readIndices infer dimensions outerDims params i dims).
Proof.
  induction 1 as [| p rest Hp _ IH]; intros; simpl; [good_auto |].
  destruct p; simpl in Hp; good_auto.
Qed.

Lemma good_readTupleIndex infer expr indices :
  Forall (goodParam R infer) indices ->
  good R (readTupleIndex infer expr indices).
Proof.
  intros H. unfold readTupleIndex.
  destruct H as [| p rest Hp Hrest]; [good_auto |].
  destruct rest; [| good_auto]. destruct p; simpl in Hp; good_auto.
Qed.

Lemma list_all_Forall {A} (P : A -> Prop) (l : list A) :
  list_all A P l -> Forall P l.
Proof. induction 1; constructor; assumption. Qed.

Lemma arguments_all_Forall (P : Expr -> Prop) (l : list (option Expr)) :
  list_all (option Expr) (option_all Expr P) l ->
  Forall (fun a => match a with Some e => P e | None => True end) l.
Proof.
  induction 1 as [| a Ha rest _ IH]; constructor; [| assumption].
  destruct Ha; [assumption | exact I].
Qed.

Lemma good_inferType e : forall w s, good R (inferType w s e).
Proof.
  induction e using Expr_mutind
    with (P0 := fun p => forall s, goodParam R (inferType false s) p);
    intros; simpl; try exact I; try solve [ good_auto ].
  - (* MapExpr *)
    apply good_bind; [| intros; good_auto].
    apply good_inferPartialActuals.
    eapply Forall_impl; [apply list_all_Forall; eassumption |].
    simpl; auto.
  - (* EqExpr *)
    apply good_bind; [| intros; good_auto].
    apply good_compareOperands.
    eapply Forall_impl; [apply list_all_Forall; eassumption |].
    simpl; auto.
  - (* CallExpr *)
    apply good_bind; [good_auto | intros c].
    destruct (internal.getFunction c func); [| good_auto].
    apply good_bind; [| intros; good_auto].
    apply good_inferArguments.
    eapply Forall_impl; [apply arguments_all_Forall; eassumption |].
    intros [a |]; simpl; auto.
  - (* TensorReadExpr *)
    assert (Hidx : Forall (goodParam R (inferType false s)) indices).
    { eapply Forall_impl; [apply list_all_Forall; eassumption |].
      simpl; auto. }
    apply good_bind; [auto |]. intros lhsType.
    destruct lhsType as [[| t [| ? ?]] |]; try solve [ good_auto ].
    destruct t; try solve [ good_auto ].
    + destruct (negb _); [good_auto |].
      apply good_bind; [| intros; good_auto].
      apply good_readIndices; assumption.
    + apply good_bind; [| intros; good_auto].
      apply good_readTupleIndex; assumption.
Qed.

Hint Resolve good_inferType : good_db.

(** *** Statements and declarations

    From here on [R] is also closed under the changes made to the
    context. *)

Hypothesis R_modify :
  forall st f, R st (mkState (f (ctx st)) (errors st)).

Lemma good_modifyCtx f : good R (modifyCtx f).
Proof. intros st; split; [discriminate | apply R_modify]. Qed.

Lemma good_scope : good R scope.
Proof. apply good_modifyCtx. Qed.

Lemma good_unscope : good R unscope.
Proof. apply good_modifyCtx. Qed.

Hint Resolve good_modifyCtx good_scope good_unscope : good_db.

(** A bind whose continuation is only good for the values the first visit
    can return. *)
Lemma good_bind_value {A B} (Q : A -> Prop) (m : M A) (k : A -> M B) :
  good R m -> (forall st a, (m st).1 = Done a -> Q a) ->
  (forall a, Q a -> good R (k a)) -> good R (bind m k).
Proof.
  intros Hm HQ Hk st. unfold bind.
  destruct (Hm st) as [Hthrow HR]. specialize (HQ st).
  destruct (m st) as [[a | e | r] st1]; simpl in *.
  - destruct (Hk a (HQ a eq_refl) st1) as [Hthrow' HR'].
    split; [exact Hthrow' |]. eapply R_trans; eassumption.
  - exfalso. exact (Hthrow e eq_refl).
  - split; [discriminate | exact HR].
Qed.

Lemma good_checkCondition cond condType : good R (checkCondition cond condType).
Proof. unfold checkCondition. good_auto. Qed.

Lemma good_visitRangeDomain lower upper : good R (visitRangeDomain lower upper).
Proof. unfold visitRangeDomain. good_auto. Qed.

Lemma good_visitPrintStmt expr : good R (visitPrintStmt expr).
Proof. unfold visitPrintStmt. good_auto. Qed.

Lemma good_inferTargets lhs : good R (inferTargets lhs).
Proof. induction lhs as [| t rest IH]; simpl; good_auto. Qed.

Lemma good_checkTargets lhs : forall lhsType exprType typeChecked,
  good R (checkTargets lhs lhsType exprType typeChecked).
Proof. induction lhs as [| t rest IH]; intros; simpl; good_auto. Qed.

Hint Resolve good_checkCondition good_visitRangeDomain good_visitPrintStmt
  good_inferTargets good_checkTargets : good_db.

(** [exprType->at(i)] is in range when there are at least as many types as
    targets. *)
Lemma good_declareTargets lhs : forall exprType,
  match exprType with
  | Some ts => (length lhs <= length ts)%nat
  | None => True
  end ->
  good R (declareTargets lhs exprType).
Proof.
  induction lhs as [| target rest IH]; intros exprType Hlen; simpl;
    [good_auto |].
  apply good_bind.
  - destruct target; try solve [ good_auto ].
    apply good_bind; [good_auto | intros c].
    destruct (negb _); [| good_auto].
    apply good_bind; [| intros; good_auto].
    destruct exprType as [[| t ts] |]; simpl in Hlen; [lia | good_auto ..].
  - intros _. apply IH.
    destruct exprType as [[| t ts] |]; simpl in *; [lia | lia | exact I].
Qed.

Lemma good_visitAssignStmt stmt lhs expr : good R (visitAssignStmt stmt lhs expr).
Proof.
  unfold visitAssignStmt.
  apply good_bind; [good_auto | intros exprType].
  apply good_bind; [good_auto | intros lhsType].
  destruct exprType as [ts |].
  - destruct (length lhs =? length ts)%nat eqn:Hlen; simpl.
    + apply Nat.eqb_eq in Hlen.
      apply good_bind; [good_auto | intros typeChecked].
      apply good_declareTargets. destruct typeChecked; [lia | exact I].
    + apply good_bind_value with (Q := fun b => b = false).
      * good_auto.
      * intros st a. unfold bind, reportError, ret. simpl. congruence.
      * intros a ->. apply good_declareTargets. exact I.
  - apply good_bind; [good_auto | intros typeChecked].
    apply good_declareTargets. destruct typeChecked; exact I.
Qed.

Lemma good_stdEqual range1 : forall range2, good R (stdEqual range1 range2).
Proof. induction range1 as [| x rest IH]; intros; simpl; good_auto. Qed.

Hint Resolve good_visitAssignStmt good_stdEqual : good_db.

Lemma good_checkInitialValue decl isConst varType initType :
  good R (checkInitialValue decl isConst varType initType).
Proof. unfold checkInitialValue. good_auto. Qed.

Hint Resolve good_checkInitialValue : good_db.

Lemma good_typeCheckVarOrConstDecl decl var initVal isConst :
  good R (typeCheckVarOrConstDecl decl var initVal isConst).
Proof. unfold typeCheckVarOrConstDecl. good_auto. Qed.

Hint Resolve good_typeCheckVarOrConstDecl : good_db.

Lemma good_visitStmts visit stmts :
  Forall (fun s => good R (visit s)) stmts -> good R (visitStmts visit stmts).
Proof. induction 1; simpl; good_auto. Qed.

Lemma good_visitStmt s : good R (visitStmt s).
Proof.
  induction s; simpl; try solve [ good_auto ].
  - (* WhileStmt *)
    repeat (apply good_bind; [| intros ?]); try solve [ good_auto ].
    apply good_visitStmts, list_all_Forall. assumption.
  - (* IfStmt *)
    repeat (apply good_bind; [| intros ?]); try solve [ good_auto ].
    + apply good_visitStmts, list_all_Forall. assumption.
    + match goal with H : option_all _ _ _ |- _ => destruct H end;
        [| good_auto].
      repeat (apply good_bind; [| intros ?]); try solve [ good_auto ].
      apply good_visitStmts, list_all_Forall. assumption.
  - (* ForStmt *)
    repeat (apply good_bind; [| intros ?]); try solve [ good_auto ].
    apply good_visitStmts, list_all_Forall. assumption.
Qed.

Lemma good_visitStmtBlock stmts : good R (visitStmtBlock stmts).
Proof.
  apply good_visitStmts. apply Forall_forall. intros. apply good_visitStmt.
Qed.

Hint Resolve good_visitStmt good_visitStmtBlock : good_db.

Lemma good_visitFields fs : good R (visitFields fs).
Proof. induction fs as [| f rest IH]; simpl; good_auto. Qed.

Lemma good_visitArguments args : forall typeChecked,
  good R (visitArguments args typeChecked).
Proof. induction args as [| a rest IH]; intros; simpl; good_auto. Qed.

Lemma good_visitResults results : forall typeChecked,
  good R (visitResults results typeChecked).
Proof. induction results as [| r rest IH]; intros; simpl; good_auto. Qed.

Hint Resolve good_visitFields good_visitArguments good_visitResults : good_db.

Lemma good_visitDecl decl : good R (visitDecl decl).
Proof. destruct decl; simpl; good_auto. Qed.

Hint Resolve good_visitDecl : good_db.

Lemma good_visitProgram program : good R (visitProgram program).
Proof. induction program as [| d rest IH]; simpl; good_auto. Qed.

End Good.

(** ** No exception leaves the checker (claim C3) *)

Lemma accumulates_refl st : accumulates st st.
Proof. unfold accumulates. reflexivity. Qed.

Lemma accumulates_trans a b c :
  accumulates a b -> accumulates b c -> accumulates a c.
Proof. unfold accumulates. intros. etransitivity; eassumption. Qed.

Lemma accumulates_report st d :
  accumulates st (mkState (ctx st) (errors st ++ [d])).
Proof. unfold accumulates. simpl. apply prefix_app_r. reflexivity. Qed.

Lemma accumulates_modify st f :
  accumulates st (mkState (f (ctx st)) (errors st)).
Proof. unfold accumulates. reflexivity. Qed.

(** C3, as stated, fails: the check of a call to an undeclared function and
    the check of an ill-typed initializer of a variable that is not a tensor
    both end on an internal assertion, with no diagnostic reported. *)
Lemma typeCheck_aborts_on_assertions :
  typeCheck callsUndeclared internal.emptyContext
    = (Abort AssertionFailed,
       mkState (internal.scope internal.emptyContext) [])
  /\ (typeCheck initializesElement internal.emptyContext).1
       = Abort AssertionFailed
  /\ errors (typeCheck initializesElement internal.emptyContext).2 = [].
Proof. vm_compute. repeat split; reflexivity. Qed.

(** C3, amended: for every HIR input the type checker lets no exception
    cross the component boundary (the exceptions of the dense-literal
    inference are caught at the literal node) and the diagnostics it has
    collected are only ever appended to, however the check ends; the check
    can still end on an internal assertion. *)
Theorem typeCheck_throws_nothing (program : Program)
    (c : internal.ProgramContext) (diags : list ParseError) :
  let r := visitProgram program (mkState c diags) in
  (forall e, r.1 <> Throw e) /\ diags `prefix_of` errors r.2.
Proof.
  exact (good_visitProgram accumulates accumulates_refl accumulates_trans
           accumulates_report accumulates_modify program (mkState c diags)).
Qed.

(** ** Scopes (claim C9) *)

Lemma sameCtx_refl st : sameCtx st st.
Proof. reflexivity. Qed.

Lemma sameCtx_trans a b c : sameCtx a b -> sameCtx b c -> sameCtx a c.
Proof. unfold sameCtx. congruence. Qed.

Lemma sameCtx_report st d : sameCtx st (mkState (ctx st) (errors st ++ [d])).
Proof. reflexivity. Qed.

Lemma inferType_sameCtx w s e st : ctx (inferType w s e st).2 = ctx st.
Proof.
  exact (proj2 (good_inferType sameCtx sameCtx_refl sameCtx_trans
                  sameCtx_report e w s st)).
Qed.

Lemma getVar_sameCtx decl st : ctx (getVar decl st).2 = ctx st.
Proof.
  exact (proj2 (good_getVar sameCtx sameCtx_refl sameCtx_trans
                  sameCtx_report decl st)).
Qed.

Lemma depthFn_bind {A B} f g (m : M A) (k : A -> M B) :
  depthFn f m -> (forall a, depthFn g (k a)) ->
  depthFn (fun n => g (f n)) (bind m k).
Proof.
  intros Hm Hk st b st'. unfold bind.
  destruct (m st) as [[a | e | r] st1] eqn:E; try discriminate.
  intros Hb. rewrite (Hk a _ _ _ Hb), (Hm _ _ _ E). reflexivity.
Qed.

Lemma depthFn_ext {A} f g (m : M A) :
  depthFn f m -> (forall n, f n = g n) -> depthFn g m.
Proof. intros Hm Hfg st a st' E. rewrite <- Hfg. eapply Hm, E. Qed.

Lemma depthFn_scope : depthFn S scope.
Proof. intros st a st' [= _ <-]. reflexivity. Qed.

Lemma depthFn_unscope : depthFn pred unscope.
Proof.
  intros st a st' [= _ <-]. unfold internal.depth. simpl.
  destruct (internal.symtable (ctx st)); reflexivity.
Qed.

Lemma keeps_bind {A B} (m : M A) (k : A -> M B) :
  keeps m -> (forall a, keeps (k a)) -> keeps (bind m k).
Proof. intros Hm Hk. exact (depthFn_bind _ _ m k Hm Hk). Qed.

Lemma keeps_good {A} (m : M A) : good sameCtx m -> keeps m.
Proof.
  intros Hm st a st' E. destruct (Hm st) as [_ H].
  rewrite E in H. simpl in H. unfold sameCtx in H. congruence.
Qed.

Lemma keeps_ret {A} (a : A) : keeps (ret a).
Proof. intros st b st' [= _ <-]. reflexivity. Qed.

Lemma keeps_abort {A} r : keeps (@abort A r).
Proof. intros st b st'. discriminate. Qed.

Lemma keeps_throw {A} e : keeps (@throw A e).
Proof. intros st b st'. discriminate. Qed.

Lemma keeps_getCtx : keeps getCtx.
Proof. intros st b st' [= _ <-]. reflexivity. Qed.

Lemma keeps_when c (m : M unit) : keeps m -> keeps (when c m).
Proof. destruct c; simpl; [auto | intros; apply keeps_ret]. Qed.

Lemma keeps_addSymbol name var access :
  keeps (modifyCtx (fun c => internal.addSymbol c name var access)).
Proof.
  intros st a st' [= _ <-]. unfold internal.depth, internal.addSymbol. simpl.
  destruct (internal.symtable (ctx st)) eqn:E; simpl; [rewrite E |];
    reflexivity.
Qed.

Lemma keeps_addElementType name t :
  keeps (modifyCtx (fun c => internal.addElementType c name t)).
Proof. intros st a st' [= _ <-]. reflexivity. Qed.

Lemma keeps_addFunction f :
  keeps (modifyCtx (fun c => internal.addFunction c f)).
Proof. intros st a st' [= _ <-]. reflexivity. Qed.

(** The visits that only infer types and report errors. *)
Ltac by_good lemma :=
  apply keeps_good; apply (lemma sameCtx);
  first [ exact sameCtx_refl | exact sameCtx_trans | exact sameCtx_report ].

Lemma keeps_reportError m l : keeps (reportError m l).
Proof. by_good good_reportError. Qed.

Lemma keeps_reportMultipleDefs t i l : keeps (reportMultipleDefs t i l).
Proof. by_good good_reportError. Qed.

Lemma keeps_inferType w s e : keeps (inferType w s e).
Proof. by_good good_inferType. Qed.

Lemma keeps_getVar decl : keeps (getVar decl).
Proof. by_good good_getVar. Qed.

Lemma keeps_visitFields fs : keeps (visitFields fs).
Proof. by_good good_visitFields. Qed.

Lemma keeps_checkCondition cond condType : keeps (checkCondition cond condType).
Proof. by_good good_checkCondition. Qed.

Lemma keeps_visitRangeDomain lower upper : keeps (visitRangeDomain lower upper).
Proof. by_good good_visitRangeDomain. Qed.

Lemma keeps_visitPrintStmt expr : keeps (visitPrintStmt expr).
Proof. by_good good_visitPrintStmt. Qed.

Lemma keeps_inferTargets lhs : keeps (inferTargets lhs).
Proof. by_good good_inferTargets. Qed.

Lemma keeps_checkTargets lhs lhsType exprType typeChecked :
  keeps (checkTargets lhs lhsType exprType typeChecked).
Proof. by_good good_checkTargets. Qed.

Lemma keeps_checkInitialValue decl isConst varType initType :
  keeps (checkInitialValue decl isConst varType initType).
Proof. by_good good_checkInitialValue. Qed.

Create HintDb keeps_db discriminated.

Hint Resolve keeps_ret keeps_abort keeps_throw keeps_getCtx keeps_addSymbol
  keeps_addElementType keeps_addFunction keeps_reportError
  keeps_reportMultipleDefs keeps_inferType keeps_getVar keeps_visitFields
  keeps_checkCondition keeps_visitRangeDomain keeps_visitPrintStmt
  keeps_inferTargets keeps_checkTargets keeps_checkInitialValue : keeps_db.

Ltac keeps_step :=
  first
    [ solve [ auto 2 with keeps_db nocore ]
    | apply keeps_when
    | apply keeps_bind; [ | intros ? ]
    | match goal with
      | |- keeps (match ?x with _ => _ end) => destruct x
      | |- keeps (if ?b then _ else _) => destruct b
      end ].

Ltac keeps_auto := repeat keeps_step.

(** A chain of binds that enters and leaves scopes: the depth functions of
    the links are composed and the composition is the identity. *)
Ltac depth_chain :=
  eapply depthFn_ext;
  [ repeat first
      [ eapply depthFn_bind; [ | intros ? ]
      | match goal with
        | |- depthFn _ (match ?x with _ => _ end) => destruct x
        end ];
    first
      [ apply depthFn_scope
      | apply depthFn_unscope
      | refine (_ : keeps _); keeps_auto ]
  | intros ?; reflexivity ].

Lemma keeps_declareTargets lhs : forall exprType,
  keeps (declareTargets lhs exprType).
Proof. induction lhs as [| t rest IH]; intros; simpl; keeps_auto. Qed.

Hint Resolve keeps_declareTargets : keeps_db.

Lemma keeps_visitAssignStmt stmt lhs expr : keeps (visitAssignStmt stmt lhs expr).
Proof. unfold visitAssignStmt. keeps_auto. Qed.

Lemma keeps_typeCheckVarOrConstDecl decl var initVal isConst :
  keeps (typeCheckVarOrConstDecl decl var initVal isConst).
Proof. unfold typeCheckVarOrConstDecl. keeps_auto. Qed.

Hint Resolve keeps_visitAssignStmt keeps_typeCheckVarOrConstDecl : keeps_db.

Lemma keeps_visitStmts visit stmts :
  Forall (fun s => keeps (visit s)) stmts -> keeps (visitStmts visit stmts).
Proof. induction 1; simpl; keeps_auto. Qed.

Lemma keeps_visitStmt s : keeps (visitStmt s).
Proof.
  induction s; simpl; try solve [ keeps_auto ].
  - (* WhileStmt *)
    assert (keeps (visitStmts visitStmt body))
      by (apply keeps_visitStmts, list_all_Forall; assumption).
    depth_chain.
  - (* IfStmt *)
    assert (keeps (visitStmts visitStmt ifBody))
      by (apply keeps_visitStmts, list_all_Forall; assumption).
    match goal with H : option_all _ _ _ |- _ => destruct H as [body Hbody |] end.
    + assert (keeps (visitStmts visitStmt body))
        by (apply keeps_visitStmts, list_all_Forall; assumption).
      depth_chain.
    + depth_chain.
  - (* ForStmt *)
    assert (keeps (visitStmts visitStmt body))
      by (apply keeps_visitStmts, list_all_Forall; assumption).
    depth_chain.
Qed.

Lemma keeps_visitStmtBlock stmts : keeps (visitStmtBlock stmts).
Proof.
  apply keeps_visitStmts. apply Forall_forall. intros. apply keeps_visitStmt.
Qed.

Hint Resolve keeps_visitStmt keeps_visitStmtBlock : keeps_db.

Lemma keeps_visitArguments args : forall typeChecked,
  keeps (visitArguments args typeChecked).
Proof. induction args as [| a rest IH]; intros; simpl; keeps_auto. Qed.

Lemma keeps_visitResults results : forall typeChecked,
  keeps (visitResults results typeChecked).
Proof. induction results as [| r rest IH]; intros; simpl; keeps_auto. Qed.

Hint Resolve keeps_visitArguments keeps_visitResults : keeps_db.

Lemma keeps_visitDecl decl : keeps (visitDecl decl).
Proof.
  destruct decl; simpl; try solve [ keeps_auto ].
  depth_chain.
Qed.

Hint Resolve keeps_visitDecl : keeps_db.

Lemma keeps_visitProgram program : keeps (visitProgram program).
Proof. induction program as [| d rest IH]; simpl; keeps_auto. Qed.

(** Claim C9: every [scope()] is matched by an [unscope()] on every path on
    which a visit completes, the paths that report errors included: the
    visit of a statement, of a declaration and of a whole program leaves the
    symbol stack as deep as it found it, so a check started from the global
    scope ends with depth 1. *)
Theorem scopes_are_balanced :
  (forall s st st',
     visitStmt s st = (Done tt, st') ->
     internal.depth (ctx st') = internal.depth (ctx st))
  /\ (forall decl st st',
       visitDecl decl st = (Done tt, st') ->
       internal.depth (ctx st') = internal.depth (ctx st))
  /\ (forall program c st',
       typeCheck program c = (Done tt, st') ->
       internal.depth (ctx st') = internal.depth c)
  /\ (forall program st',
       typeCheck program internal.emptyContext = (Done tt, st') ->
       internal.depth (ctx st') = 1%nat).
Proof.
  split; [| split; [| split]].
  - intros s st st' H. exact (keeps_visitStmt s st tt st' H).
  - intros decl st st' H. exact (keeps_visitDecl decl st tt st' H).
  - intros program c st' H.
    exact (keeps_visitProgram program (mkState c []) tt st' H).
  - intros program st' H.
    exact (keeps_visitProgram program (mkState internal.emptyContext []) tt
             st' H).
Qed.

(** The check of [nestedErrors] reports four errors and ends with the
    global scope alone. *)
Lemma scopes_are_balanced_witness :
  length (errors (typeCheck nestedErrors internal.emptyContext).2) = 4%nat
  /\ internal.depth (ctx (typeCheck nestedErrors internal.emptyContext).2)
     = 1%nat.
Proof.
  split; [vm_compute; reflexivity |].
  apply (proj2 (proj2 (proj2 scopes_are_balanced)) nestedErrors).
  vm_compute. reflexivity.
Defined.

(** ** The shape rules of the operators (claims C2, C4 and C10) *)

Lemma checkMul_numeric expr lhs rhs c ld lcol rd rcol st :
  c <> ir.Boolean ->
  checkMul expr lhs rhs (Some [ir.TensorType c ld lcol])
    (Some [ir.TensorType c rd rcol]) st
  = mulTensors expr [ir.TensorType c ld lcol] [ir.TensorType c rd rcol]
      c ld lcol c rd rcol st.
Proof. intros Hc. destruct c; [reflexivity | reflexivity | congruence]. Qed.

Lemma ScalarType_eqb_refl c : ir.ScalarType_eqb c c = true.
Proof. destruct c; reflexivity. Qed.

(** The shape table of [*] on [checkMul], where the types of the operands
    are given. *)
Lemma checkMul_shape_table (expr lhs rhs : Expr) (c : ir.ScalarType)
    (ld rd : list ir.IndexDomain) (lcol rcol : bool) (st : State) :
  c <> ir.Boolean ->
  let L := ir.TensorType c ld lcol in
  let R := ir.TensorType c rd rcol in
  let mul := checkMul expr lhs rhs (Some [L]) (Some [R]) in
  (ld = [] -> accepts mul st (Some [R]))
  /\ (ld <> [] -> rd = [] -> accepts mul st (Some [L]))
  /\ (forall l0 r0, ld = [l0] -> rd = [r0] ->
        (xorb lcol rcol = true -> ir.IndexDomain_eqb l0 r0 = true ->
           accepts mul st
             (Some [ir.TensorType c (if lcol then [l0; r0] else []) false]))
        /\ (xorb lcol rcol = false \/ ir.IndexDomain_eqb l0 r0 = false ->
              rejects mul st))
  /\ (forall l0 l1 r0, ld = [l0; l1] -> rd = [r0] ->
        (ir.IndexDomain_eqb l1 r0 = true -> rcol = true ->
           accepts mul st (Some [ir.TensorType c [l0] true]))
        /\ (ir.IndexDomain_eqb l1 r0 = false -> rejects mul st)
        /\ (rcol = false -> diagnoses mul st))
  /\ (forall l0 r0 r1, ld = [l0] -> rd = [r0; r1] ->
        (ir.IndexDomain_eqb l0 r0 = true -> lcol = false ->
           accepts mul st (Some [ir.TensorType c [r1] false]))
        /\ (ir.IndexDomain_eqb l0 r0 = false -> rejects mul st)
        /\ (lcol = true -> diagnoses mul st))
  /\ (forall l0 l1 r0 r1, ld = [l0; l1] -> rd = [r0; r1] ->
        (ir.IndexDomain_eqb l1 r0 = true ->
           accepts mul st (Some [ir.TensorType c [l0; r1] false]))
        /\ (ir.IndexDomain_eqb l1 r0 = false -> rejects mul st))
  /\ (ld <> [] -> rd <> [] ->
      (2 < length ld)%nat \/ (2 < length rd)%nat -> rejects mul st).
Proof.
  intros Hc L R mul. subst L R mul.
  unfold accepts, rejects, diagnoses.
  rewrite (checkMul_numeric _ _ _ _ _ _ _ _ _ Hc).
  unfold mulTensors. rewrite ScalarType_eqb_refl. simpl.
  split; [| split; [| split; [| split; [| split; [| split]]]]].
  - intros ->. reflexivity.
  - intros Hl ->.
    destruct ld as [| ? [| ? [| ? ?]]]; [congruence | reflexivity ..].
  - intros l0 r0 -> ->. split.
    + intros Hx He. rewrite He.
      destruct lcol, rcol; try discriminate; reflexivity.
    + intros [Hx | He].
      * destruct lcol, rcol; try discriminate; simpl; eexists; reflexivity.
      * rewrite He. destruct lcol, rcol; simpl; eexists; reflexivity.
  - intros l0 l1 r0 -> ->. split; [| split].
    + intros He ->. rewrite He. reflexivity.
    + intros He. rewrite He. simpl. eexists; reflexivity.
    + intros ->. destruct (ir.IndexDomain_eqb l1 r0); simpl;
        do 2 eexists; reflexivity.
  - intros l0 r0 r1 -> ->. split; [| split].
    + intros He ->. rewrite He. reflexivity.
    + intros He. rewrite He. simpl. eexists; reflexivity.
    + intros ->. destruct (ir.IndexDomain_eqb l0 r0); simpl;
        do 2 eexists; reflexivity.
  - intros l0 l1 r0 r1 -> ->. split.
    + intros He. rewrite He. reflexivity.
    + intros He. rewrite He. simpl. eexists; reflexivity.
  - intros Hl Hr Hlen.
    destruct ld as [| l0 [| l1 [| l2 ld]]]; try congruence;
      destruct rd as [| r0 [| r1 [| r2 rd]]]; try congruence;
      simpl in Hlen; try lia; eexists; reflexivity.
Qed.

(** [visit(MulExpr)] infers the left operand, then the right one, and checks
    the product in the state they leave. *)
Lemma inferType_MulExpr w s lhs rhs lhsType rhsType st st1 st2 :
  inferType false s lhs st = (Done lhsType, st1) ->
  inferType false s rhs st1 = (Done rhsType, st2) ->
  inferType w s (MulExpr lhs rhs) st
  = checkMul (MulExpr lhs rhs) lhs rhs lhsType rhsType st2.
Proof.
  intros Hl Hr. cbn [inferType]. unfold bind at 1. rewrite Hl.
  unfold bind at 1. rewrite Hr. reflexivity.
Qed.

(** Claim C2: the type inferred for [lhs * rhs] when the operands are
    inferred to be numeric tensors with the same component type follows the
    shape table.  With an operand of order 0 the result is the other
    operand.  Vector times vector needs exactly one column vector and equal
    dimensions; column times row has order 2 and dimensions (left, right).
    Matrix times vector needs [L.dim[1] = R.dim[0]] and a column vector on
    the right and is a column vector over [L.dim[0]].  Vector times matrix
    needs [L.dim[0] = R.dim[0]] and a row vector on the left and is a row
    vector over [R.dim[1]].  Matrix times matrix needs [L.dim[1] = R.dim[0]]
    and has dimensions [(L.dim[0], R.dim[1])].  When neither operand has
    order 0, an operand of order 3 or more is rejected with a diagnostic.
    A requirement that is not met is reported. *)
Theorem mul_shape_table (w s : bool) (lhs rhs : Expr) (c : ir.ScalarType)
    (ld rd : list ir.IndexDomain) (lcol rcol : bool) (st st1 st2 : State) :
  c <> ir.Boolean ->
  let L := ir.TensorType c ld lcol in
  let R := ir.TensorType c rd rcol in
  inferType false s lhs st = (Done (Some [L]), st1) ->
  inferType false s rhs st1 = (Done (Some [R]), st2) ->
  let mul := inferType w s (MulExpr lhs rhs) in
  (ld = [] -> acceptsAfter mul st st2 (Some [R]))
  /\ (ld <> [] -> rd = [] -> acceptsAfter mul st st2 (Some [L]))
  /\ (forall l0 r0, ld = [l0] -> rd = [r0] ->
        (xorb lcol rcol = true -> ir.IndexDomain_eqb l0 r0 = true ->
           acceptsAfter mul st st2
             (Some [ir.TensorType c (if lcol then [l0; r0] else []) false]))
        /\ (xorb lcol rcol = false \/ ir.IndexDomain_eqb l0 r0 = false ->
              rejectsAfter mul st st2))
  /\ (forall l0 l1 r0, ld = [l0; l1] -> rd = [r0] ->
        (ir.IndexDomain_eqb l1 r0 = true -> rcol = true ->
           acceptsAfter mul st st2 (Some [ir.TensorType c [l0] true]))
        /\ (ir.IndexDomain_eqb l1 r0 = false -> rejectsAfter mul st st2)
        /\ (rcol = false -> diagnosesAfter mul st st2))
  /\ (forall l0 r0 r1, ld = [l0] -> rd = [r0; r1] ->
        (ir.IndexDomain_eqb l0 r0 = true -> lcol = false ->
           acceptsAfter mul st st2 (Some [ir.TensorType c [r1] false]))
        /\ (ir.IndexDomain_eqb l0 r0 = false -> rejectsAfter mul st st2)
        /\ (lcol = true -> diagnosesAfter mul st st2))
  /\ (forall l0 l1 r0 r1, ld = [l0; l1] -> rd = [r0; r1] ->
        (ir.IndexDomain_eqb l1 r0 = true ->
           acceptsAfter mul st st2 (Some [ir.TensorType c [l0; r1] false]))
        /\ (ir.IndexDomain_eqb l1 r0 = false -> rejectsAfter mul st st2))
  /\ (ld <> [] -> rd <> [] ->
      (2 < length ld)%nat \/ (2 < length rd)%nat -> rejectsAfter mul st st2).
Proof.
  intros Hc L R Hl Hr mul. subst L R mul.
  unfold acceptsAfter, rejectsAfter, diagnosesAfter.
  rewrite (inferType_MulExpr w s lhs rhs _ _ st st1 st2 Hl Hr).
  exact (checkMul_shape_table (MulExpr lhs rhs) lhs rhs c ld rd lcol rcol
           st2 Hc).
Qed.

(** The 3 by 2 matrix [matrixLiteral] times the column vector
    [columnLiteral] over 2 is inferred to be a column vector over 3. *)
Lemma mul_shape_table_witness :
  let st := mkState internal.emptyContext [] in
  ir.Float <> ir.Boolean
  /\ inferType false false matrixLiteral st
     = (Done (Some [ir.TensorType ir.Float [[ir.Range 3]; [ir.Range 2]]
                      false]), st)
  /\ inferType false false columnLiteral st
     = (Done (Some [ir.TensorType ir.Float [[ir.Range 2]] true]), st)
  /\ acceptsAfter
       (inferType false false (MulExpr matrixLiteral columnLiteral)) st st
       (Some [ir.TensorType ir.Float [[ir.Range 3]] true]).
Proof.
  intros st.
  assert (Hc : ir.Float <> ir.Boolean) by discriminate.
  assert (Hl : inferType false false matrixLiteral st
               = (Done (Some [ir.TensorType ir.Float
                                [[ir.Range 3]; [ir.Range 2]] false]), st))
    by (vm_compute; reflexivity).
  assert (Hr : inferType false false columnLiteral st
               = (Done (Some [ir.TensorType ir.Float [[ir.Range 2]] true]),
                  st))
    by (vm_compute; reflexivity).
  split; [exact Hc |]. split; [exact Hl |]. split; [exact Hr |].
  destruct (mul_shape_table false false matrixLiteral columnLiteral ir.Float
              [[ir.Range 3]; [ir.Range 2]] [[ir.Range 2]] false true
              st st st Hc Hl Hr) as (_ & _ & _ & H & _).
  destruct (H _ _ _ eq_refl eq_refl) as [Hacc _].
  apply Hacc; reflexivity.
Defined.



(** C4, as stated, fails: each of the three checks reports one error and
    still publishes a type. *)
Lemma types_published_after_errors :
  let st := mkState internal.emptyContext [] in
  (length (errors (inferType false false andOfInt st).2) = 1%nat
   /\ (inferType false false andOfInt st).1
      = Done (Some [ir.scalar ir.Boolean]))
  /\ (length (errors (inferType false false eqOfIntAndFloat st).2) = 1%nat
      /\ (inferType false false eqOfIntAndFloat st).1
         = Done (Some [ir.scalar ir.Boolean]))
  /\ (length (errors (inferType false false matrixTimesRow st).2) = 1%nat
      /\ (inferType false false matrixTimesRow st).1
         = Done (Some [ir.TensorType ir.Float [[ir.Range 2]] true])).
Proof. vm_compute. repeat split; reflexivity. Qed.

(** Case analysis on the type of an operand: not inferred, no value, one
    value of each kind of type, several values. *)
Ltac split_operand t :=
  destruct t as [[| [| [| |] [| ? ?] ? | | |] [| ? ?]] |].

Ltac split_ifs :=
  repeat (match goal with
          | |- context [if ?b then _ else _] => destruct b
          end; simpl).

Ltac silent_or_empty :=
  unfold silentOrEmpty, bind, ret, when, reportError, abort, iassert;
  simpl; split_ifs;
  first [ intros _; reflexivity | intros H; exfalso; apply H; reflexivity ].

Lemma silentOrEmpty_elwise expr lhs rhs lhsType rhsType st :
  silentOrEmpty (checkBinaryElwise expr lhs rhs lhsType rhsType) st.
Proof.
  unfold checkBinaryElwise, checkNumericOperand, compareTypes.
  split_operand lhsType; split_operand rhsType; silent_or_empty.
Qed.

Lemma silentOrEmpty_div expr lhs rhs lhsType rhsType st :
  silentOrEmpty (checkDiv expr lhs rhs lhsType rhsType) st.
Proof.
  unfold checkDiv, checkNumericOperand.
  split_operand lhsType; split_operand rhsType; silent_or_empty.
Qed.

Lemma silentOrEmpty_neg operand opndType st :
  silentOrEmpty (checkNeg operand opndType) st.
Proof. unfold checkNeg. split_operand opndType; silent_or_empty. Qed.

Lemma silentOrEmpty_transpose operand opndType st :
  silentOrEmpty (checkTranspose operand opndType) st.
Proof.
  unfold checkTranspose.
  destruct opndType as [[| [| ? [| ? [| ? [| ? ?]]] ? | | |] [| ? ?]] |];
    silent_or_empty.
Qed.

Lemma silentOrEmpty_mulTensors expr lt rt lc ld lcol rc rd rcol st :
  silentOrEmpty (mulTensors expr lt rt lc ld lcol rc rd rcol) st
  \/ wrongOrientation (Some [ir.TensorType lc ld lcol])
       (Some [ir.TensorType rc rd rcol]).
Proof.
  unfold mulTensors, wrongOrientation.
  destruct ld as [| l0 [| l1 [| l2 ld]]];
    destruct rd as [| r0 [| r1 [| r2 rd]]];
    try solve [ left; silent_or_empty ].
  - (* vector times matrix *)
    destruct (ir.IndexDomain_eqb l0 r0) eqn:He, lcol;
      try solve [ left; rewrite ?He; silent_or_empty ].
    right. reflexivity.
  - (* matrix times vector *)
    destruct (ir.IndexDomain_eqb l1 r0) eqn:He, rcol;
      try solve [ left; rewrite ?He; silent_or_empty ].
    right. reflexivity.
Qed.

Lemma silentOrEmpty_mul expr lhs rhs lhsType rhsType st :
  silentOrEmpty (checkMul expr lhs rhs lhsType rhsType) st
  \/ wrongOrientation lhsType rhsType.
Proof.
  split_operand lhsType; split_operand rhsType;
    try solve [ left; unfold checkMul, checkNumericOperand; silent_or_empty ];
    match goal with
    | |- context [checkMul ?e ?l ?r (Some [ir.TensorType ?lc ?ld ?lcol])
                    (Some [ir.TensorType ?rc ?rd ?rcol])] =>
        destruct (silentOrEmpty_mulTensors e
                    [ir.TensorType lc ld lcol] [ir.TensorType rc rd rcol]
                    lc ld lcol rc rd rcol st) as [H | H];
          [left; exact H | right; exact H]
    end.
Qed.

Lemma eq_publishes_bool w s operands st a :
  (inferType w s (EqExpr operands) st).1 = Done a -> a = boolType.
Proof.
  simpl. unfold bind.
  destruct (compareOperands _ operands None st) as [[[] | e | r] st1];
    simpl; congruence.
Qed.

Lemma boolean_publishes_bool lhs rhs lhsType rhsType st :
  (checkBinaryBoolean lhs rhs lhsType rhsType st).1 = Done boolType.
Proof.
  unfold checkBinaryBoolean, bind, when, ret, reportError.
  destruct lhsType as [lt |], rhsType as [rt |]; simpl;
    repeat match goal with
           | |- context [negb (singleBoolean ?t)] =>
               destruct (negb (singleBoolean t)); simpl
           end; reflexivity.
Qed.

Lemma not_publishes_bool operand opndType st :
  (checkNot operand opndType st).1 = Done boolType.
Proof.
  unfold checkNot, bind, when, ret, reportError.
  destruct opndType as [t |]; simpl; [| reflexivity].
  destruct (negb (singleBoolean t)); reflexivity.
Qed.

(** C4, amended: at an element-wise operation, a division, a negation and a
    transpose, and at a multiplication other than a matrix by a row vector
    and a column vector by a matrix of matching dimensions, a check that
    reports an error publishes no type; the boolean operators and the
    comparison operators always publish the type [bool], also when they
    report an operand that is not boolean, not scalar or of another type. *)
Theorem failed_checks_publish_no_type (expr lhs rhs : Expr)
    (lhsType rhsType : option ExprType) (st : State) :
  silentOrEmpty (checkBinaryElwise expr lhs rhs lhsType rhsType) st
  /\ silentOrEmpty (checkDiv expr lhs rhs lhsType rhsType) st
  /\ silentOrEmpty (checkNeg lhs lhsType) st
  /\ silentOrEmpty (checkTranspose lhs lhsType) st
  /\ (silentOrEmpty (checkMul expr lhs rhs lhsType rhsType) st
      \/ wrongOrientation lhsType rhsType)
  /\ (checkBinaryBoolean lhs rhs lhsType rhsType st).1 = Done boolType
  /\ (checkNot lhs lhsType st).1 = Done boolType
  /\ (forall w s operands a,
        (inferType w s (EqExpr operands) st).1 = Done a -> a = boolType).
Proof.
  split; [apply silentOrEmpty_elwise |].
  split; [apply silentOrEmpty_div |].
  split; [apply silentOrEmpty_neg |].
  split; [apply silentOrEmpty_transpose |].
  split; [apply silentOrEmpty_mul |].
  split; [apply boolean_publishes_bool |].
  split; [apply not_publishes_bool |].
  intros w s operands a. apply eq_publishes_bool.
Qed.

(** The sum [1 + 2.0] reports its operands and publishes no type. *)
Lemma failed_checks_publish_no_type_witness :
  let st := mkState internal.emptyContext [] in
  let sum := AddExpr (IntLiteral 1) (FloatLiteral (2 # 1)) in
  (checkBinaryElwise sum (IntLiteral 1) (FloatLiteral (2 # 1))
     (Some [ir.scalar ir.Int]) (Some [ir.scalar ir.Float]) st).1 = Done None.
Proof.
  intros st sum.
  apply (proj1 (failed_checks_publish_no_type sum (IntLiteral 1)
                  (FloatLiteral (2 # 1)) (Some [ir.scalar ir.Int])
                  (Some [ir.scalar ir.Float]) st)).
  vm_compute. discriminate.
Defined.

(** ** The arguments synthesized for a map (claim C1) *)

(** C1, as stated, fails: the target has two endpoints, yet the actuals are
    the element alone, not the element and the tuple of two points, and the
    map is accepted without a diagnostic. *)
Lemma map_without_neighbors :
  let st := mkState internal.emptyContext [] in
  inferActuals springType [pointsSet; pointsSet] [ir.mkVar "s" springType] []
    st = (Done [springType], st)
  /\ inferActuals springType [pointsSet; pointsSet] [ir.mkVar "s" springType]
       [] st <> (Done [springType; ir.TupleType pointType 2], st)
  /\ (typeCheck mapOverSprings internal.emptyContext).1 = Done tt
  /\ errors (typeCheck mapOverSprings internal.emptyContext).2 = [].
Proof.
  vm_compute. repeat split; try reflexivity. discriminate.
Qed.

(** C1, amended: for a map of a declared function [F] to a symbol [T] of set
    type, the checker appends to the actuals an element of [T]'s element
    type and, when [T] has endpoints and the number of actuals so far
    differs from the number of arguments of [F], a tuple of the element type
    of the first endpoint, as long as the number of endpoints; only then are
    the arity and the argument types checked against [F]. *)
Theorem map_actuals (elementType : ir.Type_) (endpointSets : list ir.Expr)
    (funcArgs : list ir.Var) (actualsType : list ir.Type_) (st : State) :
  let synthesized :=
    inferActuals elementType endpointSets funcArgs actualsType in
  (endpointSets = [] -> accepts synthesized st (actualsType ++ [elementType]))
  /\ (length (actualsType ++ [elementType]) = length funcArgs ->
      accepts synthesized st (actualsType ++ [elementType]))
  /\ (forall neighborSet rest neighborElementType neighborEndpoints,
        endpointSets = neighborSet :: rest ->
        exprType neighborSet
          = ir.SetType neighborElementType neighborEndpoints ->
        length (actualsType ++ [elementType]) <> length funcArgs ->
        accepts synthesized st
          (actualsType
             ++ [elementType;
                 ir.TupleType neighborElementType
                   (Z.of_nat (length endpointSets))]))
  /\ (forall expr funcName targetName partialActuals f sym,
        internal.getFunction (ctx st) funcName = Some f ->
        internal.getSymbol (ctx st) targetName = Some sym ->
        exprType (internal.getExpr sym)
          = ir.SetType elementType endpointSets ->
        funcArgs = ir.getArguments f ->
        checkMap expr funcName targetName partialActuals actualsType st
        = (let* actuals := synthesized in
           if negb (length actuals =? length funcArgs)%nat then
             let* _ := reportError
               [Str "map operation passes "; Num (Z.of_nat (length actuals));
                Str " arguments "; Str "to assembly function but function '";
                Str (ir.funcName f); Str "' expects ";
                Num (Z.of_nat (length funcArgs)); Str " arguments"]
               (AtExpr expr) in
             ret (Some (ir.getType <$> ir.getResults f))
           else
             let* _ := checkMapActuals (ir.funcName f) targetName
                         partialActuals actuals funcArgs in
             ret (Some (ir.getType <$> ir.getResults f))) st).
Proof.
  intros synthesized. subst synthesized. unfold accepts, inferActuals.
  split; [| split; [| split]].
  - intros ->. reflexivity.
  - intros Hlen. apply Nat.eqb_eq in Hlen. rewrite Hlen.
    destruct endpointSets; reflexivity.
  - intros n rest ne nends -> Hn Hlen. apply Nat.eqb_neq in Hlen.
    rewrite Hlen. simpl. unfold bind. rewrite Hn. simpl.
    rewrite <- app_assoc. reflexivity.
  - intros expr funcName targetName partialActuals f sym Hf Hsym Hset ->.
    unfold checkMap, inferActuals. unfold bind at 1. unfold getCtx.
    rewrite Hf. unfold bind at 1. unfold ret at 1. rewrite Hsym.
    unfold bind at 1. rewrite Hset.
    change (negb (ir.isSet (ir.SetType elementType endpointSets))) with false.
    cbv beta iota. unfold ret at 1. cbv beta iota. rewrite Hset.
    unfold bind at 1. reflexivity.
Qed.

(** Mapped over the springs, a function of a spring and two points is
    passed the spring and the tuple of the two points. *)
Lemma map_actuals_witness :
  accepts
    (inferActuals springType [pointsSet; pointsSet]
       [ir.mkVar "s" springType;
        ir.mkVar "p" (ir.TupleType pointType 2)] [])
    (mkState internal.emptyContext [])
    [springType; ir.TupleType pointType 2].
Proof.
  apply (proj1 (proj2 (proj2
    (map_actuals springType [pointsSet; pointsSet]
       [ir.mkVar "s" springType; ir.mkVar "p" (ir.TupleType pointType 2)] []
       (mkState internal.emptyContext []))))
    pointsSet [pointsSet] pointType []);
    [reflexivity | reflexivity | simpl; lia].
Defined.

(** ** Tensor reads (claim C5) *)

Lemma slicedAxes_skip (l : list ir.IndexDomain) i e rest :
  slicedAxes (drop i l) (ExprParam e :: rest) = slicedAxes (drop (S i) l) rest.
Proof.
  destruct (l !! i) as [d |] eqn:E.
  - rewrite (drop_S _ _ _ E). reflexivity.
  - apply lookup_ge_None in E.
    rewrite !drop_ge by lia. reflexivity.
Qed.

Lemma readIndices_dims infer dimensions outerDims params :
  forall i dims st r st',
  readIndices infer dimensions outerDims params i dims st = (Done r, st') ->
  r = dims ++ slicedAxes (drop i dimensions) params.
Proof.
  induction params as [| index rest IH]; intros i dims st r st'; simpl.
  - intros [= <- _]. destruct (drop i dimensions); rewrite app_nil_r;
      reflexivity.
  - destruct index as [| e].
    + destruct (dimensions !! i) as [d |] eqn:E; [| discriminate].
      intros H. apply IH in H. rewrite (drop_S _ _ _ E). simpl.
      rewrite H, <- app_assoc. reflexivity.
    + unfold bind at 1.
      destruct (infer e st) as [[t | ? | ?] st1]; try discriminate.
      unfold bind at 1.
      destruct (checkIndex _ _ _ st1) as [[[] | ? | ?] st2]; try discriminate.
      intros H. apply IH in H. rewrite slicedAxes_skip. exact H.
Qed.

Lemma outerDimension_lookup (dimensions : list ir.IndexDomain) :
  wellFormedDimensions dimensions ->
  forall i d, dimensions !! i = Some d ->
  exists o, ir.getOuterDimensions dimensions !! i = Some o
            /\ match o with
               | ir.Set_ set => ir.isSet (exprType set) = true
               | _ => True
               end.
Proof.
  unfold ir.getOuterDimensions.
  induction 1 as [| d0 rest Hd0 _ IH]; intros i d Hi; [discriminate |].
  destruct d0 as [| o d0]; [contradiction |]. simpl.
  destruct i as [| i]; simpl in *.
  - exists o. split; [reflexivity |]. destruct o; auto.
  - eapply IH, Hi.
Qed.

Lemma checkIndex_integer index col o st :
  match o with
  | ir.Set_ set => ir.isSet (exprType set) = true
  | _ => True
  end ->
  checkIndex index (Some [ir.TensorType ir.Int [] col]) (Some o) st
  = (Done tt, st).
Proof.
  destruct o as [n | set |]; simpl; intros Ho; try reflexivity.
  unfold bind, toSet. destruct (exprType set); try discriminate. reflexivity.
Qed.

Lemma readIndices_integer s dimensions st params :
  wellFormedDimensions dimensions ->
  Forall (integerIndex s st) params ->
  forall i dims,
  (i + length params <= length dimensions)%nat ->
  readIndices (inferType false s) dimensions
    (ir.getOuterDimensions dimensions) params i dims st
  = (Done (dims ++ slicedAxes (drop i dimensions) params), st).
Proof.
  intros Hwf. induction 1 as [| index rest Hindex _ IH]; intros i dims Hlen.
  - simpl. destruct (drop i dimensions); rewrite app_nil_r; reflexivity.
  - simpl in Hlen.
    destruct (lookup_lt_is_Some_2 dimensions i ltac:(lia)) as [d Hd].
    destruct index as [| e]; simpl.
    + rewrite Hd, IH by lia. rewrite (drop_S _ _ _ Hd). simpl.
      rewrite <- app_assoc. reflexivity.
    + destruct Hindex as [col He].
      destruct (outerDimension_lookup dimensions Hwf i d Hd) as (o & Ho & Hset).
      unfold bind at 1. rewrite He. unfold bind at 1. rewrite Ho.
      rewrite (checkIndex_integer _ _ _ _ Hset).
      rewrite IH by lia. rewrite slicedAxes_skip. reflexivity.
Qed.

(** Claim C5: for a read of a tensor with as many indices as the tensor has
    dimensions, the published type has exactly the axes indexed by a slice
    as dimensions, in order; it is a column vector exactly when one axis is
    left and the last index is not a slice; when no axis is left it is the
    block type of the tensor ([readType]).  This is the type of every check
    of the read that completes, and with indices of type [int] the check
    completes and reports nothing. *)
Theorem tensor_read_type (w s : bool) (tensor : Expr)
    (indices : list ReadParam) (c : ir.ScalarType)
    (dimensions : list ir.IndexDomain) (col : bool) (st st1 : State) :
  inferType w s tensor st
    = (Done (Some [ir.TensorType c dimensions col]), st1) ->
  length dimensions = length indices ->
  (forall r st2,
     inferType w s (TensorReadExpr tensor indices) st = (Done r, st2) ->
     r = Some [readType c dimensions col indices])
  /\ (wellFormedDimensions dimensions ->
      Forall (integerIndex s st1) indices ->
      inferType w s (TensorReadExpr tensor indices) st
      = (Done (Some [readType c dimensions col indices]), st1)).
Proof.
  unfold ir.IndexDomain in *.
  intros Htensor Hlen.
  assert (Hread : inferType w s (TensorReadExpr tensor indices) st
    = (let* dims := readIndices (inferType false s) dimensions
                      (ir.getOuterDimensions dimensions) indices 0%nat [] in
       ret (Some (tensorReadType c dimensions col indices dims))) st1).
  { simpl. unfold bind at 1. rewrite Htensor.
    apply Nat.eqb_eq in Hlen. cbv beta iota. rewrite Hlen. reflexivity. }
  assert (Htype : tensorReadType c dimensions col indices
                    (slicedAxes dimensions indices)
                  = [readType c dimensions col indices]).
  { unfold tensorReadType, readType, lastIsSlice.
    destruct (slicedAxes dimensions indices) as [| d ds]; [reflexivity |].
    destruct (last indices) as [[| e] |]; reflexivity. }
  rewrite Hread. split.
  - intros r st2. unfold bind at 1.
    destruct (readIndices _ _ _ indices 0%nat [] st1)
      as [[dims | ? | ?] st3] eqn:E; try discriminate.
    apply readIndices_dims in E. rewrite drop_0, app_nil_l in E. subst dims.
    intros [= <- _]. rewrite Htype. reflexivity.
  - intros Hwf Hint. unfold bind at 1.
    rewrite (readIndices_integer s dimensions st1 indices Hwf Hint)
      by (unfold ir.IndexDomain in *; simpl; lia).
    rewrite drop_0, app_nil_l. unfold ret. rewrite Htype. reflexivity.
Qed.

(** The read [A(:, 0)] of a 3 by 4 matrix is a column vector over 3. *)
Lemma tensor_read_type_witness :
  inferType false false readColumn matrixContext
  = (Done (Some [ir.TensorType ir.Float [[ir.Range 3]] true]), matrixContext).
Proof.
  apply (proj2 (tensor_read_type false false (VarExpr "A")
                  [Slice; ExprParam (IntLiteral 0)] ir.Float
                  [[ir.Range 3]; [ir.Range 4]] false matrixContext
                  matrixContext ltac:(vm_compute; reflexivity) eq_refl)).
  - repeat constructor.
  - repeat constructor. exists false. reflexivity.
Defined.

(** ** Dense tensor literals (claim C8) *)

Lemma addToLast_snoc (inner : list Z) (n len : Z) :
  DenseTensorType.addToLast len (inner ++ [n])
  = inner ++ [DenseTensorType.unsigned (n + len)].
Proof.
  unfold DenseTensorType.addToLast. rewrite length_app. simpl.
  replace (length inner + 1 - 1)%nat with (length inner + 0)%nat by lia.
  rewrite alter_app_r. reflexivity.
Qed.

Lemma list_eqb_Z (l r : list Z) : list_eqb Z.eqb l r = true <-> l = r.
Proof.
  revert r. induction l as [| x l IH]; intros [| y r]; simpl;
    try (split; [discriminate | congruence]); [tauto |].
  rewrite andb_true_iff, Z.eqb_eq, IH. split; [intros [-> ->] | intros [= -> ->]];
    auto.
Qed.

Lemma DenseTensorType_eqb_eq (l r : DenseTensorType.Type_) :
  DenseTensorType.Type_eqb l r = true <-> l = r.
Proof. destruct l, r; simpl; split; congruence. Qed.

(** Merging a row of the same kind and shape counts it. *)
Lemma merge_same (inner : list Z) (n : Z) (kind : DenseTensorType.Type_) :
  DenseTensorType.merge (DenseTensorType.mk (inner ++ [n]) kind)
    (DenseTensorType.mk inner kind)
  = Done (DenseTensorType.mk (inner ++ [DenseTensorType.unsigned (n + 1)]) kind).
Proof.
  unfold DenseTensorType.merge. simpl.
  rewrite (proj2 (DenseTensorType_eqb_eq kind kind) eq_refl). simpl.
  rewrite length_app. simpl.
  replace (length inner + 1 - 1)%nat with (length inner) by lia.
  rewrite Nat.eqb_refl. simpl.
  rewrite take_app_length, (proj2 (list_eqb_Z inner inner) eq_refl). simpl.
  rewrite addToLast_snoc. reflexivity.
Qed.

(** Merging a row of another kind or shape raises. *)
Lemma merge_other (inner : list Z) (n : Z) (kind : DenseTensorType.Type_)
    (other : DenseTensorType.t) :
  (DenseTensorType.type other <> kind ->
   DenseTensorType.merge (DenseTensorType.mk (inner ++ [n]) kind) other
   = Throw TypeError)
  /\ (DenseTensorType.type other = kind ->
      DenseTensorType.dimSizes other <> inner ->
      DenseTensorType.merge (DenseTensorType.mk (inner ++ [n]) kind) other
      = Throw DimError).
Proof.
  unfold DenseTensorType.merge. simpl. split.
  - intros Hk.
    destruct (DenseTensorType.Type_eqb kind (DenseTensorType.type other))
      eqn:E; [| reflexivity].
    apply DenseTensorType_eqb_eq in E. congruence.
  - intros Hk Hd.
    rewrite (proj2 (DenseTensorType_eqb_eq kind _) (eq_sym Hk)). simpl.
    rewrite length_app. simpl.
    replace (length inner + 1 - 1)%nat with (length inner) by lia.
    destruct (length inner =? length (DenseTensorType.dimSizes other))%nat;
      [| reflexivity]. simpl.
    rewrite take_app_length.
    destruct (list_eqb Z.eqb inner (DenseTensorType.dimSizes other)) eqn:E;
      [| reflexivity].
    apply list_eqb_Z in E. congruence.
Qed.

Lemma mergeRows_same get rows : forall inner n kind,
  Forall (fun row => get row = Done (DenseTensorType.mk inner kind)) rows ->
  0 <= n -> n + Z.of_nat (length rows) < 2 ^ 32 ->
  mergeRows get rows (DenseTensorType.mk (inner ++ [n]) kind)
  = Done (DenseTensorType.mk (inner ++ [n + Z.of_nat (length rows)]) kind).
Proof.
  induction rows as [| row rows IH]; intros inner n kind Hrows Hn Hlen; simpl.
  - rewrite Z.add_0_r. reflexivity.
  - inversion Hrows as [| ? ? Hrow Hrest]; subst. rewrite Hrow, merge_same.
    unfold DenseTensorType.unsigned.
    change (2 ^ 32) with 4294967296 in *. simpl length in Hlen.
    rewrite Z.mod_small by lia.
    rewrite IH by (try assumption; lia). simpl length.
    replace (n + Z.of_nat (S (length rows)))
      with (n + 1 + Z.of_nat (length rows)) by lia.
    reflexivity.
Qed.

Lemma mergeRows_other get before : forall inner n kind row other after,
  Forall (fun r => get r = Done (DenseTensorType.mk inner kind)) before ->
  get row = Done other ->
  (DenseTensorType.type other <> kind ->
   mergeRows get (before ++ row :: after)
     (DenseTensorType.mk (inner ++ [n]) kind) = Throw TypeError)
  /\ (DenseTensorType.type other = kind ->
      DenseTensorType.dimSizes other <> inner ->
      mergeRows get (before ++ row :: after)
        (DenseTensorType.mk (inner ++ [n]) kind) = Throw DimError).
Proof.
  induction before as [| b before IH];
    intros inner n kind row other after Hbefore Hrow; simpl.
  - rewrite Hrow.
    destruct (merge_other inner n kind other) as [HT HD].
    split; [intros H; rewrite (HT H) | intros H1 H2; rewrite (HD H1 H2)];
      reflexivity.
  - inversion Hbefore as [| ? ? Hb Hrest]; subst. rewrite Hb, merge_same.
    apply IH; assumption.
Qed.

Lemma vector_literal_type (n : nat) :
  Z.of_nat n < 2 ^ 32 ->
  DenseTensorType.addToLast (DenseTensorType.unsigned (Z.of_nat n)) [0]
  = [Z.of_nat n].
Proof.
  intros Hn. unfold DenseTensorType.addToLast, DenseTensorType.unsigned. simpl.
  change (2 ^ 32) with 4294967296 in *.
  rewrite (Z.mod_small (Z.of_nat n)) by lia.
  rewrite Z.mod_small by lia. reflexivity.
Qed.

(** Claim C8.  A row of [N] values has the shape [(N)] and the kind of its
    values.  A literal of [M] rows that all have the shape [S] and the same
    kind has the shape [(M, S...)] and that kind.  The first row that
    differs from the first one raises [TypeError] when it is of the other
    kind (integers and floats are mixed) and [DimError] when it is of the
    same kind and differs in shape.  The checker turns an exception into
    one diagnostic at the literal node and publishes no type, and publishes
    the tensor type of the inferred shape and kind otherwise.  Sizes are
    [unsigned]: the literals have fewer than [2^32] rows and values. *)
Theorem dense_literal_shape :
  (forall vals b, Z.of_nat (length vals) < 2 ^ 32 ->
     getDenseTensorType (IntVectorLiteral vals b)
     = Done (DenseTensorType.mk [Z.of_nat (length vals)] DenseTensorType.INT))
  /\ (forall vals b, Z.of_nat (length vals) < 2 ^ 32 ->
       getDenseTensorType (FloatVectorLiteral vals b)
       = Done (DenseTensorType.mk [Z.of_nat (length vals)]
                 DenseTensorType.FLOAT))
  /\ (forall first rest d,
       getDenseTensorType first = Done d ->
       Forall (fun row => getDenseTensorType row = Done d) rest ->
       Z.of_nat (length (first :: rest)) < 2 ^ 32 ->
       exists d',
         getDenseTensorType (NDTensorLiteral (first :: rest) false) = Done d'
         /\ shapeOf d' = Z.of_nat (length (first :: rest)) :: shapeOf d
         /\ DenseTensorType.type d' = DenseTensorType.type d)
  /\ (forall first before row after d other,
       getDenseTensorType first = Done d ->
       Forall (fun r => getDenseTensorType r = Done d) before ->
       getDenseTensorType row = Done other ->
       (DenseTensorType.type other <> DenseTensorType.type d ->
        getDenseTensorType
          (NDTensorLiteral (first :: before ++ row :: after) false)
        = Throw TypeError)
       /\ (DenseTensorType.type other = DenseTensorType.type d ->
           shapeOf other <> shapeOf d ->
           getDenseTensorType
             (NDTensorLiteral (first :: before ++ row :: after) false)
           = Throw DimError))
  /\ (forall lit e st,
       getDenseTensorType lit = Throw e ->
       typeCheckDenseTensorLiteral lit st
       = (Done None,
          mkState (ctx st)
            (errors st
               ++ [mkParseError (AtExpr (TensorLiteral lit)) [What e]])))
  /\ (forall lit d st,
       getDenseTensorType lit = Done d ->
       (transposedOf lit = true -> length (shapeOf d) = 1%nat) ->
       typeCheckDenseTensorLiteral lit st
       = (Done
            (Some
               [ir.TensorType
                  match DenseTensorType.type d with
                  | DenseTensorType.INT => ir.Int
                  | _ => ir.Float
                  end
                  ((fun n => [ir.Range n]) <$> shapeOf d)
                  (transposedOf lit)]), st)).
Proof.
  split; [| split; [| split; [| split; [| split]]]].
  - intros vals b Hlen. simpl. unfold DenseTensorType.addIntValues. simpl.
    rewrite vector_literal_type by assumption. reflexivity.
  - intros vals b Hlen. simpl. unfold DenseTensorType.addFloatValues. simpl.
    rewrite vector_literal_type by assumption. reflexivity.
  - intros first rest [inner kind] Hfirst Hrest Hlen. simpl. rewrite Hfirst.
    unfold DenseTensorType.addDimension. simpl.
    simpl length in Hlen.
    rewrite (mergeRows_same getDenseTensorType rest inner 1 kind Hrest)
      by lia.
    eexists. split; [reflexivity |]. unfold shapeOf. simpl.
    rewrite reverse_app. simpl. split; [| reflexivity].
    f_equal. lia.
  - intros first before row after [inner kind] other Hfirst Hbefore Hrow.
    simpl. rewrite Hfirst. unfold DenseTensorType.addDimension. simpl.
    destruct (mergeRows_other getDenseTensorType before inner 1 kind row
                other after Hbefore Hrow) as [HT HD].
    split; [exact HT |]. intros Hk Hs. apply HD; [exact Hk |].
    intros Heq. apply Hs. unfold shapeOf. simpl. rewrite Heq. reflexivity.
  - intros lit e st He. unfold typeCheckDenseTensorLiteral, tryCatch, bind,
      lift. rewrite He. reflexivity.
  - intros lit d st Hd Ht. unfold typeCheckDenseTensorLiteral, tryCatch,
      bind, lift. rewrite Hd. unfold shapeOf in *.
    rewrite length_fmap.
    destruct (transposedOf lit).
    + rewrite (Ht eq_refl). reflexivity.
    + rewrite orb_true_r. reflexivity.
Qed.

(** The literal [[[1, 2, 3], [4, 5, 6]]] has shape (2, 3); with the second
    row [[4.0, 5.0, 6.0]] it raises [TypeError], with the second row
    [[4, 5]] it raises [DimError]. *)
Lemma dense_literal_shape_witness :
  getDenseTensorType
    (NDTensorLiteral
       [IntVectorLiteral [1; 2; 3] false; IntVectorLiteral [4; 5; 6] false]
       false)
  = Done (DenseTensorType.mk [3; 2] DenseTensorType.INT)
  /\ getDenseTensorType
       (NDTensorLiteral
          [IntVectorLiteral [1; 2; 3] false;
           FloatVectorLiteral [4 # 1; 5 # 1; 6 # 1]%Q false] false)
     = Throw TypeError
  /\ getDenseTensorType
       (NDTensorLiteral
          [IntVectorLiteral [1; 2; 3] false; IntVectorLiteral [4; 5] false]
          false)
     = Throw DimError.
Proof.
  destruct dense_literal_shape as (_ & _ & _ & Herr & _).
  split; [vm_compute; reflexivity |].
  destruct (Herr (IntVectorLiteral [1; 2; 3] false) []
              (FloatVectorLiteral [4 # 1; 5 # 1; 6 # 1]%Q false) []
              (DenseTensorType.mk [3] DenseTensorType.INT)
              (DenseTensorType.mk [3] DenseTensorType.FLOAT)
              eq_refl (Forall_nil_2 _) eq_refl) as [HT _].
  destruct (Herr (IntVectorLiteral [1; 2; 3] false) []
              (IntVectorLiteral [4; 5] false) []
              (DenseTensorType.mk [3] DenseTensorType.INT)
              (DenseTensorType.mk [2] DenseTensorType.INT)
              eq_refl (Forall_nil_2 _) eq_refl) as [_ HD].
  split; [apply HT; discriminate | apply HD; [reflexivity | discriminate]].
Defined.

(** ** Declarations of variables and constants (claims C6 and C7) *)


Lemma checkInitialValue_sameCtx decl isConst varType initType st :
  ctx (checkInitialValue decl isConst varType initType st).2 = ctx st.
Proof.
  exact (proj2 (good_checkInitialValue sameCtx sameCtx_refl sameCtx_trans
                  sameCtx_report decl isConst varType initType st)).
Qed.



(** C7, as stated, fails: the declared dimensions (3, 1) and the dimensions
    (1, 3) of the initializer agree once the unit dimensions are discarded
    at both ends, but the code discards the leading ones only and then
    compares (3, 1) with (3), reading the second list past its end; the
    declaration is not accepted. *)
Lemma trailing_unit_not_accepted :
  discardUnitDimensions [ir.Range 3; ir.Range 1]
  = discardUnitDimensions [ir.Range 1; ir.Range 3]
  /\ (skipUnitDimensions [ir.Range 3; ir.Range 1] = [ir.Range 3; ir.Range 1]
      /\ skipUnitDimensions [ir.Range 1; ir.Range 3] = [ir.Range 3])
  /\ (stdEqual [ir.Range 3; ir.Range 1] [ir.Range 3]
        (mkState internal.emptyContext [])).1 = Abort UndefinedBehaviour
  /\ (typeCheck constWithTrailingUnit internal.emptyContext).1
     = Abort UndefinedBehaviour.
Proof. vm_compute. repeat split; reflexivity. Qed.

Lemma stdEqual_equal (range1 : list ir.IndexSet) : forall range2 st,
  list_eqb ir.IndexSet_eqb range1 range2 = true ->
  stdEqual range1 range2 st = (Done true, st).
Proof.
  induction range1 as [| x range1 IH]; intros [| y range2] st; simpl;
    try discriminate; [reflexivity |].
  intros H. apply andb_true_iff in H as [Hx Hrest]. rewrite Hx.
  apply IH, Hrest.
Qed.

(** C7, amended: a const declaration whose declared tensor type and
    initializer tensor type have equal block types is accepted, with no
    diagnostic, whenever the two lists of outer dimensions are equal after
    the leading dimensions equal to 1 are discarded from each; so
    [const v : tensor[3](float) = [[1.0, 2.0, 3.0]]] is accepted. *)
Theorem const_leading_unit_slack (decl : Stmt)
    (varComponent initComponent : ir.ScalarType)
    (varDimensions initDimensions : list ir.IndexDomain)
    (varColumn initColumn : bool) (st : State) :
  compareTypes (ir.getBlockType varComponent varDimensions varColumn)
    (ir.getBlockType initComponent initDimensions initColumn) st
    = (Done true, st) ->
  list_eqb ir.IndexSet_eqb
    (skipUnitDimensions (ir.getOuterDimensions varDimensions))
    (skipUnitDimensions (ir.getOuterDimensions initDimensions)) = true ->
  accepts
    (checkInitialValue decl true
       (ir.TensorType varComponent varDimensions varColumn)
       (Some [ir.TensorType initComponent initDimensions initColumn])) st tt.
Proof.
  intros Hblock Hdims. unfold accepts, checkInitialValue.
  unfold bind at 1. unfold compareTypes at 1. simpl.
  match goal with
  | |- (if ?b then _ else _) st = _ => destruct b; [reflexivity |]
  end.
  do 3 (unfold bind at 1; unfold ret at 1; cbv beta iota).
  match goal with
  | |- (if ?b then _ else _) st = _ => destruct b; [reflexivity |]
  end.
  unfold bind at 1. unfold bind at 1. rewrite Hblock. cbv beta iota.
  rewrite (stdEqual_equal _ _ st Hdims). reflexivity.
Qed.

(** The initializer of dimensions (1, 3) of a constant declared with the
    dimension (3), and the check of the whole declaration. *)
Lemma const_leading_unit_slack_witness :
  accepts
    (checkInitialValue
       (ConstDecl (mkIdentDecl "v" (Tensor vectorType)) (Some rowLiteral))
       true
       (ir.TensorType ir.Float [[ir.Range 3]] false)
       (Some [ir.TensorType ir.Float [[ir.Range 1]; [ir.Range 3]] false]))
    (mkState internal.emptyContext []) tt
  /\ (typeCheck constWithLeadingUnit internal.emptyContext).1 = Done tt
  /\ errors (typeCheck constWithLeadingUnit internal.emptyContext).2 = [].
Proof.
  split; [| split].
  - apply const_leading_unit_slack; vm_compute; reflexivity.
  - vm_compute. reflexivity.
  - vm_compute. reflexivity.
Defined.

(** * Further properties of the checker *)

(** Inversion of a bind that returned. *)
Tactic Notation "bind_inv" hyp(H) "as" ident(a) ident(st1) ident(E) :=
  match type of H with
  | bind ?m ?k ?st = _ =>
      unfold bind at 1 in H;
      destruct (m st) as [[a | ? | ?] st1] eqn:E; try discriminate H
  end.

(** Case analysis on the test a visit that returned branches on. *)
Ltac split_test H :=
  cbv beta iota in H;
  match type of H with
  | (if ?b then _ else _) _ = _ => destruct b
  end.

(** ** What a statement may change *)

Lemma changes_bind {A B} T1 T2 (m : M A) (k : A -> M B) :
  changes T1 m -> (forall a, changes T2 (k a)) ->
  changes (andThen T1 T2) (bind m k).
Proof.
  intros Hm Hk st b st'. unfold bind.
  destruct (m st) as [[a | e | r] st1] eqn:E; try discriminate.
  intros Hb. exists (ctx st1). split; [eapply Hm, E | eapply Hk, Hb].
Qed.

Lemma changes_ext {A} (T1 T2 : _ -> _ -> Prop) (m : M A) :
  changes T1 m -> (forall c c', T1 c c' -> T2 c c') -> changes T2 m.
Proof. intros Hm HT st a st' E. eapply HT, Hm, E. Qed.

Lemma changes_scope : changes scoped scope.
Proof. intros st a st' [= _ <-]. reflexivity. Qed.

Lemma changes_unscope : changes unscoped unscope.
Proof. intros st a st' [= _ <-]. reflexivity. Qed.

Lemma changes_good {A} (m : M A) : good sameCtx m -> changes unchanged m.
Proof.
  intros Hm st a st' E. destruct (Hm st) as [_ H].
  rewrite E in H. exact H.
Qed.

Lemma innermostOnly_refl c : innermostOnly c c.
Proof. repeat split. Qed.

Lemma innermostOnly_trans a b c :
  innermostOnly a b -> innermostOnly b c -> innermostOnly a c.
Proof.
  unfold innermostOnly. intros (? & ? & ? & ?) (? & ? & ? & ?).
  repeat split; congruence.
Qed.

Lemma innermostOnly_addSymbol c name var access :
  innermostOnly c (internal.addSymbol c name var access).
Proof.
  unfold innermostOnly, internal.addSymbol.
  destruct (internal.symtable c) eqn:E; simpl; rewrite ?E; repeat split.
Qed.

(** Leaving a scope that was entered gives the context back, whatever was
    bound in between. *)
Lemma innermostOnly_block c c' :
  innermostOnly (internal.scope c) c' -> internal.unscope c' = c.
Proof.
  destruct c as [S E F], c' as [S' E' F'].
  unfold innermostOnly, internal.scope, internal.unscope. simpl.
  intros (_ & -> & -> & ->). reflexivity.
Qed.

Lemma local_pure {A} (m : M A) : changes unchanged m -> local m.
Proof.
  intros Hm. eapply changes_ext; [exact Hm |].
  intros c c' ->. apply innermostOnly_refl.
Qed.

Lemma local_bind {A B} (m : M A) (k : A -> M B) :
  local m -> (forall a, local (k a)) -> local (bind m k).
Proof.
  intros Hm Hk. eapply changes_ext; [exact (changes_bind _ _ m k Hm Hk) |].
  intros c c' (c1 & H1 & H2). eapply innermostOnly_trans; eassumption.
Qed.

Lemma local_when c (m : M unit) : local m -> local (when c m).
Proof.
  destruct c; simpl; [auto |]. intros _ st a st' [= _ <-].
  apply innermostOnly_refl.
Qed.

Lemma local_throw {A} e : local (@throw A e).
Proof. intros st b st'. discriminate. Qed.

Lemma local_addSymbol name var access :
  local (modifyCtx (fun c => internal.addSymbol c name var access)).
Proof. intros st a st' [= _ <-]. apply innermostOnly_addSymbol. Qed.

(** The visits that leave the whole context alone. *)
Ltac unchanged_by lemma :=
  apply changes_good; apply (lemma sameCtx);
  first [ exact sameCtx_refl | exact sameCtx_trans | exact sameCtx_report ].

Lemma unchanged_ret {A} (a : A) : changes unchanged (ret a).
Proof. unchanged_by @good_ret. Qed.

Lemma unchanged_abort {A} r : changes unchanged (@abort A r).
Proof. unchanged_by @good_abort. Qed.

Lemma unchanged_getCtx : changes unchanged getCtx.
Proof. unchanged_by good_getCtx. Qed.

Lemma unchanged_reportError m l : changes unchanged (reportError m l).
Proof. unchanged_by good_reportError. Qed.

Lemma unchanged_reportMultipleDefs t i l :
  changes unchanged (reportMultipleDefs t i l).
Proof. unchanged_by good_reportError. Qed.

Lemma unchanged_inferType w s e : changes unchanged (inferType w s e).
Proof. unchanged_by good_inferType. Qed.

Lemma unchanged_getVar decl : changes unchanged (getVar decl).
Proof. unchanged_by good_getVar. Qed.

Lemma unchanged_visitFields fs : changes unchanged (visitFields fs).
Proof. unchanged_by good_visitFields. Qed.

Lemma unchanged_checkCondition cond condType :
  changes unchanged (checkCondition cond condType).
Proof. unchanged_by good_checkCondition. Qed.

Lemma unchanged_visitRangeDomain lower upper :
  changes unchanged (visitRangeDomain lower upper).
Proof. unchanged_by good_visitRangeDomain. Qed.

Lemma unchanged_visitPrintStmt expr : changes unchanged (visitPrintStmt expr).
Proof. unchanged_by good_visitPrintStmt. Qed.

Lemma unchanged_inferTargets lhs : changes unchanged (inferTargets lhs).
Proof. unchanged_by good_inferTargets. Qed.

Lemma unchanged_checkTargets lhs lhsType exprType typeChecked :
  changes unchanged (checkTargets lhs lhsType exprType typeChecked).
Proof. unchanged_by good_checkTargets. Qed.

Lemma unchanged_checkInitialValue decl isConst varType initType :
  changes unchanged (checkInitialValue decl isConst varType initType).
Proof. unchanged_by good_checkInitialValue. Qed.

Create HintDb unchanged_db discriminated.

#[local] Hint Resolve unchanged_ret unchanged_abort unchanged_getCtx
  unchanged_reportError unchanged_reportMultipleDefs unchanged_inferType
  unchanged_getVar unchanged_visitFields unchanged_checkCondition
  unchanged_visitRangeDomain unchanged_visitPrintStmt unchanged_inferTargets
  unchanged_checkTargets unchanged_checkInitialValue : unchanged_db.

Create HintDb local_db discriminated.

#[local] Hint Resolve local_throw local_addSymbol : local_db.

Ltac local_step :=
  first
    [ assumption
    | solve [ auto 2 with local_db nocore ]
    | apply local_pure; solve [ auto 2 with unchanged_db nocore ]
    | apply local_when
    | apply local_bind; [ | intros ? ]
    | match goal with
      | |- local (match ?x with _ => _ end) => destruct x
      | |- local (if ?b then _ else _) => destruct b
      end ].

Ltac local_auto := repeat local_step.

Lemma local_declareTargets lhs : forall exprType,
  local (declareTargets lhs exprType).
Proof. induction lhs as [| t rest IH]; intros; simpl; local_auto. Qed.

#[local] Hint Resolve local_declareTargets : local_db.

Lemma local_visitAssignStmt stmt lhs expr : local (visitAssignStmt stmt lhs expr).
Proof. unfold visitAssignStmt. local_auto. Qed.

Lemma local_typeCheckVarOrConstDecl decl var initVal isConst :
  local (typeCheckVarOrConstDecl decl var initVal isConst).
Proof. unfold typeCheckVarOrConstDecl. local_auto. Qed.

#[local] Hint Resolve local_visitAssignStmt local_typeCheckVarOrConstDecl : local_db.

Lemma local_visitStmts visit stmts :
  Forall (fun s => local (visit s)) stmts -> local (visitStmts visit stmts).
Proof. induction 1; simpl; local_auto. Qed.

(** A chain of binds that enters and leaves scopes: the changes of the
    links are composed, and what was bound inside a scope is gone when the
    scope is left. *)
Ltac chain_solve :=
  let H := fresh "H" in
  intros ? ? H; unfold andThen, unchanged, scoped, unscoped in *;
  repeat match goal with
         | H : exists _, _ |- _ => destruct H
         | H : _ /\ _ |- _ => destruct H
         end;
  subst;
  repeat match goal with
         | H1 : innermostOnly ?a ?b, H2 : innermostOnly ?b ?c |- _ =>
             pose proof (innermostOnly_trans _ _ _ H1 H2); clear H1 H2
         | H : innermostOnly (internal.scope _) _ |- _ =>
             apply innermostOnly_block in H; rewrite H in *; clear H
         end;
  first [ reflexivity | assumption ].

Ltac change_chain :=
  eapply changes_ext;
  [ repeat first
      [ eapply changes_bind; [ | intros ? ]
      | match goal with
        | |- changes _ (match ?x with _ => _ end) =>
            match type of x with (_ * _)%type => destruct x end
        end ];
    first
      [ apply changes_scope
      | apply changes_unscope
      | solve [ auto 2 with unchanged_db nocore ]
      | refine (_ : local _); solve [ local_auto ]
      | eassumption ]
  | chain_solve ].

Lemma restores_while cond body :
  local (visitStmts visitStmt body) ->
  changes unchanged (visitStmt (WhileStmt cond body)).
Proof. intros Hbody. simpl. change_chain. Qed.

Lemma restores_if cond ifBody elseBody :
  local (visitStmts visitStmt ifBody) ->
  match elseBody with
  | Some body => local (visitStmts visitStmt body)
  | None => True
  end ->
  changes unchanged (visitStmt (IfStmt cond ifBody elseBody)).
Proof.
  intros Hif Helse. simpl. destruct elseBody as [body |]; change_chain.
Qed.

Lemma restores_for loopVar lower upper body :
  local (visitStmts visitStmt body) ->
  changes unchanged (visitStmt (ForStmt loopVar lower upper body)).
Proof. intros Hbody. simpl. change_chain. Qed.

Lemma local_visitStmt s : local (visitStmt s).
Proof.
  induction s.
  - simpl. local_auto.
  - simpl. local_auto.
  - apply local_pure, restores_while.
    apply local_visitStmts, list_all_Forall. assumption.
  - apply local_pure, restores_if.
    + apply local_visitStmts, list_all_Forall. assumption.
    + match goal with H : option_all _ _ _ |- _ => destruct H end;
        [| exact I].
      apply local_visitStmts, list_all_Forall. assumption.
  - apply local_pure, restores_for.
    apply local_visitStmts, list_all_Forall. assumption.
  - simpl. local_auto.
  - simpl. local_auto.
Qed.

Lemma local_visitStmtBlock stmts : local (visitStmtBlock stmts).
Proof.
  apply local_visitStmts. apply Forall_forall. intros. apply local_visitStmt.
Qed.

(** Property X1: a statement that completes changes nothing but the
    innermost scope: the symbol stack is as deep as it was, the scopes
    around the innermost one hold the same symbols, and no element type and
    no function is added, removed or changed. *)
Theorem statements_change_the_innermost_scope (s : Stmt) (st st' : State) :
  visitStmt s st = (Done tt, st') ->
  innermostOnly (ctx st) (ctx st').
Proof. apply local_visitStmt. Qed.

(** [x = 1;] where two scopes are open. *)
Lemma statements_change_the_innermost_scope_witness :
  innermostOnly (ctx twoScopes) (ctx (visitStmt assignsX twoScopes).2).
Proof.
  apply (statements_change_the_innermost_scope assignsX twoScopes).
  vm_compute. reflexivity.
Defined.

(** Property X2: a [while], [if] or [for] statement that completes leaves
    the context exactly as it found it: the loop variable and whatever the
    bodies declare are gone when the statement ends. *)
Theorem blocks_restore_the_context (s : Stmt) (st st' : State) :
  isBlock s = true ->
  visitStmt s st = (Done tt, st') ->
  ctx st' = ctx st.
Proof.
  intros Hs H.
  assert (Hbody : forall body, local (visitStmts visitStmt body))
    by apply local_visitStmtBlock.
  destruct s; try discriminate.
  - exact (restores_while _ _ (Hbody _) _ _ _ H).
  - refine (restores_if _ _ _ (Hbody _) _ _ _ _ H).
    destruct elseBody; [apply Hbody | exact I].
  - exact (restores_for _ _ _ _ (Hbody _) _ _ _ H).
Qed.

(** [while true  t = 1.0;  end] leaves no [t]. *)
Lemma blocks_restore_the_context_witness :
  ctx (visitStmt loopWithLocal twoScopes).2 = ctx twoScopes.
Proof.
  apply (blocks_restore_the_context loopWithLocal twoScopes);
    [reflexivity | vm_compute; reflexivity].
Defined.

(** ** What a declaration may change *)

Lemma local_visitArguments args : forall typeChecked,
  local (visitArguments args typeChecked).
Proof. induction args as [| a rest IH]; intros; simpl; local_auto. Qed.

Lemma local_visitResults results : forall typeChecked,
  local (visitResults results typeChecked).
Proof. induction results as [| r rest IH]; intros; simpl; local_auto. Qed.

(** The end of [visit(FuncDecl)], lines 286 to 298. *)
Lemma changes_addFunction name arguments results typeChecked l :
  changes (registersFunction name)
    (if negb typeChecked then ret tt
     else
       let* c := getCtx in
       if internal.containsFunction c name then
         reportMultipleDefs "function or procedure" name l
       else
         modifyCtx (fun c =>
           internal.addFunction c
             (ir.mkFunc name arguments results ir.Internal))).
Proof.
  intros st a st'. unfold registersFunction.
  destruct typeChecked; simpl; [| intros [= _ <-]; auto].
  unfold bind, getCtx, internal.containsFunction.
  destruct (bool_decide _) eqn:E.
  - intros [= _ <-]. auto.
  - intros [= _ <-]. simpl. repeat split. right.
    apply bool_decide_eq_false in E. apply eq_None_not_Some in E.
    split; [exact E |]. eexists. split; [| reflexivity]. reflexivity.
Qed.

Lemma changes_FuncDecl name args results body :
  changes (registersFunction name)
    (visitDecl (FuncDecl name args results body)).
Proof.
  pose proof local_visitArguments. pose proof local_visitResults.
  pose proof local_visitStmtBlock.
  pose proof changes_addFunction.
  simpl. change_chain.
Qed.

Lemma extends_refl c : extends c c.
Proof. repeat split; auto. Qed.

Lemma extends_trans a b c : extends a b -> extends b c -> extends a c.
Proof.
  intros (? & ? & ?) (? & ? & ?). repeat split; auto.
Qed.

Lemma extends_registersFunction name c c' :
  registersFunction name c c' -> extends c c'.
Proof.
  intros (Hs & He & Hf). unfold extends, internal.getSymbol.
  rewrite Hs, He. repeat split; auto.
  intros n f Hn. destruct Hf as [-> | (Hnone & g & _ & ->)]; [exact Hn |].
  rewrite lookup_insert_ne; [exact Hn | congruence].
Qed.

Lemma extends_addSymbol c name var access :
  internal.getSymbol c name = None ->
  extends c (internal.addSymbol c name var access).
Proof.
  intros Hnone. unfold extends, internal.addSymbol, internal.getSymbol in *.
  destruct (internal.symtable c) as [| s outer] eqn:E; simpl;
    [rewrite E; repeat split; auto |].
  repeat split; auto.
  intros n sym Hn. simpl in *.
  destruct (decide (name = n)) as [<- | Hne]; [congruence |].
  rewrite lookup_insert_ne by exact Hne. exact Hn.
Qed.

Lemma extends_addElementType c name t :
  internal.elementTypes c !! name = None ->
  extends c (internal.addElementType c name t).
Proof.
  intros Hnone. unfold extends, internal.addElementType, internal.getSymbol.
  simpl. repeat split; auto.
  intros n t' Hn. rewrite lookup_insert_ne; [exact Hn | congruence].
Qed.

Lemma changes_visitDecl decl : changes extends (visitDecl decl).
Proof.
  destruct decl as [name fields | var | name args results body].
  - intros st a st'. simpl. unfold bind at 1.
    destruct (visitFields fields st) as [[fs | e | r] st1] eqn:E;
      try discriminate.
    apply unchanged_visitFields in E. red in E. rewrite <- E.
    unfold bind, getCtx, internal.containsElementType.
    destruct (bool_decide _) eqn:C.
    + intros [= _ <-]. apply extends_refl.
    + intros [= _ <-]. simpl. apply extends_addElementType.
      apply bool_decide_eq_false in C. apply eq_None_not_Some in C. exact C.
  - intros st a st'. simpl. unfold bind at 1.
    destruct (getVar var st) as [[v | e | r] st1] eqn:E; try discriminate.
    apply unchanged_getVar in E. red in E. rewrite <- E.
    unfold bind, getCtx, internal.hasSymbol.
    destruct (bool_decide _) eqn:C.
    + intros [= _ <-]. apply extends_refl.
    + intros [= _ <-]. simpl. apply extends_addSymbol.
      apply bool_decide_eq_false in C. apply eq_None_not_Some in C. exact C.
  - eapply changes_ext; [apply changes_FuncDecl |].
    apply extends_registersFunction.
Qed.

Lemma changes_visitProgram program : changes extends (visitProgram program).
Proof.
  induction program as [| d rest IH]; simpl.
  - intros st a st' [= _ <-]. apply extends_refl.
  - eapply changes_ext;
      [exact (changes_bind _ _ _ _ (changes_visitDecl d) (fun _ => IH)) |].
    intros c c' (c1 & H1 & H2). eapply extends_trans; eassumption.
Qed.

(** Property X3: a function declaration that completes leaves the symbol
    table and the element types as they were, so the arguments, the results
    and the variables of the body do not outlive it; the functions are as
    they were, or hold one new entry, for the declared name, which was not
    registered before. *)
Theorem function_declarations_are_local (name : string)
    (args : list Argument) (results : list IdentDecl) (body : list Stmt)
    (st st' : State) :
  visitDecl (FuncDecl name args results body) st = (Done tt, st') ->
  registersFunction name (ctx st) (ctx st').
Proof. apply changes_FuncDecl. Qed.

(** [func f(a : float) -> (r : float)  r = a;  end] leaves no [a] and no
    [r]. *)
Lemma function_declarations_are_local_witness :
  let st := mkState internal.emptyContext [] in
  registersFunction "f" (ctx st) (ctx (visitDecl copyFunction st).2).
Proof.
  intros st.
  apply (function_declarations_are_local "f"
           [mkArgument (mkIdentDecl "a" (Tensor (ScalarType FLOAT))) false]
           [mkIdentDecl "r" (Tensor (ScalarType FLOAT))]
           [AssignStmt [VarExpr "r"] (VarExpr "a")] st).
  vm_compute. reflexivity.
Defined.

(** ** The registries of element types and of functions *)

Lemma visitFields_defined fs : forall st fields st',
  visitFields fs st = (Done fields, st') -> Forall fieldDefined fields.
Proof.
  induction fs as [| f rest IH]; intros st fields st' H; simpl in H.
  - injection H as <- _. constructor.
  - bind_inv H as field st1 E. bind_inv H as others st2 E2.
    apply IH in E2. destruct field as [n t].
    destruct (ir.defined t) eqn:Hdef; simpl in H; injection H as <- _.
    + constructor; [exact Hdef | exact E2].
    + exact E2.
Qed.

Lemma visitArguments_defined args : forall typeChecked st tc arguments st',
  visitArguments args typeChecked st = (Done (tc, arguments), st') ->
  Forall varDefined arguments.
Proof.
  induction args as [| a rest IH]; intros typeChecked st tc arguments st' H;
    simpl in H.
  - injection H as _ <- _. constructor.
  - bind_inv H as argVar st1 E.
    destruct (ir.defined (ir.getType argVar)) eqn:Hdef; simpl in H.
    + bind_inv H as u st2 E2. bind_inv H as p st3 E3.
      destruct p as [tc' others]. injection H as _ <- _.
      constructor; [exact Hdef | eapply IH, E3].
    + eapply IH, H.
Qed.

Lemma visitResults_defined results : forall typeChecked st tc vars st',
  visitResults results typeChecked st = (Done (tc, vars), st') ->
  Forall varDefined vars.
Proof.
  induction results as [| r rest IH]; intros typeChecked st tc vars st' H;
    simpl in H.
  - injection H as _ <- _. constructor.
  - bind_inv H as result st1 E.
    destruct (ir.defined (ir.getType result)) eqn:Hdef; simpl in H.
    + bind_inv H as u st2 E2. bind_inv H as p st3 E3.
      destruct p as [tc' others]. injection H as _ <- _.
      constructor; [exact Hdef | eapply IH, E3].
    + eapply IH, H.
Qed.

(** The functions a function declaration leaves: those there were, and the
    declared one if its name is new and its signature lowered. *)
Lemma FuncDecl_functions name args results body st st' :
  visitDecl (FuncDecl name args results body) st = (Done tt, st') ->
  internal.functions (ctx st') = internal.functions (ctx st)
  \/ exists arguments vars,
       Forall varDefined arguments /\ Forall varDefined vars
       /\ internal.functions (ctx st')
          = <[name := ir.mkFunc name arguments vars ir.Internal]>
              (internal.functions (ctx st)).
Proof.
  intros H. simpl in H.
  bind_inv H as u1 st1 E1. injection E1 as _ <-.
  bind_inv H as p st2 E2. destruct p as [tc arguments].
  bind_inv H as q st3 E3. destruct q as [tc' vars].
  bind_inv H as u4 st4 E4. bind_inv H as u5 st5 E5. injection E5 as _ <-.
  pose proof (visitArguments_defined _ _ _ _ _ _ E2) as Hargs.
  pose proof (visitResults_defined _ _ _ _ _ _ E3) as Hres.
  apply local_visitArguments in E2. apply local_visitResults in E3.
  apply local_visitStmtBlock in E4.
  destruct E2 as (_ & _ & _ & F2), E3 as (_ & _ & _ & F3),
    E4 as (_ & _ & _ & F4). simpl in F2.
  assert (F : internal.functions (ctx st4) = internal.functions (ctx st))
    by congruence.
  destruct (negb tc'); [injection H as <-; left; exact F |].
  unfold bind, getCtx in H. split_test H.
  - injection H as <-. left. exact F.
  - injection H as <-. right. exists arguments, vars. simpl. rewrite F. auto.
Qed.

Lemma changes_elements decl :
  changes (keepsInvariant elementsWellFormed) (visitDecl decl).
Proof.
  destruct decl as [name fields | var | name args results body];
    intros st [] st' H Hwf.
  - simpl in H. bind_inv H as fs st1 E.
    pose proof (visitFields_defined _ _ _ _ E) as Hfs.
    apply unchanged_visitFields in E. red in E.
    unfold bind, getCtx in H. split_test H.
    + injection H as <-. simpl. rewrite E. exact Hwf.
    + injection H as <-. intros n t Hn.
      cbn [ctx internal.addElementType internal.elementTypes] in Hn.
      rewrite E in Hn.
      destruct (decide (name = n)) as [<- | Hne].
      * rewrite lookup_insert in Hn. destruct (decide (name = name));
          [| congruence].
        injection Hn as <-. eexists. split; [reflexivity | exact Hfs].
      * rewrite lookup_insert_ne in Hn by exact Hne. eapply Hwf, Hn.
  - simpl in H. bind_inv H as v st1 E. apply unchanged_getVar in E. red in E.
    unfold bind, getCtx in H. split_test H.
    + injection H as <-. simpl. rewrite E. exact Hwf.
    + injection H as <-. simpl. rewrite E. intros n t Hn.
      apply Hwf. unfold internal.addSymbol in Hn.
      destruct (internal.symtable (ctx st)); exact Hn.
  - apply changes_FuncDecl in H. destruct H as (_ & He & _).
    intros n t Hn. rewrite He in Hn. eapply Hwf, Hn.
Qed.

Lemma changes_functions decl :
  changes (keepsInvariant functionsWellFormed) (visitDecl decl).
Proof.
  intros st [] st' H Hwf.
  destruct decl as [name fields | var | name args results body].
  - assert (F : internal.functions (ctx st') = internal.functions (ctx st)).
    { simpl in H. bind_inv H as fs st1 E.
      apply unchanged_visitFields in E. red in E.
      unfold bind, getCtx in H.
      split_test H; injection H as <-; simpl; rewrite E; reflexivity. }
    intros n f Hn. rewrite F in Hn. eapply Hwf, Hn.
  - assert (F : internal.functions (ctx st') = internal.functions (ctx st)).
    { simpl in H. bind_inv H as v st1 E. apply unchanged_getVar in E.
      red in E. unfold bind, getCtx in H.
      split_test H; injection H as <-; simpl; rewrite E; [reflexivity |].
      unfold internal.addSymbol.
      destruct (internal.symtable (ctx st)); reflexivity. }
    intros n f Hn. rewrite F in Hn. eapply Hwf, Hn.
  - apply FuncDecl_functions in H.
    destruct H as [F | (arguments & vars & Hargs & Hres & F)];
      intros n f Hn; rewrite F in Hn; [eapply Hwf, Hn |].
    destruct (decide (name = n)) as [<- | Hne].
    + rewrite lookup_insert in Hn. destruct (decide (name = name));
        [| congruence].
      injection Hn as <-. simpl. auto.
    + rewrite lookup_insert_ne in Hn by exact Hne. eapply Hwf, Hn.
Qed.

Lemma keepsInvariant_program P program :
  (forall decl, changes (keepsInvariant P) (visitDecl decl)) ->
  changes (keepsInvariant P) (visitProgram program).
Proof.
  intros Hdecl. induction program as [| d rest IH]; simpl.
  - intros st a st' [= _ <-] HP. exact HP.
  - eapply changes_ext;
      [exact (changes_bind _ _ _ _ (Hdecl d) (fun _ => IH)) |].
    intros c c' (c1 & H1 & H2) HP. apply H2, H1, HP.
Qed.

(** Property X5: the checker keeps the registry of element types well
    formed: every entry is an element type of the name it is registered
    under, and the types of its fields are defined, because a field whose
    type did not lower is left out of the element type. *)
Theorem registered_element_types_have_defined_fields (program : Program)
    (c : internal.ProgramContext) (st' : State) :
  elementsWellFormed c ->
  typeCheck program c = (Done tt, st') ->
  elementsWellFormed (ctx st').
Proof.
  intros Hwf H.
  exact (keepsInvariant_program _ program changes_elements _ _ _ H Hwf).
Qed.

(** [element Point  a : float;  b : Missing;  end]. *)
Lemma registered_element_types_have_defined_fields_witness :
  elementsWellFormed
    (ctx (typeCheck pointWithBadField internal.emptyContext).2).
Proof.
  apply (registered_element_types_have_defined_fields pointWithBadField
           internal.emptyContext).
  - intros name t H. simpl in H. rewrite lookup_empty in H. discriminate H.
  - vm_compute. reflexivity.
Defined.

(** Property X6: the checker keeps the registry of functions well formed:
    every entry carries the name it is registered under, and the types of
    its arguments and of its results are defined, because a function with
    an argument or a result whose type did not lower is not registered. *)
Theorem registered_functions_have_defined_signatures (program : Program)
    (c : internal.ProgramContext) (st' : State) :
  functionsWellFormed c ->
  typeCheck program c = (Done tt, st') ->
  functionsWellFormed (ctx st').
Proof.
  intros Hwf H.
  exact (keepsInvariant_program _ program changes_functions _ _ _ H Hwf).
Qed.

(** The assembly over the springs. *)
Lemma registered_functions_have_defined_signatures_witness :
  functionsWellFormed (ctx (typeCheck mapOverSprings internal.emptyContext).2).
Proof.
  apply (registered_functions_have_defined_signatures mapOverSprings
           internal.emptyContext).
  - intros name f H. simpl in H. rewrite lookup_empty in H. discriminate H.
  - vm_compute. reflexivity.
Defined.

(** ** Lowering type syntax *)

Lemma grew_report st d : grew st (mkState (ctx st) (errors st ++ [d])).
Proof. exists d, []. reflexivity. Qed.

Lemma grew_trans a b c : grew a b -> grew b c -> grew a c.
Proof.
  intros (d & ds & Hb) (d' & ds' & Hc). exists d, (ds ++ d' :: ds').
  rewrite Hc, Hb, <- app_assoc. reflexivity.
Qed.

Lemma grew_neq st st' : grew st st' -> errors st' <> errors st.
Proof.
  intros (d & ds & H) Heq. rewrite Heq in H.
  apply (f_equal length) in H. rewrite length_app in H. simpl in H. lia.
Qed.

Lemma visitIndexSet_cases s st r st' :
  visitIndexSet s st = (Done r, st') ->
  (exists i, r = Some i /\ st' = st /\ declaredSet i)
  \/ (r = None /\ grew st st').
Proof.
  destruct s as [n | setName |];
    unfold visitIndexSet, bind, getCtx, reportUndeclared, reportError, ret;
    cbv beta iota.
  - intros [= <- <-]. left. eexists. repeat split.
  - destruct (internal.getSymbol (ctx st) setName) as [sym |].
    + destruct (ir.isSet (exprType (internal.getExpr sym))) eqn:Hset;
        cbv beta iota delta [negb].
      * intros [= <- <-]. left. eexists. repeat split. exact Hset.
      * intros [= <- <-]. right. split; [reflexivity | apply grew_report].
    + intros [= <- <-]. right. split; [reflexivity | apply grew_report].
  - intros [= <- <-]. left. eexists. repeat split.
Qed.

Lemma visitIndexSets_cases iss : forall tc acc st tc' acc' st',
  visitIndexSets iss tc acc st = (Done (tc', acc'), st') ->
  exists new, acc' = acc ++ new /\ Forall declaredSet new
    /\ ((tc' = tc /\ st' = st /\ length new = length iss)
        \/ (tc' = false /\ grew st st')).
Proof.
  induction iss as [| s rest IH]; intros tc acc st tc' acc' st' H; simpl in H.
  - injection H as <- <- <-. exists []. rewrite app_nil_r.
    split; [reflexivity |]. split; [constructor |]. left. auto.
  - bind_inv H as r st1 E. apply visitIndexSet_cases in E.
    destruct E as [(i & -> & -> & Hi) | (-> & Hg)].
    + apply IH in H. destruct H as (new & -> & Hnew & Hcase).
      exists (i :: new). rewrite <- app_assoc. split; [reflexivity |].
      split; [constructor; assumption |].
      destruct Hcase as [(-> & -> & Hlen) | ?]; [left | right; assumption].
      simpl. auto.
    + apply IH in H. destruct H as (new & -> & Hnew & Hcase).
      exists new. split; [reflexivity |]. split; [assumption |]. right.
      destruct Hcase as [(-> & -> & _) | [-> Hg']]; split; auto.
      eapply grew_trans; eassumption.
Qed.

(** What [visit(NDTensorType)] returns: a well-formed tensor type and no
    diagnostic, or the undefined type and a diagnostic. *)
Lemma visitTensorType_cases t : forall st ty st',
  visitTensorType t st = (Done ty, st') ->
  (wellFormedTensor ty /\ st' = st)
  \/ (ty = ir.Undefined /\ grew st st').
Proof.
  induction t as [k | iss block IH col]; intros st ty st' H; simpl in H.
  - injection H as <- <-. left. split; [| reflexivity].
    destruct k; simpl; repeat split; try constructor; try discriminate;
      exists 0%nat; constructor.
  - bind_inv H as blockType st1 E. apply IH in E.
    bind_inv H as checked st2 E0. destruct checked as [tc indexSets].
    apply visitIndexSets_cases in E0.
    destruct E0 as (new & Hacc & Hnew & Hcase). simpl in Hacc. subst indexSets.
    destruct E as [[Hwf ->] | [-> Hg]].
    + (* the block type is well formed *)
      destruct blockType as [| c bdims bcol | | |]; try contradiction.
      destruct Hcase as [(-> & -> & Hlen) | [-> Hg]]; simpl in H;
        [| injection H as <- <-; right; auto].
      destruct Hwf as (Hdims & (depth & Hdepth) & Hcol).
      unfold ir.IndexDomain in *.
      destruct new as [| i new].
      * (* no index sets: the block type itself *)
        unfold bind, ret in H. simpl in H.
        destruct col.
        -- destruct (length bdims =? 1)%nat eqn:Hone; simpl in H.
           ++ injection H as <- <-. left. split; [| reflexivity].
              apply Nat.eqb_eq in Hone. repeat split; eauto.
           ++ injection H as <- <-. right. split; [reflexivity |].
              apply grew_report.
        -- injection H as <- <-. left. split; [| reflexivity].
           repeat split; eauto.
      * unfold bind at 1 in H. unfold bind at 1 in H. unfold toTensor at 1 in H.
        unfold ret at 1 in H. cbv beta iota in H.
        inversion Hnew as [| ? ? Hi Hnew']; subst.
        destruct (length bdims =? 0)%nat eqn:Hzero.
        -- (* scalar blocks *)
           unfold ret at 1 in H. cbv beta iota in H. simpl in H.
           assert (Hwf' : Forall (fun d => d <> [] /\ Forall declaredSet d)
                            ((fun i => [i]) <$> i :: new)).
           { apply Forall_fmap, Forall_forall. intros x Hx. simpl.
             split; [discriminate |]. constructor; [| constructor].
             rewrite Forall_forall in Hnew. apply Hnew, Hx. }
           assert (Hdepth' : Forall (fun d : list ir.IndexSet => length d = 1%nat)
                            ((fun i => [i]) <$> i :: new)).
           { apply Forall_fmap, Forall_forall. intros x Hx. reflexivity. }
           destruct col.
           ++ unfold bind, toTensor, ret in H. simpl in H.
              rewrite length_fmap in H.
              destruct (length new =? 0)%nat eqn:Hone; simpl in H.
              ** injection H as <- <-. left. split; [| reflexivity].
                 apply Nat.eqb_eq in Hone.
                 split; [exact Hwf' |]. split; [eauto |].
                 intros _. simpl. rewrite length_fmap. lia.
              ** injection H as <- <-. right. split; [reflexivity |].
                 apply grew_report.
           ++ injection H as <- <-. left. split; [| reflexivity].
              split; [exact Hwf' |]. split; [eauto | discriminate].
        -- destruct (length bdims =? length (i :: new))%nat eqn:Hsame.
           ++ (* blocked dimensions *)
              unfold ret at 1 in H. cbv beta iota in H.
              apply Nat.eqb_eq in Hsame.
              assert (Hwf' : Forall (fun d => d <> [] /\ Forall declaredSet d)
                               (blockedDimensions (i :: new) bdims)).
              { unfold blockedDimensions. clear -Hnew Hdims.
                revert bdims Hdims.
                induction Hnew as [| x xs Hx _ IHx]; intros [| b bs] Hb;
                  simpl; try constructor.
                - split; [discriminate |]. constructor; [exact Hx |].
                  inversion Hb as [| ? ? [_ ?] ?]; assumption.
                - apply IHx. inversion Hb; assumption. }
              assert (Hdepth' : Forall (fun d : list ir.IndexSet =>
                                         length d = S depth)
                                  (blockedDimensions (i :: new) bdims)).
              { unfold blockedDimensions. clear -Hdepth.
                revert bdims Hdepth. generalize (i :: new).
                induction l as [| x xs IHx]; intros [| b bs] Hb;
                  simpl; try constructor.
                - simpl. inversion Hb; subst. reflexivity.
                - apply IHx. inversion Hb; assumption. }
              assert (Hlen' : length (blockedDimensions (i :: new) bdims)
                              = length (i :: new)).
              { unfold blockedDimensions. rewrite length_zip_with. lia. }
              unfold ir.IndexDomain in *.
              destruct col.
              ** unfold bind, toTensor, ret in H. simpl ir.defined in H.
                 cbv beta iota delta [negb] in H.
                 rewrite Hlen' in H.
                 destruct (length (i :: new) =? 1)%nat eqn:Hone; simpl in H.
                 --- injection H as <- <-. left. split; [| reflexivity].
                     apply Nat.eqb_eq in Hone.
                     split; [exact Hwf' |]. split; [eauto |].
                     intros _. exact (eq_trans Hlen' Hone).
                 --- injection H as <- <-. right. split; [reflexivity |].
                     apply grew_report.
              ** injection H as <- <-. left. split; [| reflexivity].
                 split; [exact Hwf' |]. split; [eauto | discriminate].
           ++ unfold bind, reportError, ret in H. simpl in H.
              injection H as <- <-. right. split; [reflexivity |].
              apply grew_report.
    + (* the block type is undefined *)
      simpl in Hcase.
      assert (tc = false) as -> by (destruct Hcase as [(-> & _) | [-> _]]; reflexivity).
      simpl in H. injection H as <- <-. right. split; [reflexivity |].
      destruct Hcase as [(_ & -> & _) | [_ Hg']]; [exact Hg |].
      eapply grew_trans; eassumption.
Qed.

Lemma visitElementType_cases ident st ty st' :
  registryDefined (ctx st) ->
  visitElementType ident st = (Done ty, st') ->
  (ir.defined ty = true /\ st' = st) \/ (ty = ir.Undefined /\ grew st st').
Proof.
  intros Hreg. unfold visitElementType, bind, getCtx, internal.getElementType.
  cbv beta iota.
  destruct (internal.elementTypes (ctx st) !! ident) as [t |] eqn:E.
  - intros [= <- <-]. left. split; [eapply Hreg, E | reflexivity].
  - intros [= <- <-]. right. split; [reflexivity | apply grew_report].
Qed.

Lemma visitEndpoints_cases ends : forall tc eps st tc' eps' st',
  visitEndpoints ends tc eps st = (Done (tc', eps'), st') ->
  (tc' = tc /\ st' = st) \/ (tc' = false /\ grew st st').
Proof.
  induction ends as [| e rest IH]; intros tc eps st tc' eps' st' H;
    simpl in H.
  - injection H as <- <- <-. left. auto.
  - bind_inv H as endpoint st1 E.
    assert (Hfail : forall eps1 st2,
              grew st st2 ->
              visitEndpoints rest false eps1 st2 = (Done (tc', eps'), st') ->
              tc' = false /\ grew st st').
    { intros eps1 st2 Hg H2. apply IH in H2.
      destruct H2 as [[-> ->] | [-> Hg']]; split; auto.
      eapply grew_trans; eassumption. }
    unfold visitEndpoint, bind, getCtx, reportUndeclared, reportError, ret in E.
    cbv beta iota in E.
    destruct (internal.getSymbol (ctx st) e) as [sym |].
    + injection E as <- <-.
      destruct (ir.isSet (exprType (internal.getExpr sym))) eqn:Hset;
        cbv beta iota delta [negb] in H.
      * apply IH in H. exact H.
      * unfold bind at 1 in H. unfold reportError at 1 in H.
        cbv beta iota in H. right. eapply Hfail; [| exact H].
        apply grew_report.
    + injection E as <- <-. right. eapply Hfail; [| exact H].
      apply grew_report.
Qed.

Lemma wellFormedTensor_defined t : wellFormedTensor t -> ir.defined t = true.
Proof. destruct t; simpl; [contradiction | reflexivity | contradiction ..]. Qed.

Lemma getIRType_cases t st ty st' :
  registryDefined (ctx st) ->
  getIRType t st = (Done ty, st') ->
  (ir.defined ty = true /\ st' = st) \/ (ty = ir.Undefined /\ grew st st').
Proof.
  intros Hreg H. destruct t as [ident | element ends | element len | ten];
    simpl in H.
  - eapply visitElementType_cases; eassumption.
  - unfold visitSetType in H. bind_inv H as elementType st1 E.
    apply (visitElementType_cases _ _ _ _ Hreg) in E.
    bind_inv H as checked st2 E0. destruct checked as [tc eps].
    apply visitEndpoints_cases in E0.
    destruct E as [[Hdef ->] | [-> Hg]].
    + rewrite Hdef in E0.
      destruct E0 as [[-> ->] | [-> Hg]]; simpl in H; injection H as <- <-;
        [left | right]; auto.
    + simpl in E0.
      assert (tc = false) as ->
        by (destruct E0 as [[-> _] | [-> _]]; reflexivity).
      simpl in H. injection H as <- <-. right. split; [reflexivity |].
      destruct E0 as [[_ ->] | [_ Hg']]; [exact Hg |].
      eapply grew_trans; eassumption.
  - unfold visitTupleType in H. bind_inv H as elementType st1 E.
    apply (visitElementType_cases _ _ _ _ Hreg) in E.
    destruct (len <? 1)%Z.
    + unfold bind, reportError, ret in H. cbv beta iota in H.
      injection H as <- <-. right. split; [reflexivity |].
      destruct E as [[_ ->] | [_ Hg]]; [apply grew_report |].
      eapply grew_trans; [exact Hg | apply grew_report].
    + destruct E as [[Hdef ->] | [-> Hg]].
      * rewrite Hdef in H. simpl in H. injection H as <- <-. left. auto.
      * simpl in H. injection H as <- <-. right. auto.
  - apply visitTensorType_cases in H.
    destruct H as [[Hwf ->] | ?]; [left | right; assumption].
    split; [apply wellFormedTensor_defined, Hwf | reflexivity].
Qed.

(** Property X7: where every registered element type is defined, lowering
    a type either gives a defined type and leaves the state alone, or gives
    the undefined type and appends at least one diagnostic: no type fails to
    lower silently, and no diagnostic comes with a defined type. *)
Theorem lowering_fails_loudly (t : Type_) (st : State) (ty : ir.Type_)
    (st' : State) :
  registryDefined (ctx st) ->
  getIRType t st = (Done ty, st') ->
  (ir.defined ty = true /\ st' = st)
  \/ (ty = ir.Undefined
      /\ exists d ds, errors st' = errors st ++ d :: ds).
Proof. apply getIRType_cases. Qed.

(** [tensor[3,V](float)] where no [V] is declared. *)
Lemma lowering_fails_loudly_witness :
  let st := mkState internal.emptyContext [] in
  let st' := (getIRType undeclaredDimension st).2 in
  (ir.defined ir.Undefined = true /\ st' = st)
  \/ (ir.Undefined = ir.Undefined
      /\ exists d ds, errors st' = errors st ++ d :: ds).
Proof.
  intros st st'.
  apply (lowering_fails_loudly undeclaredDimension st ir.Undefined st').
  - intros name t H. simpl in H. rewrite lookup_empty in H. discriminate H.
  - vm_compute. reflexivity.
Defined.

(** Property X8: a defined type that a tensor type lowers to is a tensor
    type in which no dimension is empty, every index set that is a set is a
    variable of set type, all dimensions are nested to the same depth, and
    the column-vector flag is set only at order 1. *)
Theorem lowered_tensor_types_are_well_formed (t : TensorType) (st : State)
    (ty : ir.Type_) (st' : State) :
  visitTensorType t st = (Done ty, st') ->
  ir.defined ty = true ->
  wellFormedTensor ty.
Proof.
  intros H Hdef. apply visitTensorType_cases in H.
  destruct H as [[Hwf _] | [-> _]]; [exact Hwf | discriminate].
Qed.

(** [tensor[2,2](tensor[3,3](float))]. *)
Lemma lowered_tensor_types_are_well_formed_witness :
  wellFormedTensor
    (ir.TensorType ir.Float
       [[ir.Range 2; ir.Range 3]; [ir.Range 2; ir.Range 3]] false).
Proof.
  apply (lowered_tensor_types_are_well_formed blockedMatrix
           (mkState internal.emptyContext []) _
           (mkState internal.emptyContext []));
    [vm_compute; reflexivity | reflexivity].
Defined.

(** ** Declaring a name twice *)

Lemma grew_acc_l a b c : accumulates a b -> grew b c -> grew a c.
Proof.
  intros [k Hk] (d & ds & Hc). exists (hd d (k ++ [d])), (tl (k ++ d :: ds)).
  rewrite Hc, Hk, <- app_assoc. destruct k; reflexivity.
Qed.

Lemma grew_acc_r a b c : grew a b -> accumulates b c -> grew a c.
Proof.
  intros (d & ds & Hb) [k Hk]. exists d, (ds ++ k).
  rewrite Hk, Hb, <- app_assoc. reflexivity.
Qed.

Lemma acc_run {A} (m : M A) st o st' :
  good accumulates m -> m st = (o, st') -> accumulates st st'.
Proof. intros Hm E. destruct (Hm st) as [_ H]. rewrite E in H. exact H. Qed.

Lemma accumulates_app a b :
  accumulates a b -> exists ds, errors b = errors a ++ ds.
Proof. intros [ds E]. exists ds. exact E. Qed.

Lemma grew_ends st st' ds d :
  errors st' = errors st ++ ds ++ [d] -> grew st st'.
Proof.
  intros E. destruct ds as [| d0 ds].
  - exists d, []. exact E.
  - exists d0, (ds ++ [d]). exact E.
Qed.

Lemma ends_report st st1 d :
  accumulates st st1 ->
  exists ds, errors st1 ++ [d] = errors st ++ ds ++ [d].
Proof.
  intros [ds E]. exists ds. rewrite E, <- app_assoc. reflexivity.
Qed.

Ltac acc_of lemma :=
  eapply acc_run; [| eassumption];
  apply (lemma accumulates);
  first [ exact accumulates_refl | exact accumulates_trans
        | exact accumulates_report | exact accumulates_modify ].

Lemma registryDefined_elements c c' :
  internal.elementTypes c' = internal.elementTypes c ->
  registryDefined c -> registryDefined c'.
Proof. unfold registryDefined. intros ->. auto. Qed.

(** The loops over the arguments and the results clear [typeChecked] only
    after a diagnostic. *)
Lemma visitArguments_loud args : forall typeChecked st tc arguments st',
  registryDefined (ctx st) ->
  visitArguments args typeChecked st = (Done (tc, arguments), st') ->
  tc = typeChecked \/ (tc = false /\ grew st st').
Proof.
  induction args as [| a rest IH];
    intros typeChecked st tc arguments st' Hreg H; simpl in H.
  - injection H as <- _ _. left. reflexivity.
  - bind_inv H as argVar st1 E.
    assert (Hv : exists t, argVar = ir.mkVar (name (arg a)) t
                           /\ getIRType (type (arg a)) st = (Done t, st1)).
    { unfold getVar in E. bind_inv E as t st0 E0. injection E as <- <-.
      eauto. }
    destruct Hv as (t & -> & Ht). cbn [ir.getType] in H.
    destruct (getIRType_cases _ _ _ _ Hreg Ht) as [[Hdef ->] | [-> Hg]].
    + rewrite Hdef in H. simpl in H.
      bind_inv H as u st2 E2. injection E2 as _ <-.
      bind_inv H as p st3 E3. destruct p as [tc' others].
      injection H as <- _ <-.
      assert (Hreg' : registryDefined
                (ctx (mkState
                   (internal.addSymbol (ctx st) (name (arg a))
                      (ir.mkVar (name (arg a)) t)
                      (if inout a then internal.ReadWrite
                       else internal.Read)) (errors st)))).
      { eapply registryDefined_elements; [| exact Hreg].
        simpl. unfold internal.addSymbol.
        destruct (internal.symtable (ctx st)); reflexivity. }
      destruct (IH _ _ _ _ _ Hreg' E3) as [-> | [-> Hg]];
        [left; reflexivity | right].
      split; [reflexivity |]. destruct Hg as (d & ds & Hg).
      exists d, ds. exact Hg.
    + simpl in H.
      assert (Hreg' : registryDefined (ctx st1)).
      { apply unchanged_getVar in E. red in E. rewrite E. exact Hreg. }
      right.
      assert (Hacc : accumulates st1 st') by acc_of good_visitArguments.
      destruct (IH _ _ _ _ _ Hreg' H) as [-> | [-> _]];
        (split; [reflexivity | eapply grew_acc_r; eassumption]).
Qed.

Lemma visitResults_loud results : forall typeChecked st tc vars st',
  registryDefined (ctx st) ->
  visitResults results typeChecked st = (Done (tc, vars), st') ->
  tc = typeChecked \/ (tc = false /\ grew st st').
Proof.
  induction results as [| r rest IH];
    intros typeChecked st tc vars st' Hreg H; simpl in H.
  - injection H as <- _ _. left. reflexivity.
  - bind_inv H as result st1 E.
    assert (Hv : exists t, result = ir.mkVar (name r) t
                           /\ getIRType (type r) st = (Done t, st1)).
    { unfold getVar in E. bind_inv E as t st0 E0. injection E as <- <-.
      eauto. }
    destruct Hv as (t & -> & Ht). cbn [ir.getType] in H.
    destruct (getIRType_cases _ _ _ _ Hreg Ht) as [[Hdef ->] | [-> Hg]].
    + rewrite Hdef in H. simpl in H.
      bind_inv H as u st2 E2. injection E2 as _ <-.
      bind_inv H as p st3 E3. destruct p as [tc' others].
      injection H as <- _ <-.
      assert (Hreg' : registryDefined
                (ctx (mkState
                   (internal.addSymbol (ctx st) (name r)
                      (ir.mkVar (name r) t) internal.ReadWrite)
                   (errors st)))).
      { eapply registryDefined_elements; [| exact Hreg].
        simpl. unfold internal.addSymbol.
        destruct (internal.symtable (ctx st)); reflexivity. }
      destruct (IH _ _ _ _ _ Hreg' E3) as [-> | [-> Hg]];
        [left; reflexivity | right].
      split; [reflexivity |]. destruct Hg as (d & ds & Hg).
      exists d, ds. exact Hg.
    + simpl in H.
      assert (Hreg' : registryDefined (ctx st1)).
      { apply unchanged_getVar in E. red in E. rewrite E. exact Hreg. }
      right.
      assert (Hacc : accumulates st1 st') by acc_of good_visitResults.
      destruct (IH _ _ _ _ _ Hreg' H) as [-> | [-> _]];
        (split; [reflexivity | eapply grew_acc_r; eassumption]).
Qed.

Lemma context_eq (c c' : internal.ProgramContext) :
  internal.symtable c' = internal.symtable c ->
  internal.elementTypes c' = internal.elementTypes c ->
  internal.functions c' = internal.functions c ->
  c' = c.
Proof. destruct c, c'. simpl. intros -> -> ->. reflexivity. Qed.

(** A second declaration of an element type or of a symbol. *)
Lemma redeclared_element ident fields st st' :
  internal.containsElementType (ctx st) ident = true ->
  visitDecl (ElementTypeDecl ident fields) st = (Done tt, st') ->
  ctx st' = ctx st
  /\ exists ds,
       errors st'
       = errors st ++ ds
         ++ [multipleDefinitions (ElementTypeDecl ident fields)].
Proof.
  intros Hc H. cbn [visitDecl] in H. bind_inv H as fs st1 E.
  assert (Hacc : accumulates st st1) by acc_of good_visitFields.
  apply unchanged_visitFields in E. red in E.
  unfold bind, getCtx in H. rewrite E, Hc in H.
  injection H as <-. split; [exact E |]. apply ends_report, Hacc.
Qed.

Lemma redeclared_extern var st st' :
  internal.hasSymbol (ctx st) (name var) false = true ->
  visitDecl (ExternDecl var) st = (Done tt, st') ->
  ctx st' = ctx st
  /\ exists ds,
       errors st' = errors st ++ ds ++ [multipleDefinitions (ExternDecl var)].
Proof.
  intros Hc H. cbn [visitDecl] in H. bind_inv H as externVar st1 E.
  assert (Hacc : accumulates st st1) by acc_of good_getVar.
  assert (Hn : ir.getName externVar = name var).
  { unfold getVar in E. bind_inv E as t st0 E0. injection E as <- _.
    reflexivity. }
  apply unchanged_getVar in E. red in E.
  unfold bind, getCtx in H. rewrite Hn, E, Hc in H.
  injection H as <-. split; [exact E |]. apply ends_report, Hacc.
Qed.

(** A second declaration of a function: the signature is lowered and the
    body is checked before the name is looked up. *)
Lemma redeclared_function ident args results body st st' :
  internal.containsFunction (ctx st) ident = true ->
  visitDecl (FuncDecl ident args results body) st = (Done tt, st') ->
  ctx st' = ctx st
  /\ (registryDefined (ctx st) -> grew st st')
  /\ (signatureLowers (FuncDecl ident args results body) st ->
      exists ds,
        errors st'
        = errors st ++ ds
          ++ [multipleDefinitions (FuncDecl ident args results body)]).
Proof.
  intros Hc H.
  assert (Hctx : ctx st' = ctx st).
  { destruct (changes_FuncDecl _ _ _ _ _ _ _ H) as (Hs & He & Hf).
    apply context_eq; [exact Hs | exact He |].
    destruct Hf as [Hf | [Hnone _]]; [exact Hf |].
    unfold internal.containsFunction in Hc.
    apply bool_decide_eq_true in Hc. rewrite Hnone in Hc.
    destruct Hc as [f Hf]. discriminate Hf. }
  split; [exact Hctx |].
  cbn [visitDecl] in H.
  bind_inv H as u1 st1 E1. injection E1 as _ <-.
  bind_inv H as p st2 E2. destruct p as [tc arguments].
  bind_inv H as q st3 E3. destruct q as [tc' vars].
  bind_inv H as u4 st4 E4. bind_inv H as u5 st5 E5. injection E5 as _ <-.
  assert (A2 : accumulates st st2).
  { assert (A : accumulates (mkState (internal.scope (ctx st)) (errors st))
                 st2) by acc_of good_visitArguments.
    exact A. }
  assert (A3 : accumulates st2 st3) by acc_of good_visitResults.
  assert (A4 : accumulates st3 st4) by acc_of good_visitStmtBlock.
  pose proof (accumulates_trans _ _ _ A2 (accumulates_trans _ _ _ A3 A4))
    as A.
  pose proof E2 as L2. pose proof E3 as L3. pose proof E4 as L4.
  apply local_visitArguments in L2. apply local_visitResults in L3.
  apply local_visitStmtBlock in L4.
  destruct L2 as (_ & _ & T2 & F2), L3 as (_ & _ & T3 & F3),
    L4 as (_ & _ & T4 & F4). simpl in F2, T2.
  assert (Hc4 : internal.containsFunction
                  (internal.unscope (ctx st4)) ident = true).
  { unfold internal.containsFunction in *. simpl.
    rewrite F4, F3, F2. exact Hc. }
  assert (Hend : tc' = true ->
                 exists ds,
                   errors st'
                   = errors st ++ ds
                     ++ [multipleDefinitions
                           (FuncDecl ident args results body)]).
  { intros ->. simpl in H. unfold bind, getCtx in H. cbn [ctx] in H.
    rewrite Hc4 in H. injection H as <-. apply (ends_report st), A. }
  split.
  - intros Hreg. destruct tc' eqn:Htc'.
    + destruct (Hend eq_refl) as [ds Hds]. eapply grew_ends, Hds.
    + simpl in H. injection H as <-.
      assert (G : grew st st4 -> grew st
                    (mkState (internal.unscope (ctx st4)) (errors st4))).
      { intros (d & ds & Hg). exists d, ds. exact Hg. }
      apply G.
      assert (Hreg1 : registryDefined
                (ctx (mkState (internal.scope (ctx st)) (errors st))))
        by exact Hreg.
      assert (Hreg2 : registryDefined (ctx st2))
        by (eapply registryDefined_elements; [exact T2 | exact Hreg]).
      destruct (visitResults_loud _ _ _ _ _ _ Hreg2 E3) as [<- | [_ Hg]].
      * destruct (visitArguments_loud _ _ _ _ _ _ Hreg1 E2)
          as [Habs | [_ Hg]]; [discriminate Habs |].
        apply (grew_acc_r st st2 st4);
          [| exact (accumulates_trans _ _ _ A3 A4)].
        destruct Hg as (d & ds & Hg). exists d, ds. exact Hg.
      * apply (grew_acc_r st st3 st4); [| exact A4].
        exact (grew_acc_l st st2 st3 A2 Hg).
  - intros (arguments' & st1' & vars' & st2' & S1 & S2).
    rewrite S1 in E2. injection E2 as <- <- <-.
    rewrite S2 in E3. injection E3 as <- <- <-.
    apply Hend. reflexivity.
Qed.

(** Property X4: a check that completes never replaces a declaration:
    every symbol visible in the context it started from, every element type
    and every function is in the final context with the definition it had.
    A declaration of a name that is taken is dropped and reported: it
    leaves the context as it was; where every registered element type is
    defined it adds at least one diagnostic; and the diagnostics end with
    the one for multiple definitions, for an element type, for an extern
    and for a function whose arguments and results have defined types. *)
Theorem declarations_are_never_replaced :
  (forall program c st',
     typeCheck program c = (Done tt, st') -> extends c (ctx st'))
  /\ (forall decl st st',
        redeclares (ctx st) decl ->
        visitDecl decl st = (Done tt, st') ->
        ctx st' = ctx st
        /\ (registryDefined (ctx st) ->
            exists d ds, errors st' = errors st ++ d :: ds)
        /\ (signatureLowers decl st ->
            exists ds,
              errors st' = errors st ++ ds ++ [multipleDefinitions decl])).
Proof.
  split.
  - intros program c st' H. exact (changes_visitProgram program _ _ _ H).
  - intros decl st st' Hre H.
    destruct decl as [ident fields | var | ident args results body];
      cbn [redeclares] in Hre.
    + destruct (redeclared_element _ _ _ _ Hre H) as [Hctx [ds Hds]].
      split; [exact Hctx |].
      split; [intros _; eapply grew_ends, Hds | intros _; eauto].
    + destruct (redeclared_extern _ _ _ Hre H) as [Hctx [ds Hds]].
      split; [exact Hctx |].
      split; [intros _; eapply grew_ends, Hds | intros _; eauto].
    + exact (redeclared_function _ _ _ _ _ _ Hre H).
Qed.

(** [proc f end] where a function [f] is registered, and
    [func f(a : float) -> (r : float)  r = a;  end] declared there. *)
Lemma declarations_are_never_replaced_witness :
  let st := mkState contextWithF [] in
  let st' := (visitDecl copyFunction st).2 in
  extends contextWithF (ctx (typeCheck declaresFAgain contextWithF).2)
  /\ redeclares (ctx st) copyFunction
  /\ ctx st' = ctx st
  /\ exists ds,
       errors st' = errors st ++ ds ++ [multipleDefinitions copyFunction].
Proof.
  intros st st'.
  split.
  { apply (proj1 declarations_are_never_replaced declaresFAgain
             contextWithF).
    vm_compute. reflexivity. }
  assert (Hre : redeclares (ctx st) copyFunction)
    by (vm_compute; reflexivity).
  split; [exact Hre |].
  destruct (proj2 declarations_are_never_replaced copyFunction st st' Hre)
    as (Hctx & _ & Hrep); [vm_compute; reflexivity |].
  split; [exact Hctx |]. apply Hrep.
  set (inner := mkState (internal.scope (ctx st)) (errors st)).
  set (args := [mkArgument (mkIdentDecl "a" (Tensor (ScalarType FLOAT)))
                  false]).
  set (st1 := (visitArguments args true inner).2).
  exists [ir.mkVar "a" (ir.scalar ir.Float)], st1,
    [ir.mkVar "r" (ir.scalar ir.Float)],
    (visitResults [mkIdentDecl "r" (Tensor (ScalarType FLOAT))] true st1).2.
  split; vm_compute; reflexivity.
Defined.

(** ** Expressions that publish no type *)

Ltac acc_by lemma :=
  apply (lemma accumulates);
  first [ exact accumulates_refl | exact accumulates_trans
        | exact accumulates_report ].

Lemma acc_inferType w s e : good accumulates (inferType w s e).
Proof. acc_by good_inferType. Qed.

Lemma acc_checkBinaryElwise expr lhs rhs lt rt :
  good accumulates (checkBinaryElwise expr lhs rhs lt rt).
Proof. acc_by good_checkBinaryElwise. Qed.

Lemma acc_checkMul expr lhs rhs lt rt :
  good accumulates (checkMul expr lhs rhs lt rt).
Proof. acc_by good_checkMul. Qed.

Lemma acc_checkDiv expr lhs rhs lt rt :
  good accumulates (checkDiv expr lhs rhs lt rt).
Proof. acc_by good_checkDiv. Qed.

Lemma acc_checkNeg operand t : good accumulates (checkNeg operand t).
Proof. acc_by good_checkNeg. Qed.

Lemma acc_checkTranspose operand t : good accumulates (checkTranspose operand t).
Proof. acc_by good_checkTranspose. Qed.

Lemma acc_checkFieldRead expr setOrElem field t :
  good accumulates (checkFieldRead expr setOrElem field t).
Proof. acc_by good_checkFieldRead. Qed.

(** A diagnostic was appended to the state the goal starts from. *)
Ltac reported :=
  unfold grew; simpl; rewrite <- ?app_assoc; simpl;
  do 2 eexists; reflexivity.

(** A check that published no type, after all its tests are decided:
    either it did publish, or it reported. *)
Ltac none_reported :=
  unfold bind, ret, when, reportError, abort, iassert; simpl; split_ifs;
  intros H; first [ discriminate H | injection H as <-; reported ].

(** Case analysis on whether the operands are numeric tensors. *)
Ltac split_numeric lt rt :=
  destruct (numericTensor lt) as [[[? ?] ?] |];
  destruct (numericTensor rt) as [[[? ?] ?] |].

Lemma checkBinaryElwise_loud expr lhs rhs lt rt st st' :
  checkBinaryElwise expr lhs rhs (Some lt) (Some rt) st = (Done None, st') ->
  grew st st'.
Proof.
  unfold checkBinaryElwise, checkNumericOperand, compareTypes.
  split_numeric lt rt; none_reported.
Qed.

Lemma checkDiv_loud expr lhs rhs lt rt st st' :
  checkDiv expr lhs rhs (Some lt) (Some rt) st = (Done None, st') ->
  grew st st'.
Proof.
  unfold checkDiv, checkNumericOperand. split_numeric lt rt; none_reported.
Qed.

Lemma checkNeg_loud operand t st st' :
  checkNeg operand (Some t) st = (Done None, st') -> grew st st'.
Proof.
  unfold checkNeg. destruct (numericTensor t) as [[[? ?] ?] |]; none_reported.
Qed.

Lemma checkTranspose_loud operand t st st' :
  checkTranspose operand (Some t) st = (Done None, st') -> grew st st'.
Proof.
  unfold checkTranspose.
  destruct t as [| [| ? [| ? [| ? [| ? ?]]] ? | | |] [| ? ?]]; none_reported.
Qed.

Lemma mulTensors_loud expr lt rt lc ld lcol rc rd rcol st st' :
  mulTensors expr lt rt lc ld lcol rc rd rcol st = (Done None, st') ->
  grew st st'.
Proof.
  unfold mulTensors.
  destruct ld as [| l0 [| l1 [| l2 ld]]];
    destruct rd as [| r0 [| r1 [| r2 rd]]]; none_reported.
Qed.

Lemma checkMul_loud expr lhs rhs lt rt st st' :
  checkMul expr lhs rhs (Some lt) (Some rt) st = (Done None, st') ->
  grew st st'.
Proof.
  unfold checkMul, checkNumericOperand.
  split_numeric lt rt; try solve [ none_reported ].
  unfold bind, ret. apply mulTensors_loud.
Qed.

(** The tests a check branches on, decided one after the other in the
    hypothesis that says how the check ended. *)
Ltac decide_tests_in H :=
  unfold bind, ret, when, reportError, abort, iassert in H;
  repeat (cbn beta iota delta [negb andb orb] in H;
          match type of H with
          | context [match ?x with _ => _ end] =>
              tryif (match type of x with (_ * _)%type => idtac end)
              then fail else destruct x eqn:?
          end);
  cbn beta iota delta [negb andb orb] in H;
  first [ discriminate H | injection H as <-; reported ].

Lemma acc_getFieldType setExpr fieldName :
  good accumulates (getFieldType setExpr fieldName).
Proof. acc_by good_getFieldType. Qed.

Lemma checkFieldRead_loud expr setOrElem field t st st' :
  checkFieldRead expr setOrElem field (Some t) st = (Done None, st') ->
  grew st st'.
Proof.
  intros H. unfold checkFieldRead in H.
  destruct t as [| type [| ? ?]]; [decide_tests_in H | | decide_tests_in H].
  bind_inv H as elemType st1 E.
  assert (st1 = st) as ->.
  { destruct type as [| | | [] |]; unfold ret, abort in E; congruence. }
  clear E.
  destruct elemType as [fields |]; [| decide_tests_in H].
  destruct (lookupField fields field); [| decide_tests_in H].
  destruct (ir.isElement type); [discriminate H |].
  destruct setOrElem; try discriminate H.
  unfold bind at 1 in H. unfold getCtx at 1 in H.
  destruct (internal.getSymbol (ctx st) ident) as [sym |];
    [| discriminate H].
  bind_inv H as fieldType st2 E.
  apply (acc_run _ _ _ _ (acc_getFieldType _ _)) in E.
  eapply grew_acc_l; [exact E |].
  unfold toTensor in H. destruct fieldType; try discriminate H.
  decide_tests_in H.
Qed.

Lemma visitVarExpr_loud w expr ident : loud (visitVarExpr w false expr ident).
Proof.
  intros st st' Hsym H.
  unfold visitVarExpr, bind, getCtx, when, reportUndeclared, reportError, ret
    in H.
  cbv beta iota in H.
  destruct (internal.getSymbol (ctx st) ident) as [sym |] eqn:E.
  - rewrite (Hsym _ _ E) in H. decide_tests_in H.
  - simpl in H. injection H as <-. reported.
Qed.

Lemma typeCheckDenseTensorLiteral_loud lit st st' :
  typeCheckDenseTensorLiteral lit st = (Done None, st') -> grew st st'.
Proof.
  intros H.
  unfold typeCheckDenseTensorLiteral, tryCatch, bind, lift, iassert, ret,
    abort, reportError in H.
  decide_tests_in H.
Qed.

Lemma publishes_bind {A} (m : M A) (k : A -> M (option ExprType)) :
  (forall a, publishes (k a)) -> publishes (bind m k).
Proof.
  intros Hk st r st'. unfold bind.
  destruct (m st) as [[a | e | x] st1]; try discriminate. apply Hk.
Qed.

Lemma publishes_ret t : publishes (ret (Some t)).
Proof. intros st r st' [= <- _]. discriminate. Qed.

Lemma publishes_abort x : publishes (abort x).
Proof. intros st r st'. discriminate. Qed.

Ltac publishes_auto :=
  repeat first
    [ apply publishes_ret
    | apply publishes_abort
    | apply publishes_bind; intros ?
    | match goal with
      | |- publishes (match ?x with _ => _ end) => destruct x
      | |- publishes (if ?b then _ else _) => destruct b
      end ].

Lemma checkCall_publishes expr func argTypes :
  publishes (checkCall expr func argTypes).
Proof. unfold checkCall. publishes_auto. Qed.

Lemma checkBinaryBoolean_publishes lhs rhs lt rt :
  publishes (checkBinaryBoolean lhs rhs lt rt).
Proof. unfold checkBinaryBoolean, boolType. publishes_auto. Qed.

Lemma checkNot_publishes operand t : publishes (checkNot operand t).
Proof. unfold checkNot, boolType. publishes_auto. Qed.

Lemma checkMap_loud expr funcName targetName partialActuals actualsType
    st st' :
  checkMap expr funcName targetName partialActuals actualsType st
  = (Done None, st') ->
  grew st st'.
Proof.
  unfold checkMap. unfold bind at 1. unfold getCtx at 1. cbv beta iota.
  destruct (internal.getFunction (ctx st) funcName) as [f |].
  - unfold bind at 1. unfold ret at 1. cbv beta iota. simpl fmap.
    intros H. exfalso. revert H.
    match goal with
    | |- ?m st = _ -> _ =>
        assert (Hp : publishes m) by publishes_auto;
        intros H; exact (Hp _ _ _ H eq_refl)
    end.
  - intros H. unfold reportUndeclared in H. decide_tests_in H.
Qed.

(** A visit that always publishes did not end without a type. *)
Ltac never_none :=
  match goal with
  | |- ?m ?st = (Done None, _) -> False =>
      let Hp := fresh in
      let H := fresh in
      assert (Hp : publishes m) by publishes_auto;
      intros H; exact (Hp _ _ _ H eq_refl)
  end.

Lemma loud_publishes m : publishes m -> loud m.
Proof. intros Hm st st' _ H. destruct (Hm _ _ _ H eq_refl). Qed.

Lemma loud_unary w operand (check : option ExprType -> M (option ExprType)) :
  loud (inferType w false operand) ->
  (forall t, good accumulates (check t)) ->
  (forall t st st', check (Some t) st = (Done None, st') -> grew st st') ->
  loud (let* t := inferType w false operand in check t).
Proof.
  intros Ho Hacc Hcheck st st' Hsym H. bind_inv H as t st1 E.
  destruct t as [t |].
  - eapply grew_acc_l; [exact (acc_run _ _ _ _ (acc_inferType _ _ _) E) |].
    eapply Hcheck, H.
  - eapply grew_acc_r; [exact (Ho _ _ Hsym E) |].
    exact (acc_run _ _ _ _ (Hacc _) H).
Qed.

Lemma loud_binary lhs rhs
    (check : option ExprType -> option ExprType -> M (option ExprType)) :
  loud (inferType false false lhs) ->
  loud (inferType false false rhs) ->
  (forall lt rt, good accumulates (check lt rt)) ->
  (forall lt rt st st',
     check (Some lt) (Some rt) st = (Done None, st') -> grew st st') ->
  loud (let* lt := inferType false false lhs in
        let* rt := inferType false false rhs in
        check lt rt).
Proof.
  intros Hl Hr Hacc Hcheck st st' Hsym H.
  bind_inv H as lt st1 E1. bind_inv H as rt st2 E2.
  pose proof (acc_run _ _ _ _ (acc_inferType _ _ _) E1) as A1.
  pose proof (acc_run _ _ _ _ (acc_inferType _ _ _) E2) as A2.
  pose proof (acc_run _ _ _ _ (Hacc _ _) H) as A3.
  pose proof (inferType_sameCtx false false lhs st) as C1.
  rewrite E1 in C1. simpl in C1.
  destruct lt as [lt |]; [destruct rt as [rt |] |].
  - eapply grew_acc_l; [exact A1 |]. eapply grew_acc_l; [exact A2 |].
    eapply Hcheck, H.
  - eapply grew_acc_l; [exact A1 |]. eapply grew_acc_r; [| exact A3].
    apply Hr; [rewrite C1; exact Hsym | exact E2].
  - eapply grew_acc_r; [exact (Hl _ _ Hsym E1) |].
    unfold accumulates in *. etransitivity; eassumption.
Qed.

Lemma inferType_loud e : forall w, loud (inferType w false e).
Proof.
  induction e using Expr_mutind with (P0 := fun _ => True);
    try exact I; intros w; simpl;
    try solve [ apply loud_publishes; unfold boolType; publishes_auto;
                first [ apply checkBinaryBoolean_publishes
                      | apply checkNot_publishes
                      | apply checkCall_publishes ] ];
    try solve [ apply loud_binary;
                eauto using acc_checkBinaryElwise, acc_checkMul, acc_checkDiv,
                  checkBinaryElwise_loud, checkMul_loud, checkDiv_loud ];
    try solve [ apply loud_unary;
                eauto using acc_checkNeg, acc_checkTranspose,
                  acc_checkFieldRead, checkNeg_loud, checkTranspose_loud,
                  checkFieldRead_loud ];
    try solve [ intros st st' _ H; discriminate H ].
  - (* MapExpr *)
    intros st st' Hsym Hrun. bind_inv Hrun as actuals st1 E.
    apply checkMap_loud in Hrun. eapply grew_acc_l; [| exact Hrun].
    eapply acc_run; [| exact E].
    apply (good_inferPartialActuals accumulates);
      first [ exact accumulates_refl | exact accumulates_trans
            | exact accumulates_report
            | apply Forall_forall; intros; apply acc_inferType ].
  - (* TensorReadExpr *)
    intros st st' Hsym Hrun. bind_inv Hrun as lhsType st1 E.
    destruct lhsType as [t |].
    + eapply grew_acc_l; [exact (acc_run _ _ _ _ (acc_inferType _ _ _) E) |].
      destruct t as [| ty [| ? ?]]; try solve [ decide_tests_in Hrun ].
      destruct ty; try solve [ decide_tests_in Hrun ].
      * destruct (negb _); [decide_tests_in Hrun |].
        exfalso. revert Hrun. never_none.
      * exfalso. revert Hrun. never_none.
    + injection Hrun as <-. exact (IHe _ _ _ Hsym E).
  - (* VarExpr *)
    apply visitVarExpr_loud.
  - (* TensorLiteral *)
    intros st st' _ H. eapply typeCheckDenseTensorLiteral_loud, H.
Qed.

(** Property X9: where every visible symbol has a defined type, an
    expression for which the inference publishes no type has had at least
    one diagnostic appended.  (A symbol of undefined type is one whose
    declaration was already reported; reading it publishes no type and
    reports nothing more.) *)
Theorem inference_fails_loudly (e : Expr) (w : bool) (st st' : State) :
  symbolsDefined (ctx st) ->
  inferType w false e st = (Done None, st') ->
  exists d ds, errors st' = errors st ++ d :: ds.
Proof. apply inferType_loud. Qed.

(** [u + 1] where no [u] is declared. *)
Lemma inference_fails_loudly_witness :
  let st := mkState internal.emptyContext [] in
  exists d ds,
    errors (inferType false false sumWithUndeclared st).2
    = errors st ++ d :: ds.
Proof.
  intros st.
  apply (inference_fails_loudly sumWithUndeclared false st).
  - intros name sym H. unfold internal.getSymbol in H. simpl in H.
    rewrite lookup_empty in H. discriminate H.
  - vm_compute. reflexivity.
Defined.

(** ** Assignments and declarations *)

Lemma hasSymbol_None c name :
  internal.getSymbol c name = None -> internal.hasSymbol c name false = false.
Proof.
  intros H. unfold internal.hasSymbol. rewrite H.
  apply bool_decide_eq_false. intros [? ?]. discriminate.
Qed.

Lemma hasSymbol_Some c name sym :
  internal.getSymbol c name = Some sym -> internal.hasSymbol c name false = true.
Proof.
  intros H. unfold internal.hasSymbol. rewrite H.
  apply bool_decide_eq_true. eexists. reflexivity.
Qed.

(** The target of an assignment that is an undeclared variable has no type
    and draws no diagnostic. *)
Lemma inferTargets_fresh x st :
  internal.getSymbol (ctx st) x = None ->
  inferTargets [VarExpr x] st = (Done [ir.Undefined], st).
Proof.
  intros H. simpl. unfold visitVarExpr, bind, getCtx. rewrite H. reflexivity.
Qed.

Lemma declareTargets_fresh x types st :
  internal.getSymbol (ctx st) x = None ->
  declareTargets [VarExpr x] types st
  = match types with
    | Some [] => (Throw OutOfRange, st)
    | _ =>
        (Done tt,
         mkState
           (internal.addSymbol (ctx st) x
              (ir.mkVar x match types with
                          | Some (t :: _) => t
                          | _ => ir.Undefined
                          end) internal.ReadWrite) (errors st))
    end.
Proof.
  intros H. cbn [declareTargets]. unfold bind at 1. unfold bind at 1.
  unfold getCtx at 1. cbv beta iota. rewrite (hasSymbol_None _ _ H).
  destruct types as [[| t ts] |]; reflexivity.
Qed.

(** Property X10: an assignment to a variable that is not declared
    declares it in the innermost scope: with the type of the value when the
    value has one type, and with the undefined type when the type of the
    value was not inferred or the value is not a single one, which is then
    reported. *)
Theorem assignment_declares_a_fresh_variable (stmt : Stmt) (x : string)
    (e : Expr) (st : State) (r : option ExprType) (st1 : State) :
  internal.getSymbol (ctx st) x = None ->
  inferType false false e st = (Done r, st1) ->
  let declared t access :=
    internal.addSymbol (ctx st) x (ir.mkVar x t) access in
  let assign := visitAssignStmt stmt [VarExpr x] e st in
  (forall t, r = Some [t] ->
     exists access,
       assign = (Done tt, mkState (declared t access) (errors st1)))
  /\ (r = None ->
      exists access,
        assign
        = (Done tt, mkState (declared ir.Undefined access) (errors st1)))
  /\ (forall ts, r = Some ts -> length ts <> 1%nat ->
      exists access d,
        assign
        = (Done tt,
           mkState (declared ir.Undefined access) (errors st1 ++ [d]))).
Proof.
  intros Hx E declared assign. subst declared assign.
  pose proof (inferType_sameCtx false false e st) as Hc.
  rewrite E in Hc. simpl in Hc.
  assert (Hx1 : internal.getSymbol (ctx st1) x = None) by (rewrite Hc; exact Hx).
  assert (Hstart : forall k : option ExprType -> list ir.Type_ -> M unit,
            (let* exprType := inferType false false e in
             let* lhsType := inferTargets [VarExpr x] in
             k exprType lhsType) st
            = k r [ir.Undefined] st1).
  { intros k. unfold bind at 1. rewrite E. unfold bind at 1.
    rewrite (inferTargets_fresh _ _ Hx1). reflexivity. }
  unfold visitAssignStmt.
  rewrite (Hstart (fun exprType lhsType =>
             let* typeChecked :=
               match exprType with
               | Some ts =>
                   if negb (length [VarExpr x] =? length ts)%nat then
                     let* _ := reportError
                       [Str "cannot assign an expression returning ";
                        Num (Z.of_nat (length ts)); Str " values to ";
                        Num (Z.of_nat (length [VarExpr x])); Str " targets"]
                       (AtStmt stmt) in
                     ret false
                   else checkTargets [VarExpr x] lhsType ts true
               | None => ret false
               end in
             declareTargets [VarExpr x]
               (if typeChecked then exprType else None))).
  split; [| split].
  - intros t ->. unfold bind at 1.
    change (negb (length [VarExpr x] =? length [t])%nat) with false.
    cbv iota.
    assert (Hcheck : checkTargets [VarExpr x] [ir.Undefined] [t] true st1
                     = (Done true, st1)) by reflexivity.
    rewrite Hcheck, (declareTargets_fresh _ _ _ Hx1), Hc.
    eexists. reflexivity.
  - intros ->. unfold bind at 1. unfold ret at 1. cbv beta iota.
    rewrite (declareTargets_fresh _ _ _ Hx1). rewrite Hc.
    eexists. reflexivity.
  - intros ts -> Hlen. apply Nat.eqb_neq in Hlen.
    unfold bind at 1. change (length [VarExpr x]) with 1%nat.
    rewrite Nat.eqb_sym in Hlen. rewrite Hlen.
    change (negb false) with true. cbv iota.
    unfold bind at 1. unfold reportError at 1. unfold ret at 1.
    cbv beta iota.
    rewrite declareTargets_fresh by exact Hx1. simpl. rewrite Hc.
    do 2 eexists. reflexivity.
Qed.

(** [x = 1;] from the global scope. *)
Lemma assignment_declares_a_fresh_variable_witness :
  let st := mkState internal.emptyContext [] in
  exists access,
    visitAssignStmt assignsX [VarExpr "x"] (IntLiteral 1) st
    = (Done tt,
       mkState
         (internal.addSymbol internal.emptyContext "x"
            (ir.mkVar "x" (ir.scalar ir.Int)) access) []).
Proof.
  intros st.
  apply (proj1 (assignment_declares_a_fresh_variable assignsX "x"
                  (IntLiteral 1) st (Some [ir.scalar ir.Int]) st
                  ltac:(vm_compute; reflexivity) eq_refl)
           (ir.scalar ir.Int) eq_refl).
Defined.

(** ** Declared variables and constants *)

Lemma getSymbol_addSymbol c x var access :
  internal.symtable c <> [] ->
  internal.getSymbol (internal.addSymbol c x var access) x
  = Some (internal.mkSymbol var access).
Proof.
  unfold internal.getSymbol, internal.addSymbol.
  destruct (internal.symtable c) as [| s outer]; [congruence |]. intros _.
  simpl. rewrite lookup_insert. destruct (decide (x = x)); congruence.
Qed.

(** A declaration of a name that is not bound in the current scope binds
    it, to the declared type, read-only for a constant. *)
Lemma declaration_registers decl x T initVal isConst st st' t st1 :
  typeCheckVarOrConstDecl decl (mkIdentDecl x T) initVal isConst st
  = (Done tt, st') ->
  getIRType T st = (Done t, st1) ->
  declaredInScope (ctx st) x = false ->
  ctx st'
  = internal.addSymbol (ctx st) x (ir.mkVar x t)
      (if isConst then internal.Read else internal.ReadWrite).
Proof.
  intros H Hlow Hfresh. unfold typeCheckVarOrConstDecl in H.
  unfold bind at 1 in H. unfold getVar in H. unfold bind at 1 in H.
  simpl type in H. rewrite Hlow in H. unfold ret at 1 in H.
  cbv beta iota in H. simpl name in H.
  pose proof (getVar_sameCtx (mkIdentDecl x T) st) as C1.
  unfold getVar, bind in C1. simpl type in C1. rewrite Hlow in C1.
  simpl in C1.
  bind_inv H as initType st2 E.
  assert (C2 : ctx st2 = ctx st1).
  { destruct initVal as [e |].
    - pose proof (inferType_sameCtx false false e st1) as C.
      rewrite E in C. exact C.
    - injection E as _ <-. reflexivity. }
  unfold bind at 1 in H. unfold getCtx at 1 in H. cbv beta iota in H.
  cbn [ir.getName ir.getType] in H. rewrite C2, C1, Hfresh in H.
  unfold bind at 1 in H. unfold modifyCtx at 1 in H. cbv beta iota in H.
  assert (Hctx : forall m : M unit,
            (forall s, ctx (m s).2 = ctx s) ->
            forall s, m s = (Done tt, st') -> ctx st' = ctx s).
  { intros m Hm s Hs. specialize (Hm s). rewrite Hs in Hm. exact Hm. }
  destruct (negb (ir.defined t)).
  - injection H as <-. simpl. rewrite C2, C1. reflexivity.
  - apply (Hctx _ (checkInitialValue_sameCtx _ _ _ _)) in H.
    rewrite H. simpl. rewrite C2, C1. reflexivity.
Qed.

(** Property X11: after a declaration of a name that was not bound in the
    current scope to a defined type, with a type that lowers to a defined
    type, reading the name gives that type and reports nothing; writing it
    reports nothing for a variable and reports that the name is not writable
    for a constant. *)
Theorem declared_variables_read_back (decl : Stmt) (x : string) (T : Type_)
    (initVal : option Expr) (isConst : bool) (st st' : State) (t : ir.Type_)
    (st1 : State) :
  typeCheckVarOrConstDecl decl (mkIdentDecl x T) initVal isConst st
  = (Done tt, st') ->
  getIRType T st = (Done t, st1) ->
  ir.defined t = true ->
  declaredInScope (ctx st) x = false ->
  internal.symtable (ctx st) <> [] ->
  inferType false false (VarExpr x) st' = (Done (Some [t]), st')
  /\ (isConst = false ->
      inferType true false (VarExpr x) st' = (Done (Some [t]), st'))
  /\ (isConst = true ->
      inferType true false (VarExpr x) st'
      = (Done (Some [t]),
         mkState (ctx st')
           (errors st'
              ++ [mkParseError (AtExpr (VarExpr x))
                    [Str "'"; Str x; Str "' is not writable"]]))).
Proof.
  intros H Hlow Hdef Hfresh Hscope.
  pose proof (declaration_registers _ _ _ _ _ _ _ _ _ H Hlow Hfresh) as Hctx.
  assert (Hsym : internal.getSymbol (ctx st') x
                 = Some (internal.mkSymbol (ir.mkVar x t)
                           (if isConst then internal.Read
                            else internal.ReadWrite))).
  { rewrite Hctx. apply getSymbol_addSymbol, Hscope. }
  simpl. unfold visitVarExpr, bind, getCtx. rewrite Hsym. simpl.
  rewrite Hdef. simpl.
  split; [| split].
  - destruct isConst; reflexivity.
  - intros ->. reflexivity.
  - intros ->. reflexivity.
Qed.

(** [const k : int = 1;], and a write to [k]. *)
Lemma declared_variables_read_back_witness :
  let st := mkState internal.emptyContext [] in
  let decl := ConstDecl (mkIdentDecl "k" (Tensor (ScalarType INT)))
                (Some (IntLiteral 1)) in
  let st' := (visitStmt decl st).2 in
  inferType true false (VarExpr "k") st'
  = (Done (Some [ir.scalar ir.Int]),
     mkState (ctx st') (errors st' ++ [notWritable "k"])).
Proof.
  intros st decl st'.
  apply (proj2 (proj2
           (declared_variables_read_back decl "k" (Tensor (ScalarType INT))
              (Some (IntLiteral 1)) true st st' (ir.scalar ir.Int) st
              ltac:(vm_compute; reflexivity) eq_refl eq_refl eq_refl
              ltac:(discriminate)))).
  reflexivity.
Defined.

(** ** Assignment to a symbol that is not writable *)

Lemma acc_checkTargets lhs lhsType exprType typeChecked :
  good accumulates (checkTargets lhs lhsType exprType typeChecked).
Proof. acc_by good_checkTargets. Qed.

Lemma checkTargets_sameCtx lhs lhsType exprType typeChecked st :
  ctx (checkTargets lhs lhsType exprType typeChecked st).2 = ctx st.
Proof.
  exact (proj2 (good_checkTargets sameCtx sameCtx_refl sameCtx_trans
                  sameCtx_report lhs lhsType exprType typeChecked st)).
Qed.

(** Property X12: an assignment to a symbol that is not writable (a
    constant, a loop variable, an argument that is not [inout]) is reported
    as not writable, and the context is left as it was. *)
Theorem read_only_symbols_reject_assignment (stmt : Stmt) (x : string)
    (e : Expr) (sym : internal.Symbol) (st st' : State) :
  internal.getSymbol (ctx st) x = Some sym ->
  internal.isWritable sym = false ->
  visitAssignStmt stmt [VarExpr x] e st = (Done tt, st') ->
  ctx st' = ctx st
  /\ mkParseError (AtExpr (VarExpr x)) [Str "'"; Str x; Str "' is not writable"]
     ∈ errors st'.
Proof.
  intros Hsym Hw H. unfold visitAssignStmt in H.
  bind_inv H as r st1 E1.
  pose proof (inferType_sameCtx false false e st) as C1.
  rewrite E1 in C1. simpl in C1.
  assert (Hsym1 : internal.getSymbol (ctx st1) x = Some sym)
    by (rewrite C1; exact Hsym).
  bind_inv H as lhsType st2 E2.
  assert (Hst2 : st2 = mkState (ctx st1)
                         (errors st1
                            ++ [mkParseError (AtExpr (VarExpr x))
                                  [Str "'"; Str x; Str "' is not writable"]])).
  { simpl in E2. unfold visitVarExpr, bind, getCtx in E2.
    rewrite Hsym1, Hw in E2. simpl in E2.
    destruct (negb _); injection E2 as _ <-; reflexivity. }
  clear E2. bind_inv H as typeChecked st3 E3.
  assert (H3 : accumulates st2 st3 /\ ctx st3 = ctx st2).
  { destruct r as [ts |].
    - destruct (negb _).
      + unfold bind, reportError, ret in E3. injection E3 as _ <-.
        split; [apply accumulates_report | reflexivity].
      + split; [exact (acc_run _ _ _ _ (acc_checkTargets _ _ _ _) E3) |].
        pose proof (checkTargets_sameCtx [VarExpr x] lhsType ts true st2) as C.
        rewrite E3 in C. exact C.
    - injection E3 as _ <-. split; [apply accumulates_refl | reflexivity]. }
  destruct H3 as [A3 C3].
  assert (Hsym3 : internal.getSymbol (ctx st3) x = Some sym)
    by (rewrite C3, Hst2; exact Hsym1).
  cbn [declareTargets] in H. unfold bind at 1 in H. unfold bind at 1 in H.
  unfold getCtx at 1 in H. cbv beta iota in H.
  rewrite (hasSymbol_Some _ _ _ Hsym3) in H. simpl in H.
  injection H as <-. split.
  - rewrite C3, Hst2. exact C1.
  - destruct A3 as [k Hk]. rewrite Hk, Hst2. simpl.
    apply elem_of_app. left. apply elem_of_app. right.
    apply list_elem_of_singleton. reflexivity.
Qed.

(** [i = 0;] where [i] is a loop variable. *)
Lemma read_only_symbols_reject_assignment_witness :
  let assign := AssignStmt [VarExpr "i"] (IntLiteral 0) in
  let st' := (visitStmt assign loopContext).2 in
  ctx st' = ctx loopContext /\ notWritable "i" ∈ errors st'.
Proof.
  intros assign st'.
  apply (read_only_symbols_reject_assignment assign "i" (IntLiteral 0)
           (internal.mkSymbol (ir.mkVar "i" (ir.scalar ir.Int)) internal.Read)
           loopContext st');
    [vm_compute; reflexivity | reflexivity | vm_compute; reflexivity].
Defined.

(** ** Calls and maps *)

Lemma checkCall_result expr func argTypes st r st' :
  checkCall expr func argTypes st = (Done r, st') ->
  r = Some (ir.getType <$> ir.getResults func).
Proof.
  unfold checkCall. intros H. bind_inv H as u st1 E.
  injection H as <- _. reflexivity.
Qed.

Lemma checkMap_result expr funcName targetName partialActuals actualsType
    st r st' :
  checkMap expr funcName targetName partialActuals actualsType st
  = (Done r, st') ->
  r = (fun f => ir.getType <$> ir.getResults f)
        <$> internal.getFunction (ctx st) funcName.
Proof.
  unfold checkMap. unfold bind at 1. unfold getCtx at 1. cbv beta iota.
  intros H. bind_inv H as func st1 E.
  assert (func = internal.getFunction (ctx st) funcName) as ->.
  { destruct (internal.getFunction (ctx st) funcName).
    - injection E as <- _. reflexivity.
    - unfold bind, reportUndeclared, reportError, ret in E.
      injection E as <- _. reflexivity. }
  clear E. bind_inv H as target st2 E.
  destruct (internal.getFunction (ctx st) funcName) as [f |], target as [tgt |];
    try (injection H as <- _; reflexivity).
  bind_inv H as s st3 E3. destruct s as [elementType endpointSets].
  bind_inv H as actuals st4 E4.
  destruct (negb _).
  - bind_inv H as u st5 E5. injection H as <- _. reflexivity.
  - bind_inv H as u st5 E5. injection H as <- _. reflexivity.
Qed.

(** Property X13: a call whose check completes publishes the types of the
    results of the called function, and a map that of the results of the
    assembly function, whatever is reported about the arguments, the actuals
    or the target; a map of a function that is not declared publishes no
    type. *)
Theorem calls_publish_the_declared_results :
  (forall w s func arguments st r st',
     inferType w s (CallExpr func arguments) st = (Done r, st') ->
     exists f,
       internal.getFunction (ctx st) func = Some f
       /\ r = Some (ir.getType <$> ir.getResults f))
  /\ (forall w s func partialActuals target st r st',
       inferType w s (MapExpr func partialActuals target) st = (Done r, st') ->
       r = (fun f => ir.getType <$> ir.getResults f)
             <$> internal.getFunction (ctx st) func).
Proof.
  split.
  - intros w s func arguments st r st' H. simpl in H.
    unfold bind at 1 in H. unfold getCtx at 1 in H. cbv beta iota in H.
    destruct (internal.getFunction (ctx st) func) as [f |];
      [| discriminate H].
    exists f. split; [reflexivity |].
    bind_inv H as argTypes st1 E. eapply checkCall_result, H.
  - intros w s func partialActuals target st r st' H. simpl in H.
    bind_inv H as actuals st1 E.
    assert (C : ctx st1 = ctx st).
    { assert (G : good sameCtx
                    (inferPartialActuals (inferType false s) partialActuals)).
      { apply (good_inferPartialActuals sameCtx);
          first [ exact sameCtx_refl | exact sameCtx_trans
                | exact sameCtx_report
                | apply Forall_forall; intros;
                  apply (good_inferType sameCtx);
                  first [ exact sameCtx_refl | exact sameCtx_trans
                        | exact sameCtx_report ] ]. }
      destruct (G st) as [_ G']. rewrite E in G'. exact G'. }
    rewrite <- C. eapply checkMap_result, H.
Qed.

(** [f()] for a function [f] of one argument. *)
Lemma calls_publish_the_declared_results_witness :
  let st := mkState contextWithF [] in
  exists f,
    internal.getFunction (ctx st) "f" = Some f
    /\ Some [ir.scalar ir.Float] = Some (ir.getType <$> ir.getResults f).
Proof.
  intros st.
  apply (proj1 calls_publish_the_declared_results false false "f" [] st
           (Some [ir.scalar ir.Float])
           (inferType false false callWithoutArguments st).2).
  vm_compute. reflexivity.
Defined.

(** ** Initialization of a tensor with a scalar *)

Lemma checkInitialValue_scalar decl isConst c dims col col' st :
  checkInitialValue decl isConst (ir.TensorType c dims col)
    (Some [ir.TensorType c [] col']) st
  = (Done tt, st).
Proof.
  unfold checkInitialValue, compareTypes, bind, iassert, toTensor, ret.
  simpl. rewrite ScalarType_eqb_refl.
  destruct (_ && _); reflexivity.
Qed.

(** Property X14: a variable or constant declared with a tensor type of
    any shape is initialized by a scalar of its component type: when the
    declared type lowers and the initializer is inferred without a
    diagnostic, the declaration binds the name and reports nothing. *)
Theorem scalars_initialize_tensors_of_any_shape (decl : Stmt) (x : string)
    (T : Type_) (e : Expr) (isConst : bool) (st : State)
    (c : ir.ScalarType) (dims : list ir.IndexDomain) (col col' : bool) :
  getIRType T st = (Done (ir.TensorType c dims col), st) ->
  inferType false false e st = (Done (Some [ir.TensorType c [] col']), st) ->
  declaredInScope (ctx st) x = false ->
  typeCheckVarOrConstDecl decl (mkIdentDecl x T) (Some e) isConst st
  = (Done tt,
     mkState
       (internal.addSymbol (ctx st) x (ir.mkVar x (ir.TensorType c dims col))
          (if isConst then internal.Read else internal.ReadWrite))
       (errors st)).
Proof.
  intros Hlow He Hfresh. unfold typeCheckVarOrConstDecl.
  unfold bind at 1. unfold getVar. unfold bind at 1. simpl type.
  rewrite Hlow. unfold ret at 1. cbv beta iota.
  unfold bind at 1. rewrite He.
  unfold bind at 1. unfold getCtx at 1. cbv beta iota.
  cbn [ir.getName ir.getType name]. rewrite Hfresh.
  unfold bind at 1. unfold modifyCtx at 1. cbv beta iota.
  change (negb (ir.defined (ir.TensorType c dims col))) with false. cbv iota.
  rewrite checkInitialValue_scalar. reflexivity.
Qed.

(** [var xguess : tensor[3](float) = 0.0;]. *)
Lemma scalars_initialize_tensors_of_any_shape_witness :
  let st := mkState internal.emptyContext [] in
  let decl := VarDecl (mkIdentDecl "xguess" (Tensor vectorType))
                (Some (FloatLiteral (0 # 1))) in
  visitStmt decl st
  = (Done tt,
     mkState
       (internal.addSymbol internal.emptyContext "xguess"
          (ir.mkVar "xguess" (ir.TensorType ir.Float [[ir.Range 3]] false))
          internal.ReadWrite) []).
Proof.
  intros st decl.
  apply (scalars_initialize_tensors_of_any_shape decl "xguess"
           (Tensor vectorType) (FloatLiteral (0 # 1)) false st ir.Float
           [[ir.Range 3]] false false);
    [vm_compute; reflexivity | reflexivity | reflexivity].
Defined.

(** ** Loop variables, tuple reads and quotients *)

Lemma visitRangeDomain_sameCtx lower upper st :
  ctx (visitRangeDomain lower upper st).2 = ctx st.
Proof.
  exact (proj2 (good_visitRangeDomain sameCtx sameCtx_refl sameCtx_trans
                  sameCtx_report lower upper st)).
Qed.

(** Property X15: when the bounds of a [for] statement are checked, its
    body is checked in a new scope in which the loop variable is bound to an
    integer that can be read and cannot be written, and the scope is left
    after the body. *)
Theorem loop_variable_is_a_read_only_integer (loopVar : string)
    (lower upper : Expr) (body : list Stmt) (st st1 : State) :
  visitRangeDomain lower upper (mkState (internal.scope (ctx st)) (errors st))
  = (Done tt, st1) ->
  let inside :=
    mkState
      (internal.addSymbol (internal.scope (ctx st)) loopVar
         (ir.mkVar loopVar (ir.scalar ir.Int)) internal.Read) (errors st1) in
  visitStmt (ForStmt loopVar lower upper body) st
  = (let* _ := visitStmtBlock body in unscope) inside
  /\ inferType false false (VarExpr loopVar) inside
     = (Done (Some [ir.scalar ir.Int]), inside)
  /\ inferType true false (VarExpr loopVar) inside
     = (Done (Some [ir.scalar ir.Int]),
        mkState (ctx inside) (errors inside ++ [notWritable loopVar])).
Proof.
  intros Hdomain inside.
  pose proof (visitRangeDomain_sameCtx lower upper
                (mkState (internal.scope (ctx st)) (errors st))) as Hc.
  rewrite Hdomain in Hc. simpl in Hc.
  assert (Hsym : internal.getSymbol (ctx inside) loopVar
                 = Some (internal.mkSymbol
                           (ir.mkVar loopVar (ir.scalar ir.Int))
                           internal.Read)).
  { apply getSymbol_addSymbol. discriminate. }
  split; [| split].
  - simpl visitStmt. unfold bind at 1. unfold scope at 1, modifyCtx at 1.
    cbv beta iota. unfold bind at 1. rewrite Hdomain.
    unfold bind at 1. unfold modifyCtx at 1. cbv beta iota.
    subst inside. rewrite Hc. reflexivity.
  - simpl. unfold visitVarExpr, bind, getCtx. rewrite Hsym. reflexivity.
  - simpl. unfold visitVarExpr, bind, getCtx. rewrite Hsym. reflexivity.
Qed.

(** A write to [i] in the body of [for i in 0:3]. *)
Lemma loop_variable_is_a_read_only_integer_witness :
  let inside :=
    mkState
      (internal.addSymbol (internal.scope internal.emptyContext) "i"
         (ir.mkVar "i" (ir.scalar ir.Int)) internal.Read) [] in
  inferType true false (VarExpr "i") inside
  = (Done (Some [ir.scalar ir.Int]),
     mkState (ctx inside) [notWritable "i"]).
Proof.
  intros inside.
  apply (proj2 (proj2
           (loop_variable_is_a_read_only_integer "i" (IntLiteral 0)
              (IntLiteral 3) [] (mkState internal.emptyContext [])
              (mkState (internal.scope internal.emptyContext) []) eq_refl))).
Defined.

(** Property X16: a read of a tuple at an integer literal publishes the
    element type of the tuple and reports nothing, whatever the literal is:
    the index is not checked against the length of the tuple. *)
Theorem tuple_reads_are_not_bounds_checked (w s : bool) (tuple : Expr)
    (elementType : ir.Type_) (size index : Z) (st st1 : State) :
  inferType w s tuple st = (Done (Some [ir.TupleType elementType size]), st1) ->
  inferType w s (TensorReadExpr tuple [ExprParam (IntLiteral index)]) st
  = (Done (Some [elementType]), st1).
Proof.
  intros Htuple. simpl. unfold bind at 1. rewrite Htuple. reflexivity.
Qed.

(** [p(5)] for a tuple [p] of two points. *)
Lemma tuple_reads_are_not_bounds_checked_witness :
  inferType false false readPastTheTuple tupleContext
  = (Done (Some [pointType]), tupleContext).
Proof.
  apply (tuple_reads_are_not_bounds_checked false false (VarExpr "p")
           pointType 2 5 tupleContext tupleContext).
  vm_compute. reflexivity.
Defined.



(** ** The order of a dense literal *)

Lemma length_addToLast len dimSizes :
  length (DenseTensorType.addToLast len dimSizes) = length dimSizes.
Proof. unfold DenseTensorType.addToLast. apply length_alter. Qed.

Lemma merge_keeps d other d' :
  DenseTensorType.merge d other = Done d' ->
  length (DenseTensorType.dimSizes d') = length (DenseTensorType.dimSizes d)
  /\ DenseTensorType.type d' = DenseTensorType.type d.
Proof.
  unfold DenseTensorType.merge.
  repeat match goal with
         | |- context [if ?b then _ else _] => destruct b
         end; try discriminate.
  intros [= <-]. simpl. split; [apply length_addToLast | reflexivity].
Qed.

Lemma mergeRows_keeps get rows : forall d d',
  mergeRows get rows d = Done d' ->
  length (DenseTensorType.dimSizes d') = length (DenseTensorType.dimSizes d)
  /\ DenseTensorType.type d' = DenseTensorType.type d.
Proof.
  induction rows as [| row rows IH]; intros d d' H; simpl in H.
  - injection H as <-. auto.
  - destruct (get row) as [other | |]; try discriminate.
    destruct (DenseTensorType.merge d other) as [merged | |] eqn:E;
      try discriminate.
    apply merge_keeps in E. apply IH in H.
    destruct E as [E1 E2], H as [H1 H2]. split; congruence.
Qed.

(** The type inferred for a literal has as many sizes as the literal is
    nested deep, and the kind of its values is known. *)
Lemma getDenseTensorType_nesting lit d :
  getDenseTensorType lit = Done d ->
  length (DenseTensorType.dimSizes d) = nesting lit
  /\ DenseTensorType.type d <> DenseTensorType.UNKNOWN.
Proof.
  revert d. induction lit as [vals b | vals b | elems IH b]; intros d H.
  - simpl in H. injection H as <-. simpl.
    split; [reflexivity | discriminate].
  - simpl in H. injection H as <-. simpl.
    split; [reflexivity | discriminate].
  - simpl in H. destruct b; [discriminate |].
    destruct IH as [| first Hfirst rest _]; [discriminate |].
    destruct (getDenseTensorType first) as [t | |] eqn:E; try discriminate.
    apply mergeRows_keeps in H. destruct H as [Hlen Htype].
    destruct (Hfirst t eq_refl) as [Hn Hk].
    simpl in *. rewrite Hlen, Htype, length_app. simpl.
    split; [lia | exact Hk].
Qed.

(** Property X18: the type published for a dense literal is a tensor of
    integers or floats whose order is the depth to which the literal is
    nested, each dimension a range, and whose column-vector flag is the
    literal's [transposed], which is only set at depth 1; the check of a
    literal that publishes a type reports nothing. *)
Theorem literal_order_is_its_nesting (lit : DenseTensorLiteral)
    (st : State) (r : ExprType) (st' : State) :
  typeCheckDenseTensorLiteral lit st = (Done (Some r), st') ->
  exists c dimensions,
    r = [ir.TensorType c dimensions (transposedOf lit)]
    /\ length dimensions = nesting lit
    /\ c <> ir.Boolean
    /\ Forall (fun d => exists n, d = [ir.Range n]) dimensions
    /\ (transposedOf lit = true -> nesting lit = 1%nat)
    /\ st' = st.
Proof.
  unfold typeCheckDenseTensorLiteral, tryCatch, bind, lift.
  destruct (getDenseTensorType lit) as [d | e | x] eqn:E;
    [| discriminate ..].
  apply getDenseTensorType_nesting in E. destruct E as [Hlen Hkind].
  unfold iassert. rewrite length_fmap, length_reverse, Hlen.
  destruct ((nesting lit =? 1)%nat || negb (transposedOf lit)) eqn:Hassert;
    [| discriminate].
  intros [= <- <-]. do 2 eexists. split; [reflexivity |].
  rewrite length_fmap, length_reverse. split; [exact Hlen |].
  split; [destruct (DenseTensorType.type d); discriminate |].
  split; [apply Forall_fmap, Forall_forall; intros n _; eexists; reflexivity |].
  split; [| reflexivity].
  intros Ht. rewrite Ht in Hassert. rewrite orb_false_r in Hassert.
  apply Nat.eqb_eq, Hassert.
Qed.

(** [[[1, 2, 3], [4, 5, 6]]] has order 2. *)
Lemma literal_order_is_its_nesting_witness :
  let st := mkState internal.emptyContext [] in
  exists c dimensions,
    [ir.TensorType ir.Int [[ir.Range 2]; [ir.Range 3]] false]
    = [ir.TensorType c dimensions (transposedOf twoByThree)]
    /\ length dimensions = nesting twoByThree
    /\ c <> ir.Boolean
    /\ Forall (fun d => exists n, d = [ir.Range n]) dimensions
    /\ (transposedOf twoByThree = true -> nesting twoByThree = 1%nat)
    /\ st = st.
Proof.
  intros st.
  apply (literal_order_is_its_nesting twoByThree st
           [ir.TensorType ir.Int [[ir.Range 2]; [ir.Range 3]] false] st).
  vm_compute. reflexivity.
Defined.

(** ** Write access *)

Lemma reported_acc d a b : d ∈ errors a -> accumulates a b -> d ∈ errors b.
Proof. intros Hd [k Hk]. rewrite Hk. apply elem_of_app. left. exact Hd. Qed.

Lemma reported_bind {A B} d (m : M A) (k : A -> M B) st :
  d ∈ errors (m st).2 -> (forall a, good accumulates (k a)) ->
  d ∈ errors (bind m k st).2.
Proof.
  intros Hd Hk. unfold bind.
  destruct (m st) as [[a | e | r] st1]; simpl in *; try exact Hd.
  eapply reported_acc; [exact Hd | apply (proj2 (Hk a st1))].
Qed.

Lemma acc_bind {A B} (m : M A) (k : A -> M B) :
  good accumulates m -> (forall a, good accumulates (k a)) ->
  good accumulates (bind m k).
Proof. exact (good_bind accumulates accumulates_trans m k). Qed.

Lemma acc_ret {A} (a : A) : good accumulates (ret a).
Proof. acc_by @good_ret. Qed.

Lemma acc_reportError m l : good accumulates (reportError m l).
Proof. acc_by good_reportError. Qed.

Lemma acc_readIndices s dimensions outerDims indices i dims :
  good accumulates
    (readIndices (inferType false s) dimensions outerDims indices i dims).
Proof.
  apply (good_readIndices accumulates);
    first [ exact accumulates_refl | exact accumulates_trans
          | exact accumulates_report | idtac ].
  apply Forall_forall. intros [| e] _; simpl; [exact I | apply acc_inferType].
Qed.

Lemma acc_readTupleIndex s expr indices :
  good accumulates (readTupleIndex (inferType false s) expr indices).
Proof.
  apply (good_readTupleIndex accumulates);
    first [ exact accumulates_refl | exact accumulates_trans
          | exact accumulates_report | idtac ].
  apply Forall_forall. intros [| e] _; simpl; [exact I | apply acc_inferType].
Qed.

Ltac acc_auto :=
  repeat first
    [ apply acc_ret
    | apply acc_reportError
    | apply acc_readIndices
    | apply acc_readTupleIndex
    | apply acc_checkFieldRead
    | apply acc_bind; [ | intros ? ]
    | match goal with
      | |- good _ (match ?x with _ => _ end) => destruct x
      | |- good _ (if ?b then _ else _) => destruct b
      end ].

(** Property X19: the write access of the target of an assignment is
    checked at the variable that [markCheckWritable] reaches, through any
    number of tensor reads and field reads: when that variable is not
    writable, this is among the diagnostics, however the check of the target
    ends. *)
Theorem write_access_is_checked_at_the_root (target : Expr) (s : bool)
    (x : string) (sym : internal.Symbol) (st : State) :
  markCheckWritable target = Some x ->
  internal.getSymbol (ctx st) x = Some sym ->
  internal.isWritable sym = false ->
  notWritable x ∈ errors (inferType true s target st).2.
Proof.
  intros Hroot Hsym Hw. revert Hroot.
  induction target using Expr_mutind with (P0 := fun _ => True);
    try exact I; try discriminate; intros Hroot.
  - (* TensorReadExpr *)
    simpl in Hroot. simpl. apply reported_bind; [auto |].
    intros lhsType. acc_auto.
  - (* FieldReadExpr *)
    simpl in Hroot. simpl. apply reported_bind; [auto |].
    intros lhsType. acc_auto.
  - (* VarExpr *)
    injection Hroot as ->. simpl.
    unfold visitVarExpr, bind, getCtx. rewrite Hsym, Hw. simpl.
    destruct (negb _); simpl; apply elem_of_app; right;
      apply list_elem_of_singleton; reflexivity.
Qed.

(** The target [A(0)] where [A] is read-only. *)
Lemma write_access_is_checked_at_the_root_witness :
  notWritable "A" ∈ errors (inferType true false elementOfA readOnlyVector).2.
Proof.
  apply (write_access_is_checked_at_the_root elementOfA false "A"
           (internal.mkSymbol
              (ir.mkVar "A" (ir.TensorType ir.Float [[ir.Range 3]] true))
              internal.Read) readOnlyVector);
    [reflexivity | vm_compute; reflexivity | reflexivity].
Defined.

(** ** The diagnostics reported before a check *)

Lemma framed_ret {A} (a : A) : framed (ret a).
Proof. intros c es pre. reflexivity. Qed.

Lemma framed_abort {A} r : framed (@abort A r).
Proof. intros c es pre. reflexivity. Qed.

Lemma framed_throw {A} e : framed (@throw A e).
Proof. intros c es pre. reflexivity. Qed.

Lemma framed_lift {A} (o : Outcome A) : framed (lift o).
Proof. intros c es pre. reflexivity. Qed.

Lemma framed_getCtx : framed getCtx.
Proof. intros c es pre. reflexivity. Qed.

Lemma framed_modifyCtx f : framed (modifyCtx f).
Proof. intros c es pre. reflexivity. Qed.

Lemma framed_reportError m l : framed (reportError m l).
Proof.
  intros c es pre. unfold reportError, after. simpl.
  rewrite app_assoc. reflexivity.
Qed.

Lemma framed_bind {A B} (m : M A) (k : A -> M B) :
  framed m -> (forall a, framed (k a)) -> framed (bind m k).
Proof.
  intros Hm Hk c es pre. unfold bind. rewrite Hm.
  destruct (m (mkState c es)) as [[a | e | r] [c1 es1]]; simpl;
    [apply Hk | reflexivity | reflexivity].
Qed.

Lemma framed_when c (m : M unit) : framed m -> framed (when c m).
Proof. intros Hm. destruct c; simpl; [exact Hm | apply framed_ret]. Qed.

Lemma framed_iassert c : framed (iassert c).
Proof. destruct c; [apply framed_ret | apply framed_abort]. Qed.

Lemma framed_tryCatch {A} (body : M A) (handler : Exn -> M A) :
  framed body -> (forall e, framed (handler e)) ->
  framed (tryCatch body handler).
Proof.
  intros Hb Hh c es pre. unfold tryCatch. rewrite Hb.
  destruct (body (mkState c es)) as [[a | e | r] [c1 es1]]; simpl;
    [reflexivity | apply Hh | reflexivity].
Qed.

Lemma framed_scope : framed scope.
Proof. apply framed_modifyCtx. Qed.

Lemma framed_unscope : framed unscope.
Proof. apply framed_modifyCtx. Qed.

Create HintDb framed_db discriminated.

#[local] Hint Resolve framed_ret framed_abort framed_throw framed_lift framed_getCtx
  framed_modifyCtx framed_scope framed_unscope framed_reportError
  framed_iassert : framed_db.

(** One step of a proof of [framed]: a known visit, a bind, or a case
    distinction on what the visit branches on. *)
Ltac framed_step :=
  first
    [ solve [ auto 2 with framed_db nocore ]
    | apply framed_when
    | apply framed_bind; [ | intros ? ]
    | match goal with
      | |- framed (match ?x with _ => _ end) => destruct x
      | |- framed (if ?b then _ else _) => destruct b
      end ].

Ltac framed_auto := repeat framed_step.

Lemma framed_reportUndeclared type ident l :
  framed (reportUndeclared type ident l).
Proof. apply framed_reportError. Qed.

Lemma framed_reportMultipleDefs type ident l :
  framed (reportMultipleDefs type ident l).
Proof. apply framed_reportError. Qed.

Lemma framed_compareTypes l r : framed (compareTypes l r).
Proof. unfold compareTypes. framed_auto. Qed.

Lemma framed_toTensor t : framed (toTensor t).
Proof. unfold toTensor. framed_auto. Qed.

Lemma framed_toSet t : framed (toSet t).
Proof. unfold toSet. framed_auto. Qed.

#[local] Hint Resolve framed_reportUndeclared framed_reportMultipleDefs framed_compareTypes
  framed_toTensor framed_toSet : framed_db.

(** *** Type syntax *)

Lemma framed_visitIndexSet set : framed (visitIndexSet set).
Proof. unfold visitIndexSet. framed_auto. Qed.

Lemma framed_visitElementType ident : framed (visitElementType ident).
Proof. unfold visitElementType. framed_auto. Qed.

Lemma framed_visitEndpoint setName : framed (visitEndpoint setName).
Proof. unfold visitEndpoint. framed_auto. Qed.

#[local] Hint Resolve framed_visitIndexSet framed_visitElementType framed_visitEndpoint
  : framed_db.

Lemma framed_visitEndpoints ends : forall typeChecked endpoints,
  framed (visitEndpoints ends typeChecked endpoints).
Proof. induction ends as [| e rest IH]; intros; simpl; framed_auto. Qed.

Lemma framed_visitIndexSets iss : forall typeChecked indexSets,
  framed (visitIndexSets iss typeChecked indexSets).
Proof. induction iss as [| s rest IH]; intros; simpl; framed_auto. Qed.

#[local] Hint Resolve framed_visitEndpoints framed_visitIndexSets : framed_db.

Lemma framed_visitTensorType t : framed (visitTensorType t).
Proof. induction t as [k | iss block IH col]; simpl; framed_auto. Qed.

#[local] Hint Resolve framed_visitTensorType : framed_db.

Lemma framed_getIRType t : framed (getIRType t).
Proof.
  destruct t; simpl; unfold visitSetType, visitTupleType; framed_auto.
Qed.

#[local] Hint Resolve framed_getIRType : framed_db.

Lemma framed_getVar decl : framed (getVar decl).
Proof. unfold getVar. framed_auto. Qed.

Lemma framed_getField f : framed (getField f).
Proof. unfold getField. framed_auto. Qed.

#[local] Hint Resolve framed_getVar framed_getField : framed_db.

(** *** Expressions *)

Lemma framed_typeCheckDenseTensorLiteral lit :
  framed (typeCheckDenseTensorLiteral lit).
Proof.
  unfold typeCheckDenseTensorLiteral. apply framed_tryCatch.
  - framed_auto.
  - intros e. framed_auto.
Qed.

Lemma framed_checkNumericOperand what opndType opnd :
  framed (checkNumericOperand what opndType opnd).
Proof. unfold checkNumericOperand. framed_auto. Qed.

#[local] Hint Resolve framed_typeCheckDenseTensorLiteral framed_checkNumericOperand
  : framed_db.

Lemma framed_mulTensors expr lt rt lc ld lcol rc rd rcol :
  framed (mulTensors expr lt rt lc ld lcol rc rd rcol).
Proof. unfold mulTensors. framed_auto. Qed.

#[local] Hint Resolve framed_mulTensors : framed_db.

Lemma framed_checkMul expr lhs rhs lhsType rhsType :
  framed (checkMul expr lhs rhs lhsType rhsType).
Proof. unfold checkMul. framed_auto. Qed.

Lemma framed_checkDiv expr lhs rhs lhsType rhsType :
  framed (checkDiv expr lhs rhs lhsType rhsType).
Proof. unfold checkDiv. framed_auto. Qed.

Lemma framed_checkBinaryElwise expr lhs rhs lhsType rhsType :
  framed (checkBinaryElwise expr lhs rhs lhsType rhsType).
Proof. unfold checkBinaryElwise. framed_auto. Qed.

Lemma framed_checkBinaryBoolean lhs rhs lhsType rhsType :
  framed (checkBinaryBoolean lhs rhs lhsType rhsType).
Proof. unfold checkBinaryBoolean. framed_auto. Qed.

Lemma framed_checkNot operand opndType : framed (checkNot operand opndType).
Proof. unfold checkNot. framed_auto. Qed.

Lemma framed_checkEqOperand operand opndType repType :
  framed (checkEqOperand operand opndType repType).
Proof. unfold checkEqOperand. framed_auto. Qed.

Lemma framed_checkNeg operand opndType : framed (checkNeg operand opndType).
Proof. unfold checkNeg. framed_auto. Qed.

Lemma framed_checkTranspose operand opndType :
  framed (checkTranspose operand opndType).
Proof. unfold checkTranspose. framed_auto. Qed.

Lemma framed_visitVarExpr w s expr ident : framed (visitVarExpr w s expr ident).
Proof. unfold visitVarExpr. framed_auto. Qed.

Lemma framed_checkPartialActual param paramType :
  framed (checkPartialActual param paramType).
Proof. unfold checkPartialActual. framed_auto. Qed.

Lemma framed_inferActuals elementType endpointSets funcArgs actualsType :
  framed (inferActuals elementType endpointSets funcArgs actualsType).
Proof. unfold inferActuals. framed_auto. Qed.

Lemma framed_checkMapActuals funcName target actualsType :
  forall partialActuals funcArgs,
  framed (checkMapActuals funcName target partialActuals actualsType funcArgs).
Proof.
  induction actualsType as [| a rest IH]; intros; simpl; framed_auto.
Qed.

#[local] Hint Resolve framed_checkMul framed_checkDiv framed_checkBinaryElwise
  framed_checkBinaryBoolean framed_checkNot framed_checkEqOperand framed_checkNeg
  framed_checkTranspose framed_visitVarExpr framed_checkPartialActual
  framed_inferActuals framed_checkMapActuals : framed_db.

Lemma framed_checkMap expr funcName targetName partialActuals actualsType :
  framed (checkMap expr funcName targetName partialActuals actualsType).
Proof. unfold checkMap. framed_auto. Qed.

Lemma framed_checkCallArguments argTypes : forall funcArgs,
  framed (checkCallArguments argTypes funcArgs).
Proof.
  induction argTypes as [| a rest IH]; intros; simpl; framed_auto.
Qed.

#[local] Hint Resolve framed_checkMap framed_checkCallArguments : framed_db.

Lemma framed_checkCall expr func argTypes : framed (checkCall expr func argTypes).
Proof. unfold checkCall. framed_auto. Qed.

Lemma framed_getFieldType setExpr fieldName :
  framed (getFieldType setExpr fieldName).
Proof. unfold getFieldType. framed_auto. Qed.

#[local] Hint Resolve framed_checkCall framed_getFieldType : framed_db.

Lemma framed_checkFieldRead expr setOrElem fieldName lhsType :
  framed (checkFieldRead expr setOrElem fieldName lhsType).
Proof. unfold checkFieldRead. framed_auto. Qed.

Lemma framed_checkIndex index indexType outerDim :
  framed (checkIndex index indexType outerDim).
Proof. unfold checkIndex. framed_auto. Qed.

Lemma framed_checkTupleIndex index indexType :
  framed (checkTupleIndex index indexType).
Proof. unfold checkTupleIndex. framed_auto. Qed.

#[local] Hint Resolve framed_checkFieldRead framed_checkIndex framed_checkTupleIndex
  : framed_db.

Lemma framed_inferPartialActuals infer params :
  Forall (fun p => framed (infer p)) params ->
  framed (inferPartialActuals infer params).
Proof. induction 1; simpl; framed_auto. Qed.

Lemma framed_compareOperands infer opnds :
  Forall (fun p => framed (infer p)) opnds ->
  forall repType, framed (compareOperands infer opnds repType).
Proof. induction 1; intros; simpl; framed_auto. Qed.

Lemma framed_inferArguments infer arguments :
  Forall (fun a => match a with
                   | Some e => framed (infer e)
                   | None => True
                   end) arguments ->
  framed (inferArguments infer arguments).
Proof.
  induction 1 as [| a rest Ha _ IH]; simpl; [framed_auto |].
  destruct a; framed_auto.
Qed.

Lemma framed_readIndices infer dimensions outerDims params :
  Forall (framedParam infer) params ->
  forall i dims, framed (readIndices infer dimensions outerDims params i dims).
Proof.
  induction 1 as [| p rest Hp _ IH]; intros; simpl; [framed_auto |].
  destruct p; simpl in Hp; framed_auto.
Qed.

Lemma framed_readTupleIndex infer expr indices :
  Forall (framedParam infer) indices ->
  framed (readTupleIndex infer expr indices).
Proof.
  intros H. unfold readTupleIndex.
  destruct H as [| p rest Hp Hrest]; [framed_auto |].
  destruct rest; [| framed_auto]. destruct p; simpl in Hp; framed_auto.
Qed.

Lemma framed_inferType e : forall w s, framed (inferType w s e).
Proof.
  induction e using Expr_mutind
    with (P0 := fun p => forall s, framedParam (inferType false s) p);
    intros; simpl; try exact I; try solve [ framed_auto ].
  - (* MapExpr *)
    apply framed_bind; [| intros; framed_auto].
    apply framed_inferPartialActuals.
    eapply Forall_impl; [apply list_all_Forall; eassumption |].
    simpl; auto.
  - (* EqExpr *)
    apply framed_bind; [| intros; framed_auto].
    apply framed_compareOperands.
    eapply Forall_impl; [apply list_all_Forall; eassumption |].
    simpl; auto.
  - (* CallExpr *)
    apply framed_bind; [framed_auto | intros c].
    destruct (internal.getFunction c func); [| framed_auto].
    apply framed_bind; [| intros; framed_auto].
    apply framed_inferArguments.
    eapply Forall_impl; [apply arguments_all_Forall; eassumption |].
    intros [a |]; simpl; auto.
  - (* TensorReadExpr *)
    assert (Hidx : Forall (framedParam (inferType false s)) indices).
    { eapply Forall_impl; [apply list_all_Forall; eassumption |].
      simpl; auto. }
    apply framed_bind; [auto |]. intros lhsType.
    destruct lhsType as [[| t [| ? ?]] |]; try solve [ framed_auto ].
    destruct t; try solve [ framed_auto ].
    + destruct (negb _); [framed_auto |].
      apply framed_bind; [| intros; framed_auto].
      apply framed_readIndices; assumption.
    + apply framed_bind; [| intros; framed_auto].
      apply framed_readTupleIndex; assumption.
Qed.

#[local] Hint Resolve framed_inferType : framed_db.

(** *** Statements and declarations *)

Lemma framed_checkCondition cond condType : framed (checkCondition cond condType).
Proof. unfold checkCondition. framed_auto. Qed.

Lemma framed_visitRangeDomain lower upper : framed (visitRangeDomain lower upper).
Proof. unfold visitRangeDomain. framed_auto. Qed.

Lemma framed_visitPrintStmt expr : framed (visitPrintStmt expr).
Proof. unfold visitPrintStmt. framed_auto. Qed.

Lemma framed_inferTargets lhs : framed (inferTargets lhs).
Proof. induction lhs as [| t rest IH]; simpl; framed_auto. Qed.

Lemma framed_checkTargets lhs : forall lhsType exprType typeChecked,
  framed (checkTargets lhs lhsType exprType typeChecked).
Proof. induction lhs as [| t rest IH]; intros; simpl; framed_auto. Qed.

#[local] Hint Resolve framed_checkCondition framed_visitRangeDomain framed_visitPrintStmt
  framed_inferTargets framed_checkTargets : framed_db.

Lemma framed_declareTargets lhs : forall exprType,
  framed (declareTargets lhs exprType).
Proof. induction lhs as [| t rest IH]; intros; simpl; framed_auto. Qed.

#[local] Hint Resolve framed_declareTargets : framed_db.

Lemma framed_visitAssignStmt stmt lhs expr : framed (visitAssignStmt stmt lhs expr).
Proof. unfold visitAssignStmt. framed_auto. Qed.

Lemma framed_stdEqual range1 : forall range2, framed (stdEqual range1 range2).
Proof. induction range1 as [| x rest IH]; intros; simpl; framed_auto. Qed.

#[local] Hint Resolve framed_visitAssignStmt framed_stdEqual : framed_db.

Lemma framed_checkInitialValue decl isConst varType initType :
  framed (checkInitialValue decl isConst varType initType).
Proof. unfold checkInitialValue. framed_auto. Qed.

#[local] Hint Resolve framed_checkInitialValue : framed_db.

Lemma framed_typeCheckVarOrConstDecl decl var initVal isConst :
  framed (typeCheckVarOrConstDecl decl var initVal isConst).
Proof. unfold typeCheckVarOrConstDecl. framed_auto. Qed.

#[local] Hint Resolve framed_typeCheckVarOrConstDecl : framed_db.

Lemma framed_visitStmts visit stmts :
  Forall (fun s => framed (visit s)) stmts -> framed (visitStmts visit stmts).
Proof. induction 1; simpl; framed_auto. Qed.

Lemma framed_visitStmt s : framed (visitStmt s).
Proof.
  induction s; simpl; try solve [ framed_auto ].
  - (* WhileStmt *)
    repeat (apply framed_bind; [| intros ?]); try solve [ framed_auto ].
    apply framed_visitStmts, list_all_Forall. assumption.
  - (* IfStmt *)
    repeat (apply framed_bind; [| intros ?]); try solve [ framed_auto ].
    + apply framed_visitStmts, list_all_Forall. assumption.
    + match goal with H : option_all _ _ _ |- _ => destruct H end;
        [| framed_auto].
      repeat (apply framed_bind; [| intros ?]); try solve [ framed_auto ].
      apply framed_visitStmts, list_all_Forall. assumption.
  - (* ForStmt *)
    repeat (apply framed_bind; [| intros ?]); try solve [ framed_auto ].
    apply framed_visitStmts, list_all_Forall. assumption.
Qed.

Lemma framed_visitStmtBlock stmts : framed (visitStmtBlock stmts).
Proof.
  apply framed_visitStmts. apply Forall_forall. intros. apply framed_visitStmt.
Qed.

#[local] Hint Resolve framed_visitStmt framed_visitStmtBlock : framed_db.

Lemma framed_visitFields fs : framed (visitFields fs).
Proof. induction fs as [| f rest IH]; simpl; framed_auto. Qed.

Lemma framed_visitArguments args : forall typeChecked,
  framed (visitArguments args typeChecked).
Proof. induction args as [| a rest IH]; intros; simpl; framed_auto. Qed.

Lemma framed_visitResults results : forall typeChecked,
  framed (visitResults results typeChecked).
Proof. induction results as [| r rest IH]; intros; simpl; framed_auto. Qed.

#[local] Hint Resolve framed_visitFields framed_visitArguments framed_visitResults : framed_db.

Lemma framed_visitDecl decl : framed (visitDecl decl).
Proof. destruct decl; simpl; framed_auto. Qed.

#[local] Hint Resolve framed_visitDecl : framed_db.

Lemma framed_visitProgram program : framed (visitProgram program).
Proof. induction program as [| d rest IH]; simpl; framed_auto. Qed.


(** Property X20: the diagnostics reported before a check do not change
    it: the check of a program ends in the same way and leaves the same
    context, and the diagnostics it adds are the ones it reports when it
    starts from an empty list. *)
Theorem reported_diagnostics_do_not_matter (program : Program)
    (c : internal.ProgramContext) (pre : list ParseError) :
  visitProgram program (mkState c pre)
  = ((typeCheck program c).1,
     mkState (ctx (typeCheck program c).2)
       (pre ++ errors (typeCheck program c).2)).
Proof.
  pose proof (framed_visitProgram program c [] pre) as H.
  rewrite app_nil_r in H. exact H.
Qed.
